(** * Kompreser: a shallow embedding of the compression engine

    The development follows the JavaScript sources of
    [@xbibzlibrary/kompreser]:

    - [ErrorHandler]  : core/ErrorHandler.js (error codes, retry policy)
    - [LRUCache]      : core/CompressionEngine.js, class LRUCache
    - [Engine]        : core/CompressionEngine.js, validateInput and
                        selectStrategy; core/Kompreser.js,
                        determineCompressionStrategy
    - [JPEG]          : algorithms/JPEGCompression.js
    - [PNG]           : algorithms/PNGCompression.js
    - [Analyzer]      : utils/ImageAnalyzer.js

    Conventions.  A JavaScript number that the code only ever uses as an
    integer is a [Z]; a quality or a scale is a rational [Q], a decimal
    literal of the source denoting the rational it is written as.  A typed
    array is a [list Z] of its elements; reading outside it yields
    [undefined], which is [None]; writing outside it does nothing. *)

From Stdlib Require Import ZArith QArith Qminmax Lia List.
From Stdlib Require Reals Lra Lqa.
From stdpp Require Import base option list fin_maps gmap strings sorting.

Local Open Scope Z_scope.

(** ** JavaScript helpers shared by the modules *)

Module JS.

(** [a[i]] on a typed array: [undefined] outside [0 .. length-1]. *)
Definition get {A} (a : list A) (i : Z) : option A :=
  if 0 <=? i then a !! Z.to_nat i else None.

(** [a[i] = v] on a typed array of fixed length: ignored out of range. *)
Definition set {A} (a : list A) (i : Z) (v : A) : list A :=
  if 0 <=? i then <[Z.to_nat i := v]> a else a.

(** [x || d] for a number read from an array: [undefined] and [0] are
    both falsy. *)
Definition or_default (x : option Z) (d : Z) : Z :=
  match x with
  | Some v => if v =? 0 then d else v
  | None => d
  end.

(** The index list of [for (let i = 0; i < n; i += step)]. *)
Definition range_step (n step : Z) : list Z :=
  (fun k => step * k) <$> seqZ 0 ((n + step - 1) / step).

End JS.

(** ** core/ErrorHandler.js *)

Module ErrorHandler.

(** The error classes; each constructor of the source fixes [code]. *)
Inductive KompreserError : Type :=
| ValidationError
| FormatError (format : string)
| CompressionError (algorithm : string)
| MemoryError
| WorkerError (workerId : Z)
| TimeoutError (operation : string) (timeout : Z)
| UnsupportedError (feature : string)
| MetadataError (metadataType : string)
| PerformanceError (metric : string)
| OtherError (code : string).

Definition code (e : KompreserError) : string :=
  match e with
  | ValidationError => "VALIDATION_ERROR"
  | FormatError _ => "FORMAT_ERROR"
  | CompressionError _ => "COMPRESSION_ERROR"
  | MemoryError => "MEMORY_ERROR"
  | WorkerError _ => "WORKER_ERROR"
  | TimeoutError _ _ => "TIMEOUT_ERROR"
  | UnsupportedError _ => "UNSUPPORTED_ERROR"
  | MetadataError _ => "METADATA_ERROR"
  | PerformanceError _ => "PERFORMANCE_ERROR"
  | OtherError c => c
  end.

Record Options : Type := mkOptions {
  enableRecovery : bool;
  maxRetries : Z;
  retryDelay : Z
}.

(** The defaults of the constructor. *)
Definition defaultOptions : Options :=
  {| enableRecovery := true; maxRetries := 3; retryDelay := 1000 |}.

Record Handler : Type := mkHandler {
  options : Options;
  errorCounts : gmap string Z
}.

Definition new (o : Options) : Handler :=
  {| options := o; errorCounts := ∅ |}.

(** [trackError]: one more occurrence of [error.code]. *)
Definition trackError (h : Handler) (e : KompreserError) : Handler :=
  let count := default 0 (errorCounts h !! code e) in
  {| options := options h;
     errorCounts := <[code e := count + 1]> (errorCounts h) |}.

Definition retryableErrors : list string :=
  ["WORKER_ERROR"; "TIMEOUT_ERROR"; "COMPRESSION_ERROR"]%string.

(** [retryableErrors.includes(error.code)] *)
Definition isRetryableError (e : KompreserError) : bool :=
  bool_decide (code e ∈ retryableErrors).

(** The answer of [shouldRetry]; [delay] is the time slept before a
    positive answer (exponential backoff), in milliseconds. *)
Record RetryDecision : Type := mkRetry {
  shouldRetry_flag : bool;
  attempt : option Z;
  delay : option Q
}.

Definition shouldRetry (h : Handler) (e : KompreserError) : RetryDecision :=
  let errorCount := default 0 (errorCounts h !! code e) in
  if (errorCount <=? maxRetries (options h)) && isRetryableError e then
    {| shouldRetry_flag := true;
       attempt := Some errorCount;
       delay := Some (inject_Z (retryDelay (options h))
                      * Qpower 2 (errorCount - 1))%Q |}
  else
    {| shouldRetry_flag := false; attempt := None; delay := None |}.

End ErrorHandler.

(** ** core/CompressionEngine.js, class LRUCache *)

(** A JavaScript [Map] keeps its entries in insertion order and holds a
    key at most once; [keys().next().value] is its oldest entry. *)
Module OMap.
Section OMap.
Context {K V : Type} `{EqDecision K}.

Definition has (k : K) (m : list (K * V)) : bool :=
  bool_decide (k ∈ m.*1).

Fixpoint get (k : K) (m : list (K * V)) : option V :=
  match m with
  | [] => None
  | (k', v) :: m' => if decide (k' = k) then Some v else get k m'
  end.

Definition delete (k : K) (m : list (K * V)) : list (K * V) :=
  filter (fun p => p.1 ≠ k) m.

(** [set] on a present key replaces the value where it stands; a new
    key goes to the end. *)
Fixpoint set (k : K) (v : V) (m : list (K * V)) : list (K * V) :=
  match m with
  | [] => [(k, v)]
  | (k', v') :: m' =>
      if decide (k' = k) then (k, v) :: m' else (k', v') :: set k v m'
  end.
End OMap.
End OMap.

Module LRUCache.

(** A cached value: [data] when it has one, and its [size] property. *)
Record Value : Type := mkValue {
  data : option (list Z);
  size : option Z
}.

(** [value.data?.length || value.size || 0] *)
Definition entrySize (value : Value) : Z :=
  let len := match data value with
             | Some d => Z.of_nat (length d)
             | None => 0
             end in
  if len =? 0 then default 0 (size value) else len.

Section Cache.
Context {K : Type} `{EqDecision K}.

Record t : Type := mk {
  maxSize : Z;
  cache : list (K * Value);
  totalSize : Z;
  accessCount : Z;
  hitCount : Z
}.

(** [options.maxSize || 50 * 1024 * 1024] *)
Definition new (options_maxSize : option Z) : t :=
  {| maxSize := match options_maxSize with
                | Some m => if m =? 0 then 50 * 1024 * 1024 else m
                | None => 50 * 1024 * 1024
                end;
     cache := []; totalSize := 0; accessCount := 0; hitCount := 0 |}.

(** [get]: [cache.has(key)] holds exactly when [cache.get(key)] finds
    a value (lemma [has_get] below). *)
Definition get (key : K) (c : t) : option Value * t :=
  match OMap.get key (cache c) with
  | Some value =>
      (Some value,
       {| maxSize := maxSize c;
          (* Move to end (most recently used) *)
          cache := OMap.set key value (OMap.delete key (cache c));
          totalSize := totalSize c;
          accessCount := accessCount c + 1;
          hitCount := hitCount c + 1 |})
  | None =>
      (None,
       {| maxSize := maxSize c; cache := cache c; totalSize := totalSize c;
          accessCount := accessCount c + 1; hitCount := hitCount c |})
  end.

(** The eviction loop of [set]:
    [while (totalSize + size > maxSize && cache.size > 0)] drops the
    first entry.  The first key occurs once in the map, so deleting it
    leaves the tail. *)
Fixpoint evict (maxSize size : Z) (entries : list (K * Value))
    (totalSize : Z) : list (K * Value) * Z :=
  match entries with
  | [] => ([], totalSize)
  | (firstKey, firstValue) :: rest =>
      if totalSize + size >? maxSize
      then evict maxSize size rest (totalSize - entrySize firstValue)
      else (entries, totalSize)
  end.

Definition set (key : K) (value : Value) (c : t) : t :=
  let size := entrySize value in
  (* Remove if already exists *)
  let '(entries1, total1) :=
    if OMap.has key (cache c) then
      (OMap.delete key (cache c),
       totalSize c - default 0 (entrySize <$> OMap.get key (cache c)))
    else (cache c, totalSize c) in
  (* Remove old entries if needed *)
  let '(entries2, total2) := evict (maxSize c) size entries1 total1 in
  (* Add new entry *)
  if size <=? maxSize c then
    {| maxSize := maxSize c;
       cache := OMap.set key value entries2;
       totalSize := total2 + size;
       accessCount := accessCount c; hitCount := hitCount c |}
  else
    {| maxSize := maxSize c; cache := entries2; totalSize := total2;
       accessCount := accessCount c; hitCount := hitCount c |}.

Definition clear (c : t) : t :=
  {| maxSize := maxSize c; cache := []; totalSize := 0;
     accessCount := accessCount c; hitCount := hitCount c |}.

(** The bytes a list of entries adds up to. *)
Definition bytes (m : list (K * Value)) : Z :=
  foldr Z.add 0 (entrySize <$> m.*2).

(** The bytes the stored entries add up to. *)
Definition storedBytes (c : t) : Z := bytes (cache c).

(** The invariant of the cache: the keys are distinct, [totalSize] is the
    sum of the sizes of the entries, and it is within the budget. *)
Definition Inv (c : t) : Prop :=
  NoDup (cache c).*1 /\ totalSize c = bytes (cache c) /\
  totalSize c <= maxSize c /\ 0 <= maxSize c.

(** A client's calls, and the cache they leave behind. *)
Inductive op : Type :=
| OpGet (key : K)
| OpSet (key : K) (value : Value)
| OpClear.

Definition step (c : t) (o : op) : t :=
  match o with
  | OpGet key => (get key c).2
  | OpSet key value => set key value c
  | OpClear => clear c
  end.

Definition run (ops : list op) (c : t) : t := foldl step c ops.

(** [getStats]; the hit rate is the exact quotient. *)
Record Stats : Type := mkStats {
  st_size : Z;
  st_totalSize : Z;
  st_maxSize : Z;
  st_accessCount : Z;
  st_hitCount : Z;
  st_hitRate : Q
}.

Definition getStats (c : t) : Stats :=
  {| st_size := Z.of_nat (length (cache c));
     st_totalSize := totalSize c;
     st_maxSize := maxSize c;
     st_accessCount := accessCount c;
     st_hitCount := hitCount c;
     st_hitRate := if 0 <? accessCount c
                   then (inject_Z (hitCount c) / inject_Z (accessCount c))%Q
                   else 0%Q |}.

(** The calls of [get] among a client's calls. *)
Definition isGet (o : op) : bool :=
  match o with
  | OpGet _ => true
  | _ => false
  end.

End Cache.
Arguments t K : clear implicits.
Arguments op K : clear implicits.
End LRUCache.

(** ** algorithms/JPEGCompression.js *)

(** What a call yields: a value, or the error it throws. *)
Inductive result (A : Type) : Type :=
| Ok (a : A)
| Throw (e : ErrorHandler.KompreserError).
Arguments Ok {A} a.
Arguments Throw {A} e.

(** [{ width, height, data }] as the processor hands it to the codecs. *)
Record ImageData : Type := mkImageData {
  width : Z;
  height : Z;
  data : list Z
}.

Module JPEG.

Definition luminanceQuantTable : list Z :=
  [16; 11; 10; 16; 24; 40; 51; 61;
   12; 12; 14; 19; 26; 58; 60; 55;
   14; 13; 16; 24; 40; 57; 69; 56;
   14; 17; 22; 29; 51; 87; 80; 62;
   18; 22; 37; 56; 68; 109; 103; 77;
   24; 35; 55; 64; 81; 104; 113; 92;
   49; 64; 78; 87; 103; 121; 120; 101;
   72; 92; 95; 98; 112; 100; 103; 99].

Definition chrominanceQuantTable : list Z :=
  [17; 18; 24; 47; 99; 99; 99; 99;
   18; 21; 26; 66; 99; 99; 99; 99;
   24; 26; 56; 99; 99; 99; 99; 99;
   47; 66; 99; 99; 99; 99; 99; 99;
   99; 99; 99; 99; 99; 99; 99; 99;
   99; 99; 99; 99; 99; 99; 99; 99;
   99; 99; 99; 99; 99; 99; 99; 99;
   99; 99; 99; 99; 99; 99; 99; 99].

(** The options [compress] reads.  [quality] is [None] when the property
    is absent (or not a number). *)
Record Options : Type := mkOptions {
  quality : option Q;
  progressive : bool;
  chromaSubsampling : bool     (* [options.chromaSubsampling !== false] *)
}.

(** Storing a number into a [Uint8Array]. *)
Definition to_uint8 (v : Z) : Z := v mod 256.

(** [Math.max(0, Math.min(255, v))] *)
Definition clamp255 (v : Z) : Z := Z.max 0 (Z.min 255 v).

(** [options.quality || 0.8]: an absent quality and the quality [0] are
    both falsy. *)
Definition qualityOrDefault (quality : option Q) : Q :=
  match quality with
  | Some q => if Qeq_bool q 0 then 8 # 10 else q
  | None => 8 # 10
  end.

Definition calculateQualityScale (quality : Q) : Q :=
  if Qle_bool (9 # 10) quality then 1 # 2
  else if Qle_bool (8 # 10) quality then 3 # 4
  else if Qle_bool (7 # 10) quality then 1
  else if Qle_bool (6 # 10) quality then 5 # 4
  else if Qle_bool (5 # 10) quality then 3 # 2
  else 2.

(** [channel === 0 ? luminanceQuantTable : chrominanceQuantTable] *)
Definition quantTable (channel : Z) : list Z :=
  if channel =? 0 then luminanceQuantTable else chrominanceQuantTable.

(** The divisor of coefficient [i] in [quantizeBlock]:
    [quantTable[i] * qualityScale]. *)
Definition quantStep (channel : Z) (i : nat) (qualityScale : Q) : Q :=
  (inject_Z (default 0%Z (quantTable channel !! i)) * qualityScale)%Q.

(** The chroma of one 2x2 block, averaged and written back to its four
    pixels; alpha is copied. *)
Definition subsampleBlock (ycbcrData : list Z) (width x y : Z)
    (subsampledData : list Z) : list Z :=
  let pos1 := (y * width + x) * 4 in
  let pos2 := (y * width + x + 1) * 4 in
  let pos3 := ((y + 1) * width + x) * 4 in
  let pos4 := ((y + 1) * width + x + 1) * 4 in
  let cb1 := JS.or_default (JS.get ycbcrData (pos1 + 1)) 128 in
  let cb2 := JS.or_default (JS.get ycbcrData (pos2 + 1)) 128 in
  let cb3 := JS.or_default (JS.get ycbcrData (pos3 + 1)) 128 in
  let cb4 := JS.or_default (JS.get ycbcrData (pos4 + 1)) 128 in
  let cr1 := JS.or_default (JS.get ycbcrData (pos1 + 2)) 128 in
  let cr2 := JS.or_default (JS.get ycbcrData (pos2 + 2)) 128 in
  let cr3 := JS.or_default (JS.get ycbcrData (pos3 + 2)) 128 in
  let cr4 := JS.or_default (JS.get ycbcrData (pos4 + 2)) 128 in
  (* Math.round(s / 4), halves rounded up *)
  let avgCb := (cb1 + cb2 + cb3 + cb4 + 2) / 4 in
  let avgCr := (cr1 + cr2 + cr3 + cr4 + 2) / 4 in
  let alpha p := to_uint8 (default 0 (JS.get ycbcrData (p + 3))) in
  let d1 := JS.set subsampledData (pos4 + 1) (to_uint8 avgCb) in
  let d2 := JS.set d1 (pos3 + 1) (to_uint8 avgCb) in
  let d3 := JS.set d2 (pos2 + 1) (to_uint8 avgCb) in
  let d4 := JS.set d3 (pos1 + 1) (to_uint8 avgCb) in
  let d5 := JS.set d4 (pos4 + 2) (to_uint8 avgCr) in
  let d6 := JS.set d5 (pos3 + 2) (to_uint8 avgCr) in
  let d7 := JS.set d6 (pos2 + 2) (to_uint8 avgCr) in
  let d8 := JS.set d7 (pos1 + 2) (to_uint8 avgCr) in
  let d9 := JS.set d8 (pos1 + 3) (alpha pos1) in
  let d10 := JS.set d9 (pos2 + 3) (alpha pos2) in
  let d11 := JS.set d10 (pos3 + 3) (alpha pos3) in
  JS.set d11 (pos4 + 3) (alpha pos4).

Definition applyChromaSubsampling (ycbcrData : list Z) (width height : Z)
    : list Z :=
  let subsampledData := replicate (length ycbcrData) 0 in
  (* Copy Y channel as-is *)
  let subsampledData :=
    foldl (fun out i => JS.set out i (to_uint8 (default 0 (JS.get ycbcrData i))))
          subsampledData (JS.range_step (Z.of_nat (length ycbcrData)) 4) in
  (* Subsample Cb and Cr channels *)
  foldl (fun out y =>
           foldl (fun out x => subsampleBlock ycbcrData width x y out)
                 out (JS.range_step width 2))
        subsampledData (JS.range_step height 2).

(** The 64 offsets of an 8x8 block, row by row. *)
Definition blockOffsets : list (Z * Z) :=
  y ← seqZ 0 8; x ← seqZ 0 8; [(y, x)].

Definition pixelIndex (width height startX startY channel y x : Z) : Z :=
  let pixelX := Z.min (startX + x) (width - 1) in
  let pixelY := Z.min (startY + y) (height - 1) in
  (pixelY * width + pixelX) * 4 + channel.

(** [extractBlock]: the samples of a block, centred around 128; a read
    outside the data gives [NaN], here [None]. *)
Definition extractBlock (data : list Z) (width height startX startY channel : Z)
    : list (option Z) :=
  (fun '(y, x) =>
     (fun v => v - 128) <$>
       JS.get data (pixelIndex width height startX startY channel y x))
    <$> blockOffsets.

(** [writeBlock]: the quantized block, re-centred and clamped, written
    over the block's pixels. *)
Definition writeBlock (data : list Z) (width height startX startY channel : Z)
    (quantizedBlock : list Z) : list Z :=
  foldl (fun data '(y, x) =>
           JS.set data (pixelIndex width height startX startY channel y x)
             (clamp255 (default 0 (JS.get quantizedBlock (y * 8 + x)) + 128)))
        data blockOffsets.

(** [encodeImageData]: the scan header, then Y, Cb, Cr of every pixel. *)
Definition encodeImageData (processedData : list Z) : list Z :=
  [0xFF; 0xDA; 0x00; 0x0C; 0x03; 0x01; 0x00; 0x02; 0x11; 0x03; 0x11;
   0x00; 0x3F; 0x00]
  ++ (i ← JS.range_step (Z.of_nat (length processedData)) 4;
      [default 0 (JS.get processedData i);
       default 0 (JS.get processedData (i + 1));
       default 0 (JS.get processedData (i + 2))]).

Definition encodeJPEG (processedData : list Z) (width height : Z) : list Z :=
  to_uint8 <$>
    ([0xFF; 0xD8]
     ++ [0xFF; 0xE0; 0x00; 0x10; 0x4A; 0x46; 0x49; 0x46; 0x00; 0x01; 0x01;
         0x01; 0x00; 0x48; 0x00; 0x48; 0x00; 0x00]
     ++ [0xFF; 0xC0; 0x00; 0x11; 0x08;
         Z.land (Z.shiftr height 8) 0xFF; Z.land height 0xFF;
         Z.land (Z.shiftr width 8) 0xFF; Z.land width 0xFF; 0x03]
     ++ [0x01; 0x11; 0x00; 0x02; 0x11; 0x01; 0x03; 0x11; 0x01]
     ++ encodeImageData processedData
     ++ [0xFF; 0xD9]).

(** What [compress] returns. *)
Record Compressed : Type := mkCompressed {
  c_data : list Z;
  c_size : Z;
  c_width : Z;
  c_height : Z;
  c_format : string;
  c_quality : Q
}.

Section Pipeline.

(** The canvas of the host: the pixels [getImageData] reads back after
    [createCanvas] has drawn the image, or [None] when the host throws. *)
Variable canvasPixels : ImageData -> option (list Z).

(** The calls of the engine.  [jpegData.push(...imageData)] in
    [encodeJPEG] passes the whole scan as the arguments of one call, and an
    engine throws a [RangeError] for more arguments than it can pass:
    [acceptsArguments n] tells whether a call with [n] arguments goes
    through. *)
Variable acceptsArguments : nat -> bool.

(** The floating-point kernels.  [ycc r g b] is the rounded BT.601 triple
    [(y, cb, cr)] of [convertRGBToYCbCr]; [F] is the type of the
    coefficients, [applyDCT] the block transform in [Float32] arithmetic,
    and [roundDiv c d] the [Int16] stored for [Math.round(c / d)]. *)
Variable ycc : Z -> option Z -> option Z -> Z * Z * Z.
Context {F : Type}.
Variable applyDCT : list (option Z) -> list F.
Variable roundDiv : F -> Q -> Z.

Definition convertRGBToYCbCr (rgbData : list Z) : list Z :=
  foldl (fun ycbcrData i =>
           let r := default 0 (JS.get rgbData i) in
           let '(y, cb, cr) := ycc r (JS.get rgbData (i + 1)) (JS.get rgbData (i + 2)) in
           let d := JS.set ycbcrData i (to_uint8 (clamp255 y)) in
           let d := JS.set d (i + 1) (to_uint8 (clamp255 cb)) in
           let d := JS.set d (i + 2) (to_uint8 (clamp255 cr)) in
           JS.set d (i + 3) (to_uint8 (default 0 (JS.get rgbData (i + 3)))))
        (replicate (length rgbData) 0)
        (JS.range_step (Z.of_nat (length rgbData)) 4).

Definition quantizeBlock (dctBlock : list F) (channel : Z) (qualityScale : Q)
    : list Z :=
  imap (fun i c => roundDiv c (quantStep channel i qualityScale)) dctBlock.

Definition performDCTQuantization (ycbcrData : list Z) (width height : Z)
    (quality : Q) : list Z :=
  let qualityScale := calculateQualityScale quality in
  foldl (fun processedData y =>
    foldl (fun processedData x =>
      foldl (fun processedData channel =>
               let block := extractBlock ycbcrData width height x y channel in
               let dctBlock := applyDCT block in
               let quantizedBlock := quantizeBlock dctBlock channel qualityScale in
               writeBlock processedData width height x y channel quantizedBlock)
            processedData [0; 1; 2])
      processedData (JS.range_step width 8))
    (replicate (length ycbcrData) 0) (JS.range_step height 8).

(** [compress]: whatever is thrown inside is rethrown as a
    [CompressionError].  Two steps can throw: the canvas of the host, and
    the call of [encodeJPEG] that spreads the scan into the arguments of
    [push]; the host is taken to have the memory for the arrays.  Nothing
    in it looks at the range of the quality or of the dimensions. *)
Definition compress (imageData : ImageData) (options : Options)
    : result Compressed :=
  match canvasPixels imageData with
  | None => Throw (ErrorHandler.CompressionError "jpeg")
  | Some pixels =>
      let ycbcrData := convertRGBToYCbCr pixels in
      let subsampledData :=
        if chromaSubsampling options
        then applyChromaSubsampling ycbcrData (width imageData) (height imageData)
        else ycbcrData in
      let compressedData :=
        performDCTQuantization subsampledData (width imageData)
          (height imageData) (qualityOrDefault (quality options)) in
      if acceptsArguments (length (encodeImageData compressedData)) then
        let jpegData :=
          encodeJPEG compressedData (width imageData) (height imageData) in
        Ok {| c_data := jpegData;
              c_size := Z.of_nat (length jpegData);
              c_width := width imageData;
              c_height := height imageData;
              c_format := "jpeg";
              c_quality := qualityOrDefault (quality options) |}
      else Throw (ErrorHandler.CompressionError "jpeg")
  end.

(** The byte size of what a call returned, if it returned. *)
Definition sizeOf (r : result Compressed) : option Z :=
  match r with
  | Ok c => Some (c_size c)
  | Throw _ => None
  end.

End Pipeline.

(** [options] with its quality replaced. *)
Definition withQuality (q : Q) (options : Options) : Options :=
  {| quality := Some q;
     progressive := progressive options;
     chromaSubsampling := chromaSubsampling options |}.

End JPEG.

(** *** The block transform, read over the real numbers

    [applyDCT] computes in floating point; this is the same expression
    over [R], with [Math.cos], [Math.PI] and [Math.sqrt] as [cos], [PI]
    and [sqrt]. *)

Module DCT.
Import Reals.
Local Open Scope R_scope.

Definition scale : R := 1 / 16.

(** [u === 0 ? 1 / Math.sqrt(2) : 1] *)
Definition cu (u : nat) : R := if Nat.eqb u 0 then 1 / sqrt 2 else 1.

(** [v === 0 ? 1 / Math.sqrt(2) : 1] *)
Definition cv (v : nat) : R := if Nat.eqb v 0 then 1 / sqrt 2 else 1.

(** [block[y * 8 + x]] *)
Definition pixel (block : list R) (x y : nat) : R :=
  nth (y * 8 + x)%nat block 0.

Definition cosX (x u : nat) : R :=
  cos (INR (2 * x + 1) * INR u * PI / 16).

Definition cosY (y v : nat) : R :=
  cos (INR (2 * y + 1) * INR v * PI / 16).

(** The double loop over [x] and [y] that accumulates [sum]. *)
Definition blockSum (block : list R) (u v : nat) : R :=
  foldl (fun sum x =>
           foldl (fun sum y => sum + pixel block x y * cosX x u * cosY y v)
                 sum (seq 0 8))
        0 (seq 0 8).

(** The value stored in [dctBlock[v * 8 + u]]. *)
Definition coefficient (block : list R) (u v : nat) : R :=
  blockSum block u v * cu u * cv v * scale.

Definition applyDCT (block : list R) : list R :=
  (fun i => coefficient block (i mod 8)%nat (i / 8)%nat) <$> seq 0 64.

(** The plain sum of the 64 samples of a block. *)
Definition sampleSum (block : list R) : R :=
  foldl (fun sum x => foldl (fun sum y => sum + pixel block x y) sum (seq 0 8))
        0 (seq 0 8).

End DCT.

(** ** core/CompressionEngine.js and core/Kompreser.js: validation and
       strategy selection *)

Module Engine.

(** The values an options object holds. *)
Inductive value : Type :=
| VUndefined
| VBool (b : bool)
| VNum (q : Q)
| VStr (s : string).

Definition truthy (v : value) : bool :=
  match v with
  | VUndefined => false
  | VBool b => b
  | VNum q => negb (Qeq_bool q 0)
  | VStr s => negb (bool_decide (s = ""%string))
  end.

(** [a || b] *)
Definition or (a b : value) : value := if truthy a then a else b.

(** An object is the finite map of its own properties; reading a property
    it does not have gives [undefined]. *)
Definition prop (o : gmap string value) (k : string) : value :=
  default VUndefined (o !! k).

(** What the engine is constructed with: [this.options]. *)
Record Config : Type := mkConfig {
  compressionLevel : value;
  compressionStrategy : option (gmap string value);
  memoryLimit : Z
}.

(** [this.strategies] *)
Definition strategies (this : Config) : gmap string (gmap string value) :=
  {[ "fast"%string :=
       {[ "quality"%string := VNum (7 # 10); "effort"%string := VNum 1;
          "progressive"%string := VBool false ]};
     "balanced"%string :=
       {[ "quality"%string := VNum (8 # 10); "effort"%string := VNum 4;
          "progressive"%string := VBool true ]};
     "maximum"%string :=
       {[ "quality"%string := VNum (9 # 10); "effort"%string := VNum 9;
          "progressive"%string := VBool true ]};
     "custom"%string := default ∅ (compressionStrategy this) ]}.

(** The properties every object inherits; looked up on [this.strategies]
    they are truthy and have no own enumerable property to spread. *)
Definition inheritedKeys : list string :=
  ["constructor"; "toString"; "toLocaleString"; "valueOf"; "hasOwnProperty";
   "isPrototypeOf"; "propertyIsEnumerable"; "__proto__"; "__defineGetter__";
   "__defineSetter__"; "__lookupGetter__"; "__lookupSetter__"]%string.

(** [this.strategies[level]] when it is truthy, as the properties a spread
    of it contributes.  Only a string can name one of the keys. *)
Definition strategyOf (this : Config) (level : value)
    : option (gmap string value) :=
  match level with
  | VStr s =>
      match strategies this !! s with
      | Some preset => Some preset
      | None => if bool_decide (s ∈ inheritedKeys) then Some ∅ else None
      end
  | _ => None
  end.

(** [selectStrategy]: in [{ name, ...preset, ...options }] a later
    property overrides an earlier one. *)
Definition selectStrategy (this : Config) (options : gmap string value)
    : gmap string value :=
  let level := or (prop options "compressionLevel") (compressionLevel this) in
  match strategyOf this level with
  | Some preset => options ∪ (preset ∪ {[ "name"%string := level ]})
  | None =>
      (* Custom strategy *)
      options ∪ (default ∅ (compressionStrategy this)
                 ∪ {[ "name"%string := VStr "custom" ]})
  end.

(** [validateInput]: the message of the check that fails, if one does.
    The image always has its [data]. *)
Definition validateInput (imageData : ImageData) : option string :=
  if (width imageData =? 0) || (height imageData =? 0) then
    Some "Image dimensions are required"%string
  else if (32767 <? width imageData) || (32767 <? height imageData) then
    Some "Image dimensions exceed maximum allowed (32767x32767)"%string
  else if (width imageData <? 1) || (height imageData <? 1) then
    Some "Image dimensions must be at least 1x1 pixels"%string
  else None.

Section Compress.

(** The steps of [compress] after validation and strategy selection:
    memory check, pre-processing, the codec chosen for the format and
    post-processing. *)
Context {A : Type}.
Variable encode : ImageData -> gmap string value -> result A.

(** [compress]: whatever is thrown inside, by the validation or later, is
    rethrown as a [CompressionError] for the algorithm ['auto']. *)
Definition compress (this : Config) (imageData : ImageData)
    (options : gmap string value) : result A :=
  match validateInput imageData with
  | Some _ => Throw (ErrorHandler.CompressionError "auto")
  | None =>
      match encode imageData (selectStrategy this options) with
      | Ok finalData => Ok finalData
      | Throw _ => Throw (ErrorHandler.CompressionError "auto")
      end
  end.

End Compress.

(** *** Kompreser.determineCompressionStrategy *)

(** What the method reads of the analysis and of the merged options. *)
Record Analysis : Type := mkAnalysis {
  hasTransparency : bool;
  isPhotograph : bool;
  isGraphic : bool;
  hasSharpEdges : bool
}.

(** [quality] is [None] when the property is not a number. *)
Record Preferences : Type := mkPreferences {
  p_quality : option Q;
  p_progressive : value;
  p_format : string;
  p_compressionLevel : string
}.

Record Strategy : Type := mkStrategy {
  s_algorithm : string;
  s_quality : option Q;
  s_progressive : value;
  s_format : option string
}.

Section Kompreser.

(** What the host's canvas can encode: [isFormatSupported]. *)
Variable isFormatSupported : string -> bool.

Definition selectOptimalFormat (analysis : Analysis) (options : Preferences)
    : string :=
  if isFormatSupported "webp" && hasTransparency analysis then "webp"
  else if isFormatSupported "avif"
          && match p_quality options with
             | Some q => negb (Qle_bool q (8 # 10))
             | None => false
             end then "avif"
  else if isPhotograph analysis && negb (hasTransparency analysis) then "jpeg"
  else if isGraphic analysis || hasSharpEdges analysis then "png"
  else "jpeg".

Definition determineCompressionStrategy (imageData : ImageData)
    (analysis : Analysis) (options : Preferences) : Strategy :=
  {| s_algorithm := "auto";
     s_quality :=
       if bool_decide (p_compressionLevel options = "maximum"%string) then
         (fun q => Qmax (6 # 10) (q - (1 # 10))%Q) <$> p_quality options
       else if bool_decide (p_compressionLevel options = "fast"%string) then
         (fun q => Qmin (9 # 10) (q + (1 # 10))%Q) <$> p_quality options
       else p_quality options;
     s_progressive :=
       if 1000000 <? width imageData * height imageData then VBool true
       else p_progressive options;
     s_format :=
       if bool_decide (p_format options = "auto"%string)
       then Some (selectOptimalFormat analysis options) else None |}.

End Kompreser.

End Engine.

(** ** algorithms/PNGCompression.js *)

Module PNG.

Definition FILTER_NONE : Z := 0.
Definition FILTER_SUB : Z := 1.
Definition FILTER_UP : Z := 2.
Definition FILTER_AVERAGE : Z := 3.
Definition FILTER_PAETH : Z := 4.

(** [(current - x) & 0xFF]; with [x] undefined the difference is [NaN]
    and the conjunction is 0. *)
Definition diffByte (current : Z) (x : option Z) : Z :=
  match x with
  | Some v => Z.land (current - v) 0xFF
  | None => 0
  end.

(** [paethPredictor]: with an undefined operand every comparison is
    false and the last branch returns [upLeft]. *)
Definition paethPredictor (left up upLeft : option Z) : option Z :=
  match left, up, upLeft with
  | Some l, Some u, Some ul =>
      let p := l + u - ul in
      let pLeft := Z.abs (p - l) in
      let pUp := Z.abs (p - u) in
      let pUpLeft := Z.abs (p - ul) in
      if (pLeft <=? pUp) && (pLeft <=? pUpLeft) then Some l
      else if pUp <=? pUpLeft then Some u
      else Some ul
  | _, _, _ => upLeft
  end.

Definition applyFilterPixel (data : list Z) (width height row col filter : Z)
    : Z :=
  let rowStart := row * width * 4 in
  let current := JS.or_default (JS.get data (rowStart + col)) 0 in
  let left := if 4 <=? col then JS.get data (rowStart + col - 4) else Some 0 in
  let upRow := if 0 <? row then (row - 1) * width * 4 else -1 in
  let up := if 0 <=? upRow then JS.get data (upRow + col) else Some 0 in
  let upLeftRow := if (0 <? row) && (4 <=? col)
                   then (row - 1) * width * 4 else -1 in
  let upLeft := if 0 <=? upLeftRow
                then JS.get data (upLeftRow + col - 4) else Some 0 in
  if filter =? FILTER_NONE then current
  else if filter =? FILTER_SUB then diffByte current left
  else if filter =? FILTER_UP then diffByte current up
  else if filter =? FILTER_AVERAGE then
    (* Math.floor((leftAvg + upAvg) / 2) *)
    diffByte current (l ← left; u ← up; Some ((l + u) / 2))
  else if filter =? FILTER_PAETH then
    diffByte current (paethPredictor left up upLeft)
  else current.

(** [calculateFilterScore]: the sum of [Math.abs(filtered)] over the
    [width * 4] bytes of the row. *)
Definition calculateFilterScore (data : list Z) (width height row filter : Z)
    : Z :=
  foldl (fun sum x =>
           sum + Z.abs (applyFilterPixel data width height row x filter))
        0 (seqZ 0 (width * 4)).

Definition filters : list Z :=
  [FILTER_NONE; FILTER_SUB; FILTER_UP; FILTER_AVERAGE; FILTER_PAETH].

(** [score < bestScore], where [bestScore] starts as [Infinity]. *)
Definition better (score : Z) (bestScore : option Z) : bool :=
  match bestScore with
  | Some b => score <? b
  | None => true
  end.

(** The loop of [selectFilter] over the candidates. *)
Definition bestOf (score : Z -> Z) (candidates : list Z) : Z * option Z :=
  foldl (fun '(bestFilter, bestScore) filter =>
           if better (score filter) bestScore
           then (filter, Some (score filter))
           else (bestFilter, bestScore))
        (FILTER_NONE, None) candidates.

(** [selectFilter].  The table [this.FILTER_TYPES] that a filter type
    other than ['auto'] is looked up in is never defined, so that lookup
    throws: [None]. *)
Definition selectFilter (data : list Z) (width height row : Z)
    (filterType : string) : option Z :=
  if bool_decide (filterType = "auto"%string) then
    Some (bestOf (calculateFilterScore data width height row) filters).1
  else None.

(** A pixel of [quantize]: [[r, g, b]]. *)
Definition pixel : Type := Z * Z * Z.

(** [a[channel]] *)
Definition component (channel : Z) (a : pixel) : Z :=
  let '(r, g, b) := a in
  if channel =? 0 then r else if channel =? 1 then g else b.

(** The channel with the largest range. *)
Definition widestChannel (pixels : list pixel) : Z :=
  let '(minR, maxR, minG, maxG, minB, maxB) :=
    foldl (fun '(minR, maxR, minG, maxG, minB, maxB) '(r, g, b) =>
             (Z.min minR r, Z.max maxR r, Z.min minG g, Z.max maxG g,
              Z.min minB b, Z.max maxB b))
          (255, 0, 255, 0, 255, 0) pixels in
  let rangeR := maxR - minR in
  let rangeG := maxG - minG in
  let rangeB := maxB - minB in
  if (rangeG <=? rangeR) && (rangeB <=? rangeR) then 0
  else if rangeB <=? rangeG then 1 else 2.

(** [pixels.sort((a, b) => a[channel] - b[channel])] *)
Definition channelLe (channel : Z) (a b : pixel) : Prop :=
  component channel a <= component channel b.

#[local] Instance channelLe_dec channel : RelDecision (channelLe channel).
Proof. intros a b. unfold channelLe. apply _. Defined.

Definition sortBy (channel : Z) (pixels : list pixel) : list pixel :=
  merge_sort (channelLe channel) pixels.

(** [medianCut].  The recursion of the source has no measure that
    decreases, so the embedding counts the depth of the calls it may
    still make: [None] when [fuel] calls do not suffice. *)
Fixpoint medianCut (fuel : nat) (pixels : list pixel) (maxColors : Z)
    : option (list pixel) :=
  match fuel with
  | O => None
  | S fuel =>
      if Z.of_nat (length pixels) <=? maxColors then Some pixels
      else
        let channel := widestChannel pixels in
        let sorted := sortBy channel pixels in
        (* Split at median *)
        let median := (length sorted / 2)%nat in
        let left := take median sorted in
        let right := drop median sorted in
        (* Recursively split *)
        leftColors ← medianCut fuel left (maxColors / 2);
        rightColors ← medianCut fuel right ((maxColors + 1) / 2);
        Some (leftColors ++ rightColors)
  end.

End PNG.

(** ** utils/ImageAnalyzer.js *)

Module Analyzer.

(** What [analyzePixels] counts.  The statistics it computes in floating
    point (variance, entropy, distribution) are not part of the record;
    none of them can throw. *)
Record PixelAnalysis : Type := mkPixelAnalysis {
  hasAlpha : bool;
  isGrayscale : bool;
  hasColor : bool;
  uniqueColors : gset (option Z * option Z * option Z);
  alphaPixels : Z
}.

(** [Math.round(v / 8)], halves rounded up; [NaN] for [undefined]. *)
Definition bucket (v : option Z) : option Z := (fun v => (v + 4) / 8) <$> v.

(** [a < 255]; false for [undefined]. *)
Definition below255 (a : option Z) : bool :=
  match a with
  | Some a => a <? 255
  | None => false
  end.

(** One turn of the loop over the pixels, at offset [i]. *)
Definition analyzePixel (data : list Z) (analysis : PixelAnalysis) (i : Z)
    : PixelAnalysis :=
  let r := JS.get data i in
  let g := JS.get data (i + 1) in
  let b := JS.get data (i + 2) in
  let a := JS.get data (i + 3) in
  let colored := negb (bool_decide (r = g)) || negb (bool_decide (g = b)) in
  {| hasAlpha := if below255 a then true else hasAlpha analysis;
     isGrayscale := if colored then false else isGrayscale analysis;
     hasColor := if colored then true else hasColor analysis;
     uniqueColors := {[ (bucket r, bucket g, bucket b) ]} ∪ uniqueColors analysis;
     alphaPixels := if below255 a then alphaPixels analysis + 1
                    else alphaPixels analysis |}.

Definition analyzePixels (imageData : ImageData) : PixelAnalysis :=
  foldl (analyzePixel (data imageData))
        {| hasAlpha := false; isGrayscale := true; hasColor := false;
           uniqueColors := ∅; alphaPixels := 0 |}
        (JS.range_step (Z.of_nat (length (data imageData))) 4).

Record Analysis : Type := mkAnalysis {
  a_width : Z;
  a_height : Z;
  pixelCount : Z;
  pixels : PixelAnalysis;
  uniqueColorCount : Z
}.

(** [analyze].  Its [try] block holds no check of the buffer and no
    statement that throws for an image that has its [data]: a read
    outside the array is [undefined], and arithmetic on it is [NaN]. *)
Definition analyze (imageData : ImageData) : result Analysis :=
  let pixelAnalysis := analyzePixels imageData in
  Ok {| a_width := width imageData;
        a_height := height imageData;
        pixelCount := width imageData * height imageData;
        pixels := pixelAnalysis;
        uniqueColorCount := Z.of_nat (size (uniqueColors pixelAnalysis)) |}.

End Analyzer.

(** ** core/CompressionEngine.js, class WorkerPool *)

Module WorkerPool.

Record WorkerInfo : Type := mkWorker {
  id : Z;
  busy : bool;
  tasksCompleted : Z
}.

Section Pool.
(** Task ids and the data of a task. *)
Context {K D : Type} `{EqDecision K}.

(** The pool; [posted] and [settled] record, latest last, the messages
    posted to workers (worker id, task id) and the promises resolved or
    rejected (task id, whether an error was reported). *)
Record t : Type := mk {
  workers : list WorkerInfo;
  taskQueue : list (K * D);
  activeTasks : list (K * (K * D));
  posted : list (Z * K);
  settled : list (K * bool)
}.

(** A pool whose workers are all created and idle. *)
Definition ready (ids : list Z) : t :=
  {| workers := (fun i => {| id := i; busy := false; tasksCompleted := 0 |})
                  <$> ids;
     taskQueue := []; activeTasks := []; posted := []; settled := [] |}.

(** The index of [workers.find(w => !w.busy)]. *)
Fixpoint findAvailable (ws : list WorkerInfo) : option nat :=
  match ws with
  | [] => None
  | w :: ws' => if busy w then S <$> findAvailable ws' else Some 0%nat
  end.

Definition setBusy (b : bool) (w : WorkerInfo) : WorkerInfo :=
  {| id := id w; busy := b; tasksCompleted := tasksCompleted w |}.

Definition processQueue (p : t) : t :=
  match taskQueue p with
  | [] => p
  | task :: rest =>
      match findAvailable (workers p) with
      | None => p
      | Some i =>
          {| workers := alter (setBusy true) i (workers p);
             taskQueue := rest;
             activeTasks := OMap.set task.1 task (activeTasks p);
             posted := posted p
                       ++ [(default 0 (id <$> workers p !! i), task.1)];
             settled := settled p |}
      end
  end.

(** [process(data)], with the id the task is given. *)
Definition process (taskId : K) (data : D) (p : t) : t :=
  processQueue
    {| workers := workers p;
       taskQueue := taskQueue p ++ [(taskId, data)];
       activeTasks := activeTasks p;
       posted := posted p;
       settled := settled p |}.

(** [handleWorkerMessage(workerInfo, { id, result, error })] for the
    worker at index [w] of [workers]. *)
Definition handleWorkerMessage (w : nat) (taskId : K) (error : bool) (p : t)
    : t :=
  match OMap.get taskId (activeTasks p) with
  | Some task =>
      processQueue
        {| workers :=
             alter (fun wi => {| id := id wi; busy := false;
                                 tasksCompleted := tasksCompleted wi + 1 |})
                   w (workers p);
           taskQueue := taskQueue p;
           activeTasks := OMap.delete taskId (activeTasks p);
           posted := posted p;
           settled := settled p ++ [(taskId, error)] |}
  | None => p
  end.

Inductive event : Type :=
| Process (taskId : K) (data : D)
| Message (w : nat) (taskId : K) (error : bool).

Definition step (p : t) (e : event) : t :=
  match e with
  | Process taskId data => process taskId data p
  | Message w taskId error => handleWorkerMessage w taskId error p
  end.

Definition run (events : list event) (p : t) : t := foldl step p events.

(** The ids of the tasks submitted by [process], in order. *)
Definition submitted (events : list event) : list K :=
  events ≫= fun e => match e with
                     | Process taskId _ => [taskId]
                     | Message _ _ _ => []
                     end.

Definition busyCount (p : t) : nat :=
  length (filter (fun w => busy w = true) (workers p)).

(** What the pool keeps true; [ids] are the submitted tasks. *)
Definition Inv (n : nat) (ids : list K) (p : t) : Prop :=
  length (workers p) = n /\
  (length (activeTasks p) <= busyCount p)%nat /\
  (taskQueue p = [] \/ busyCount p = n) /\
  (posted p).*2 ++ (taskQueue p).*1 = ids.

End Pool.
Arguments t K D : clear implicits.
Arguments event K D : clear implicits.

End WorkerPool.

(** ** core/ErrorHandler.js: severity, logging and [handleError] *)

Module ErrorPolicy.
Import ErrorHandler.

Definition severityMap : list (string * string) :=
  [("VALIDATION_ERROR", "HIGH"); ("FORMAT_ERROR", "HIGH");
   ("COMPRESSION_ERROR", "MEDIUM"); ("MEMORY_ERROR", "HIGH");
   ("WORKER_ERROR", "MEDIUM"); ("TIMEOUT_ERROR", "MEDIUM");
   ("UNSUPPORTED_ERROR", "HIGH"); ("METADATA_ERROR", "LOW");
   ("PERFORMANCE_ERROR", "LOW")]%string.

(** [severityMap[code] || 'MEDIUM']; [None] when the code names a
    property every object inherits, and the severity is no string. *)
Definition getSeverity (code : string) : option string :=
  match OMap.get code severityMap with
  | Some severity => Some severity
  | None =>
      if bool_decide (code ∈ Engine.inheritedKeys) then None
      else Some "MEDIUM"%string
  end.

(** [error.severity], fixed by the constructor. *)
Definition severity (e : KompreserError) : option string :=
  getSeverity (code e).

Definition levels : list (string * Z) :=
  [("DEBUG", 0); ("INFO", 1); ("WARN", 2); ("ERROR", 3); ("FATAL", 4)]%string.

(** [levels[severity] || 1]; the level 0 of 'DEBUG' is falsy.  [None]
    when the result is no number. *)
Definition getLogLevel (severity : option string) : option Z :=
  match severity with
  | Some s =>
      match OMap.get s levels with
      | Some level => Some (if level =? 0 then 1 else level)
      | None => if bool_decide (s ∈ Engine.inheritedKeys) then None else Some 1
      end
  | None => Some 1
  end.

(** [logError]: the method of [console] the message goes to, if the
    error is logged at all under the configured [logLevel]. *)
Definition logError (logLevel : string) (e : KompreserError) : option string :=
  match getLogLevel (severity e), getLogLevel (Some logLevel) with
  | Some level, Some currentLogLevel =>
      if currentLogLevel <=? level then
        Some (match severity e with
              | Some "HIGH" => "error"
              | Some "MEDIUM" => "warn"
              | Some "LOW" => "info"
              | _ => "log"
              end)%string
      else None
  | _, _ => None
  end.

(** What [handleError] answers. *)
Inductive Outcome : Type :=
| Recovered
| Retry (attempt : Z)
| GaveUp.

Section Handle.
(** Whether the recovery strategy registered for the error succeeds; it
    acts on the caches, workers and engine of the context. *)
Variable recovers : KompreserError -> bool.

Definition handleError (h : Handler) (e : KompreserError) : Handler * Outcome :=
  (* Track error frequency *)
  let h := trackError h e in
  (* Attempt recovery if enabled *)
  if enableRecovery (options h) && recovers e then (h, Recovered)
  else
    (* Check if we should retry the operation *)
    let decision := shouldRetry h e in
    if shouldRetry_flag decision
    then (h, Retry (default 0 (attempt decision)))
    else (h, GaveUp).

(** The handler after the errors of a list were handled, first first. *)
Definition handleAll (h : Handler) (es : list KompreserError) : Handler :=
  foldl (fun h e => (handleError h e).1) h es.

End Handle.

(** How many errors of a list carry a code. *)
Definition occurrences (c : string) (es : list KompreserError) : Z :=
  Z.of_nat (length (filter (fun e => code e = c) es)).

(** [getErrorStats().totalErrors]: the sum of the counts. *)
Definition totalErrors (h : Handler) : Z :=
  map_fold (fun _ count sum => sum + count) 0 (errorCounts h).

End ErrorPolicy.

(** ** core/CompressionEngine.js: compression statistics *)

Module EngineStats.

(** The statistics of the engine.  A total of bytes is [None] once it is
    [NaN]; [averageCompressionRatio] is [None] once it is no finite
    number: a total is [NaN], or the quotient is by a zero
    [totalBytesBefore].  The durations are whatever the timer returns. *)
Record CompressionStats (D : Type) : Type := mkStats {
  totalProcessed : Z;
  totalBytesBefore : option Z;
  totalBytesAfter : option Z;
  averageCompressionRatio : option Q;
  processingTimes : list D
}.
Arguments mkStats {D}.
Arguments totalProcessed {D}.
Arguments totalBytesBefore {D}.
Arguments totalBytesAfter {D}.
Arguments averageCompressionRatio {D}.
Arguments processingTimes {D}.

(** What [updateCompressionStats] reads of the image it is given:
    [original.data?.length] and [original.size], each [None] when it is
    [undefined]. *)
Record Original : Type := mkOriginal {
  dataLength : option Z;
  originalSize : option Z
}.

(** [original.data?.length || original.size]: a length that is
    [undefined] or 0 is falsy, and the size, [undefined] or not, is taken
    in its place. *)
Definition inputBytes (original : Original) : option Z :=
  match dataLength original with
  | Some n => if n =? 0 then originalSize original else Some n
  | None => originalSize original
  end.

(** [total += x]: [NaN] once the total is [NaN] or [x] is [undefined]. *)
Definition addBytes (total x : option Z) : option Z :=
  t ← total; v ← x; Some (t + v).

(** [resetStats], also the state after construction. *)
Definition resetStats {D : Type} : CompressionStats D :=
  {| totalProcessed := 0; totalBytesBefore := Some 0; totalBytesAfter := Some 0;
     averageCompressionRatio := Some 0%Q; processingTimes := [] |}.

(** [updateCompressionStats], on the image, on [compressed.size] and on
    the duration. *)
Definition updateCompressionStats {D : Type} (stats : CompressionStats D)
    (original : Original) (compressedSize : option Z) (duration : D)
    : CompressionStats D :=
  let before := addBytes (totalBytesBefore stats) (inputBytes original) in
  let after := addBytes (totalBytesAfter stats) compressedSize in
  let times := processingTimes stats ++ [duration] in
  {| totalProcessed := totalProcessed stats + 1;
     totalBytesBefore := before;
     totalBytesAfter := after;
     averageCompressionRatio :=
       match before, after with
       | Some before, Some after =>
           if before =? 0 then None
           else Some (1 - inject_Z after / inject_Z before)%Q
       | _, _ => None
       end;
     (* Keep only last 100 processing times *)
     processingTimes := if (100 <? Z.of_nat (length times))
                        then drop 1 times else times |}.

(** The statistics after a list of compressions
    [(original, compressed.size, duration)]. *)
Definition record {D : Type} (jobs : list (Original * option Z * D))
    : CompressionStats D :=
  foldl (fun stats '(original, compressedSize, duration) =>
           updateCompressionStats stats original compressedSize duration)
        resetStats jobs.

End EngineStats.

(** * PNGCompression.js: filtering, run lengths, chunks, palette lookup *)

Module PNGCodec.
Import PNG.

(** [options.filter || 'auto']: an absent filter and the empty string
    are both falsy. *)
Definition filterTypeOf (filter : option string) : string :=
  match filter with
  | Some s => if bool_decide (s = EmptyString) then "auto"%string else s
  | None => "auto"%string
  end.

(** [applyFilter]: the filtered bytes of one row.  [new Uint8Array(n)]
    throws a [RangeError] for a negative [n]: [None]. *)
Definition applyFilter (data : list Z) (width height row filter : Z)
    : option (list Z) :=
  if width * 4 <? 0 then None
  else Some ((fun x => JPEG.to_uint8
                         (applyFilterPixel data width height row x filter))
               <$> seqZ 0 (width * 4)).

(** [filteredData[rowIndex++] = v] for each byte of a row. *)
Definition writeRow (filteredData : list Z) (rowIndex : Z)
    (filteredRow : list Z) : list Z * Z :=
  foldl (fun '(filteredData, rowIndex) v =>
           (JS.set filteredData rowIndex v, rowIndex + 1))
        (filteredData, rowIndex) filteredRow.

(** One turn of the loop of [applyFiltering] over the rows; the state
    is [(filteredData, rowIndex)], or [None] once a call has thrown. *)
Definition filterRow (imageData : ImageData) (filterType : string)
    (state : option (list Z * Z)) (y : Z) : option (list Z * Z) :=
  '(filteredData, rowIndex) ← state;
  filter ← selectFilter (data imageData) (width imageData)
              (height imageData) y filterType;
  let filteredData := JS.set filteredData rowIndex (JPEG.to_uint8 filter) in
  filteredRow ← applyFilter (data imageData) (width imageData)
                   (height imageData) y filter;
  Some (writeRow filteredData (rowIndex + 1) filteredRow).

(** [applyFiltering]: for each row the filter type, then the filtered
    bytes of the row.  [None] when a call inside throws. *)
Definition applyFiltering (imageData : ImageData) (filter : option string)
    : option (list Z) :=
  let filterType := filterTypeOf filter in
  let size := Z.of_nat (length (data imageData)) + height imageData in
  if size <? 0 then None
  else
    fst <$> foldl (filterRow imageData filterType)
                  (Some (replicate (Z.to_nat size) 0, 0))
                  (seqZ 0 (height imageData)).

(** One turn of the loop of [deflateWithJS] on [data[i]]; the state is
    [(compressed, current, count)]. *)
Definition deflateStep (state : list Z * Z * Z) (x : Z) : list Z * Z * Z :=
  let '(compressed, current, count) := state in
  if (x =? current) && (count <? 255) then (compressed, current, count + 1)
  else (compressed ++ [count; current], x, 1).

(** [deflateWithJS]: run lengths as pairs [count, value].  The loop
    starts at index 1 with [current = 0] and [count = 1]. *)
Definition deflateWithJS (data : list Z) : list Z :=
  let '(compressed, current, count) :=
    foldl deflateStep ([], 0, 1) (drop 1 data) in
  JPEG.to_uint8 <$> (compressed ++ [count; current]).

(** [deflateCompress]: [deflateWithWASM] returns its argument, and is
    used when WebAssembly is enabled and present. *)
Definition deflateCompress (useWASM : bool) (data : list Z) : list Z :=
  if useWASM then data else deflateWithJS data.

(** What a reader of run lengths makes of the pairs [count, value]; the
    repository has no decoder, this one states what the pairs stand
    for. *)
Fixpoint expandRuns (compressed : list Z) : list Z :=
  match compressed with
  | count :: value :: rest =>
      replicate (Z.to_nat count) value ++ expandRuns rest
  | _ => []
  end.

(** [view.setUint32(offset, v, false)]: the four bytes of [v] modulo
    [2^32], high byte first. *)
Definition setUint32 (v : Z) : list Z :=
  [Z.land (Z.shiftr v 24) 0xFF; Z.land (Z.shiftr v 16) 0xFF;
   Z.land (Z.shiftr v 8) 0xFF; Z.land v 0xFF].

(** The constant every chunk carries in place of a CRC. *)
Definition crcPlaceholder : list Z := setUint32 0x12345678.

Definition signature : list Z := [137; 80; 78; 71; 13; 10; 26; 10].

Definition createIHDRChunk (width height colorType : Z) : list Z :=
  setUint32 13 ++ [0x49; 0x48; 0x44; 0x52]
  ++ setUint32 width ++ setUint32 height
  ++ [8; JPEG.to_uint8 colorType; 0; 0; 0]
  ++ crcPlaceholder.

(** [scaled] is [Math.round(gamma * 100000)]. *)
Definition createGAMAChunk (scaled : Z) : list Z :=
  setUint32 4 ++ [0x67; 0x41; 0x4D; 0x41] ++ setUint32 scaled
  ++ crcPlaceholder.

Definition createIDATChunk (compressedData : list Z) : list Z :=
  setUint32 (Z.of_nat (length compressedData)) ++ [0x49; 0x44; 0x41; 0x54]
  ++ (JPEG.to_uint8 <$> compressedData)
  ++ crcPlaceholder.

Definition createIENDChunk : list Z :=
  setUint32 0 ++ [0x49; 0x45; 0x4E; 0x44] ++ crcPlaceholder.

(** [createPNGStructure]; [gamma] is [Some scaled] when [options.gamma]
    is truthy. *)
Definition createPNGStructure (compressedData : list Z)
    (width height colorType : Z) (gamma : option Z) : list Z :=
  signature
  ++ createIHDRChunk width height colorType
  ++ match gamma with
     | Some scaled => createGAMAChunk scaled
     | None => []
     end
  ++ createIDATChunk compressedData
  ++ createIENDChunk.

End PNGCodec.

(** * Loops that do not start at 0, and numbers that may be NaN *)

Module JSNum.

(** The values of [for (let v = start; v < n; v += step)]. *)
Definition range_from (start n step : Z) : list Z :=
  (fun k => start + step * k) <$> seqZ 0 ((n - start + step - 1) / step).

(** A JavaScript number: [NaN], an infinity, or a rational. *)
Inductive number : Type :=
  | NaN
  | PosInf
  | NegInf
  | Fin (q : Q).

(** [a > b] for a rational [b]; false for [NaN]. *)
Definition gt (a : number) (b : Q) : bool :=
  match a with
  | NaN => false
  | PosInf => true
  | NegInf => false
  | Fin q => negb (Qle_bool q b)
  end.

(** [a + undefined] *)
Definition plusUndefined (a : number) : number := NaN.

(** [a / n] for an integer [n].  The quotient of two finite numbers is
    the exact one; the host rounds it, which changes nothing for the
    dividend 0. *)
Definition divide (a : number) (n : Z) : number :=
  match a with
  | NaN => NaN
  | PosInf => if n <? 0 then NegInf else PosInf
  | NegInf => if n <? 0 then PosInf else NegInf
  | Fin q =>
      if n =? 0 then
        if Qeq_bool q 0 then NaN
        else if Qle_bool q 0 then NegInf else PosInf
      else Fin (q / inject_Z n)
  end.

(** [a < b]; false when one of the two is [NaN]. *)
Definition lt (a b : number) : bool :=
  match a with
  | NaN => false
  | PosInf => false
  | NegInf =>
      match b with
      | PosInf | Fin _ => true
      | NaN | NegInf => false
      end
  | Fin p =>
      match b with
      | PosInf => true
      | Fin q => negb (Qle_bool q p)
      | NaN | NegInf => false
      end
  end.

End JSNum.

(** * PNGCompression.js: the palette lookup of [quantize] *)

Module PNGPalette.
Import PNG.

Section Palette.

(** The number that
    [Math.sqrt(Math.pow(color[0] - paletteColor[0], 2) + ...)] gives for
    two colours, in the floating-point arithmetic of the host. *)
Variable distance : pixel -> pixel -> JSNum.number.

(** [findClosestColor]: [minDistance] starts as [Infinity]. *)
Definition findClosestColor (color : pixel) (palette : list pixel) : nat :=
  snd (foldl (fun '(minDistance, closestIndex) '(i, paletteColor) =>
                let distance := distance color paletteColor in
                if JSNum.lt distance minDistance
                then (distance, i)
                else (minDistance, closestIndex))
             (JSNum.PosInf, 0%nat) (imap pair palette)).

End Palette.

(** The yardstick of the statements about [findClosestColor], not a
    function of the source: the exact square of the Euclidean distance of
    two colours. *)
Definition squaredDistance (color paletteColor : pixel) : Z :=
  let '(r, g, b) := color in
  let '(pr, pg, pb) := paletteColor in
  (r - pr) ^ 2 + (g - pg) ^ 2 + (b - pb) ^ 2.

(** A colour read from the bytes of an image. *)
Definition byteColor (color : pixel) : Prop :=
  let '(r, g, b) := color in
  0 <= r <= 255 /\ 0 <= g <= 255 /\ 0 <= b <= 255.

End PNGPalette.

(** * ImageAnalyzer.js: content classification and recommendations *)

Module AnalyzerContent.
Import JSNum.

(** The blocks [analyzeContent] visits: [(x, y)] from 1 in steps of 8
    below [width - 1] and [height - 1]. *)
Definition blockStarts (imageData : ImageData) : list (Z * Z) :=
  y ← range_from 1 (height imageData - 1) 8;
  x ← range_from 1 (width imageData - 1) 8;
  [(x, y)].

(** [totalVariance] at the end of the loop of [analyzeContent].  Each
    turn adds [blockAnalysis.variance]; the object [analyzeBlock] returns
    has the properties [edgePixels], [totalVariance], [noiseSum] and
    [edgeCount] and no property [variance], so each turn adds
    [undefined]. *)
Definition totalVariance (imageData : ImageData) : number :=
  foldl (fun totalVariance _ => plusUndefined totalVariance)
        (Fin 0) (blockStarts imageData).

(** [analysis.complexity = totalVariance / (width * height)] *)
Definition complexity (imageData : ImageData) : number :=
  divide (totalVariance imageData) (width imageData * height imageData).

(** What [generateRecommendations] reads of the merged analysis to
    choose the format and the quality. *)
Record Merged : Type := mkMerged {
  m_hasAlpha : bool;
  m_isPhotograph : bool;
  m_isGraphic : bool;
  m_qualityScore : number
}.

Record Recommendations : Type := mkRecommendations {
  recommendedFormat : string;
  recommendedQuality : Q
}.

Definition generateRecommendations (analysis : Merged) : Recommendations :=
  {| recommendedFormat :=
       if m_hasAlpha analysis then "webp"
       else if m_isPhotograph analysis && gt (m_qualityScore analysis) 70
       then "avif"
       else if m_isGraphic analysis then "png"
       else "jpeg";
     recommendedQuality :=
       if gt (m_qualityScore analysis) 80 then 9 # 10
       else if gt (m_qualityScore analysis) 60 then 8 # 10
       else if gt (m_qualityScore analysis) 40 then 7 # 10
       else 6 # 10 |}.

Section Analyze.

(** The quality score of [analyzeQuality], computed in floating point
    from the blur and the noise of the image. *)
Variable qualityScore : ImageData -> number.

(** The analysis [analyze] hands to [generateRecommendations]: the
    alpha flag of [analyzePixels], the classification of
    [analyzeContent] ([complexity > 1000] makes a photograph, anything
    else a graphic) and the score of [analyzeQuality]. *)
Definition merged (imageData : ImageData) : Merged :=
  let photograph := gt (complexity imageData) 1000 in
  {| m_hasAlpha := Analyzer.hasAlpha (Analyzer.analyzePixels imageData);
     m_isPhotograph := photograph;
     m_isGraphic := negb photograph;
     m_qualityScore := qualityScore imageData |}.

Definition recommend (imageData : ImageData) : Recommendations :=
  generateRecommendations (merged imageData).

End Analyze.

End AnalyzerContent.

(** * FileValidator.js *)

Module FileValidator.

Definition signatures : list (string * list Z) :=
  [("image/jpeg"%string, [0xFF; 0xD8]);
   ("image/png"%string, [0x89; 0x50; 0x4E; 0x47]);
   ("image/gif"%string, [0x47; 0x49; 0x46]);
   ("image/webp"%string, [0x52; 0x49; 0x46; 0x46]);
   ("image/bmp"%string, [0x42; 0x4D]);
   ("image/tiff"%string, [0x49; 0x49; 0x2A; 0x00])].

Definition compareSignatures (data signature : list Z) : bool :=
  if (length data <? length signature)%nat then false
  else forallb (fun i => bool_decide (data !! i = signature !! i))
               (seq 0 (length signature)).

(** [detectFileSignature]: the first format of the table whose
    signature the data start with; [None] is [null]. *)
Definition detectFileSignature (data : list Z) : option string :=
  fst <$> List.find (fun entry => compareSignatures data (snd entry))
                    signatures.

(** [fileSignature && !fileSignature.startsWith('image/')]: whether
    [performSecurityChecks] reports a non-image signature for the first
    16 bytes of a file. *)
Definition reportsNonImage (file : list Z) : bool :=
  match detectFileSignature (take 16 file) with
  | Some format => negb (String.prefix "image/" format)
  | None => false
  end.

(** [checkAlphaChannel] *)
Definition checkAlphaChannel (data : list Z) : bool :=
  existsb (fun i => Analyzer.below255 (JS.get data i))
          (JSNum.range_from 3 (Z.of_nat (length data)) 4).

(** The errors [validateImageData] pushes, in order; what it and the
    checks it calls push besides are warnings. *)
Definition validateImageData_errors (imageData : ImageData) : list string :=
  (if (width imageData <=? 0) || (height imageData <=? 0)
   then ["Image dimensions must be positive"%string] else [])
  ++ (if (32767 <? width imageData) || (32767 <? height imageData)
      then ["Image dimensions exceed maximum supported size (32767x32767)"%string]
      else [])
  ++ (if (length (data imageData) =? 0)%nat
      then ["Image data is empty"%string] else []).

(** Whether [validateImageData] pushes the warning that the data size
    does not match the dimensions. *)
Definition warnsSizeMismatch (imageData : ImageData) : bool :=
  negb (Z.of_nat (length (data imageData))
        =? width imageData * height imageData * 4).

(** [validation.valid] after [validateInput] on an [ImageData]. *)
Definition valid (imageData : ImageData) : bool :=
  (length (validateImageData_errors imageData) =? 0)%nat.

End FileValidator.

(** * ProgressiveCompression.js: scans and interlacing *)

Module Progressive.
Import JSNum.

(** [options.scans || 3] *)
Definition scansOf (scans : option Z) : Z :=
  match scans with
  | Some s => if s =? 0 then 3 else s
  | None => 3
  end.

Definition spectralStart (scan totalScans : Z) : Z :=
  if scan =? 0 then 0 else 64 / totalScans * scan.

Definition spectralEnd (scan totalScans : Z) : Z :=
  if scan =? totalScans - 1 then 63 else 64 / totalScans * (scan + 1) - 1.

(** [createSOSMarker], for a number of scans that is not 0. *)
Definition createSOSMarker (scan totalScans : Z) : list Z :=
  [0xFF; 0xDA; 0x00; 0x0C; 0x03; 0x01; 0x00; 0x02; 0x11; 0x03; 0x11;
   spectralStart scan totalScans; spectralEnd scan totalScans; 0x00].

(** The markers of the scans [encodeProgressiveJPEG] writes, in order. *)
Definition scanMarkers (scans : option Z) : list (list Z) :=
  (fun scan => createSOSMarker scan (scansOf scans))
    <$> seqZ 0 (scansOf scans).

Record Pass : Type := mkPass {
  xStart : Z;
  yStart : Z;
  xStep : Z;
  yStep : Z
}.

(** Adam7 pattern *)
Definition passes : list Pass :=
  [mkPass 0 0 8 8; mkPass 4 0 8 8; mkPass 0 4 4 8; mkPass 2 0 4 4;
   mkPass 0 2 2 4; mkPass 1 0 2 2; mkPass 0 1 1 2].

(** The pixels [(x, y)] a pass visits, in order. *)
Definition passPixels (width height : Z) (pass : Pass) : list (Z * Z) :=
  y ← range_from (yStart pass) height (yStep pass);
  x ← range_from (xStart pass) width (xStep pass);
  [(x, y)].

(** The pixels [encodeInterlacedPNG] visits, in order. *)
Definition interlaceOrder (width height : Z) : list (Z * Z) :=
  passes ≫= passPixels width height.

(** The four samples pushed for a pixel; a sample read outside the data
    is [undefined] and is stored as 0. *)
Definition pushPixel (data : list Z) (width : Z) (p : Z * Z) : list Z :=
  let index := (snd p * width + fst p) * 4 in
  (fun i => JPEG.to_uint8 (default 0 (JS.get data i)))
    <$> [index; index + 1; index + 2; index + 3].

Definition encodeInterlacedPNG (imageData : ImageData) : list Z :=
  interlaceOrder (width imageData) (height imageData)
    ≫= pushPixel (data imageData) (width imageData).

End Progressive.

(** ** Theorems *)

Module ErrorHandlerFacts.
Import ErrorHandler.

Lemma isRetryableError_spec e :
  isRetryableError e = true <->
  code e = "WORKER_ERROR"%string \/ code e = "TIMEOUT_ERROR"%string
  \/ code e = "COMPRESSION_ERROR"%string.
Proof.
  unfold isRetryableError, retryableErrors.
  rewrite bool_decide_eq_true, !elem_of_cons, elem_of_nil. tauto.
Qed.

(** C6, as the code has it: a compression error is one of the three
    retryable kinds, and [shouldRetry] answers "retry" for it exactly
    while the number of recorded errors of that code does not exceed
    [maxRetries]. *)
Theorem compression_error_is_retryable (h : Handler) (algorithm : string) :
  isRetryableError (CompressionError algorithm) = true /\
  (shouldRetry_flag (shouldRetry h (CompressionError algorithm)) = true <->
   default 0 (errorCounts h !! "COMPRESSION_ERROR"%string)
     <= maxRetries (options h)).
Proof.
  split; [reflexivity|].
  unfold shouldRetry. cbn [code].
  change (isRetryableError (CompressionError algorithm)) with true.
  rewrite andb_true_r.
  destruct (Z.leb_spec (default 0 (errorCounts h !! "COMPRESSION_ERROR"%string))
                       (maxRetries (options h))); cbn; split; (lia || congruence || auto).
Qed.

(** C6 refuted as stated: the first compression error handled by a
    handler with the default options is retried. *)
Lemma compression_error_retried :
  let h := trackError (new defaultOptions) (CompressionError "jpeg") in
  isRetryableError (CompressionError "jpeg") = true /\
  shouldRetry_flag (shouldRetry h (CompressionError "jpeg")) = true /\
  attempt (shouldRetry h (CompressionError "jpeg")) = Some 1.
Proof. vm_compute. auto. Qed.

End ErrorHandlerFacts.

Module LRUCacheFacts.
Import LRUCache.

Section Facts.
Context {K : Type} `{EqDecision K}.
Implicit Types (m : list (K * Value)) (c : t K) (key : K) (value : Value).

Lemma bytes_cons k v m : bytes ((k, v) :: m) = entrySize v + bytes m.
Proof. reflexivity. Qed.

Lemma bytes_app m1 m2 : bytes (m1 ++ m2) = bytes m1 + bytes m2.
Proof.
  induction m1 as [|[k v] m1 IH]; [reflexivity|].
  cbn [app]. rewrite !bytes_cons, IH. lia.
Qed.

Lemma has_get key m : OMap.has key m = true <-> is_Some (OMap.get key m).
Proof.
  unfold OMap.has. rewrite bool_decide_eq_true.
  induction m as [|[k v] m IH]; cbn.
  - rewrite elem_of_nil. split; [tauto|]. intros [? ?]; discriminate.
  - rewrite elem_of_cons. destruct (decide (k = key)) as [->|Hne].
    + split; eauto.
    + rewrite <- IH. split; [intros [?|?]; congruence || auto | auto].
Qed.

Lemma get_None_notin key m : OMap.get key m = None <-> key ∉ m.*1.
Proof.
  pose proof (has_get key m) as Hg. unfold OMap.has in Hg.
  rewrite bool_decide_eq_true in Hg. rewrite Hg, eq_None_not_Some. tauto.
Qed.

Lemma delete_notin key m : key ∉ m.*1 -> OMap.delete key m = m.
Proof.
  unfold OMap.delete. induction m as [|[k v] m IH]; [reflexivity|].
  rewrite fmap_cons, not_elem_of_cons. cbn [fst]. intros [Hne Hnin].
  rewrite filter_cons_True by (cbn; congruence). f_equal. auto.
Qed.

Lemma delete_keys key m : (OMap.delete key m).*1 = filter (fun k => k ≠ key) m.*1.
Proof.
  unfold OMap.delete. induction m as [|[k v] m IH]; [reflexivity|].
  cbn [fmap list_fmap fst]. destruct (decide (k = key)) as [->|Hne].
  - rewrite !filter_cons_False by (cbn; tauto). exact IH.
  - rewrite !filter_cons_True by (cbn; tauto). cbn. f_equal. exact IH.
Qed.

Lemma delete_not_elem key m : key ∉ (OMap.delete key m).*1.
Proof. rewrite delete_keys, list_elem_of_filter. tauto. Qed.

Lemma delete_NoDup key m : NoDup m.*1 -> NoDup (OMap.delete key m).*1.
Proof. rewrite delete_keys. apply NoDup_filter. Qed.

Lemma bytes_delete key value m :
  NoDup m.*1 -> OMap.get key m = Some value ->
  bytes (OMap.delete key m) = bytes m - entrySize value.
Proof.
  unfold OMap.delete. induction m as [|[k v] m IH]; [discriminate|].
  cbn [fmap list_fmap fst OMap.get]. rewrite NoDup_cons. intros [Hk Hnd].
  destruct (decide (k = key)) as [->|Hne].
  - intros [= ->]. rewrite filter_cons_False by (cbn; tauto).
    fold (OMap.delete key m). rewrite delete_notin by exact Hk.
    rewrite bytes_cons. lia.
  - intros Hg. rewrite filter_cons_True by (cbn; tauto).
    rewrite !bytes_cons, IH by assumption. lia.
Qed.

Lemma set_notin key value m :
  key ∉ m.*1 -> OMap.set key value m = m ++ [(key, value)].
Proof.
  induction m as [|[k v] m IH]; [reflexivity|].
  cbn. rewrite not_elem_of_cons. intros [Hne Hnin].
  destruct (decide (k = key)); [congruence|]. f_equal. auto.
Qed.

(** The eviction loop drops the shortest prefix of the entries, oldest
    first, after which the new entry fits or nothing is left. *)
Lemma evict_spec maxSize size m total :
  exists n : nat,
    (n <= length m)%nat /\
    evict maxSize size m total = (drop n m, total - bytes (take n m)) /\
    (n = length m \/ total - bytes (take n m) + size <= maxSize) /\
    (forall j : nat, (j < n)%nat ->
                     total - bytes (take j m) + size > maxSize).
Proof.
  revert total. induction m as [|[k v] m IH]; intros total.
  - exists 0%nat. cbn. repeat split; auto with lia.
    f_equal. unfold bytes; cbn. lia.
  - cbn [evict]. destruct (Z.gtb_spec (total + size) maxSize) as [Hgt|Hle].
    + destruct (IH (total - entrySize v)) as (n & Hn & Hev & Hfit & Hmin).
      exists (S n). cbn [length drop take]. rewrite bytes_cons.
      split; [lia|]. split; [rewrite Hev; f_equal; lia|].
      split; [destruct Hfit; [left; lia | right; lia]|].
      intros [|j] Hj; cbn [take].
      * unfold bytes; cbn. lia.
      * rewrite bytes_cons. specialize (Hmin j). lia.
    + exists 0%nat. cbn [drop take length].
      split; [lia|]. split; [f_equal; unfold bytes; cbn; lia|].
      split; [right; unfold bytes; cbn; lia|]. intros j Hj; lia.
Qed.

Lemma bytes_take_drop (n : nat) m : bytes m - bytes (take n m) = bytes (drop n m).
Proof. rewrite <- (take_drop n m) at 1. rewrite bytes_app. lia. Qed.

Lemma NoDup_drop_keys (n : nat) m : NoDup m.*1 -> NoDup (drop n m).*1.
Proof.
  intros Hnd. rewrite <- (take_drop n m), fmap_app in Hnd.
  apply NoDup_app in Hnd. tauto.
Qed.

Lemma drop_keys_subseteq (n : nat) m key : key ∈ (drop n m).*1 -> key ∈ m.*1.
Proof.
  intros Hin. rewrite <- (take_drop n m), fmap_app, elem_of_app. auto.
Qed.

(** What [set] does to the entries and to [totalSize], for a cache
    whose keys are distinct and whose [totalSize] is exact. *)
Lemma set_spec key value c :
  NoDup (cache c).*1 -> totalSize c = bytes (cache c) ->
  let old := OMap.delete key (cache c) in
  let size := entrySize value in
  exists n : nat,
    (n <= length old)%nat /\
    cache (set key value c) =
      drop n old ++ (if size <=? maxSize c then [(key, value)] else []) /\
    totalSize (set key value c) =
      bytes (drop n old) + (if size <=? maxSize c then size else 0) /\
    maxSize (set key value c) = maxSize c /\
    (n = length old \/ bytes (drop n old) + size <= maxSize c) /\
    (forall j : nat, (j < n)%nat -> bytes (drop j old) + size > maxSize c).
Proof.
  intros Hnd Htot old size. unfold set. fold size.
  assert (exists total1,
    (if OMap.has key (cache c)
     then (OMap.delete key (cache c),
           totalSize c - default 0 (entrySize <$> OMap.get key (cache c)))
     else (cache c, totalSize c)) = (old, total1) /\ total1 = bytes old)
    as (total1 & -> & Htot1).
  { destruct (OMap.has key (cache c)) eqn:Hhas.
    - apply has_get in Hhas as [v Hv]. eexists; split; [reflexivity|].
      rewrite Hv; cbn. subst old. rewrite (bytes_delete key v) by assumption. lia.
    - assert (key ∉ (cache c).*1) as Hnin.
      { apply get_None_notin, eq_None_not_Some. intros Hs.
        apply has_get in Hs. congruence. }
      subst old. rewrite delete_notin by exact Hnin. eauto. }
  destruct (evict_spec (maxSize c) size old total1)
    as (n & Hn & -> & Hfit & Hmin).
  subst total1. rewrite bytes_take_drop in *.
  assert (key ∉ (drop n old).*1) as Hnin.
  { intros Hin%drop_keys_subseteq. revert Hin. apply delete_not_elem. }
  exists n. split; [exact Hn|].
  destruct (size <=? maxSize c); cbn [cache totalSize maxSize].
  - rewrite set_notin by exact Hnin. repeat split; auto.
    intros j Hj. specialize (Hmin j Hj). rewrite bytes_take_drop in Hmin. lia.
  - rewrite app_nil_r. repeat split; auto with lia.
    intros j Hj. specialize (Hmin j Hj). rewrite bytes_take_drop in Hmin. lia.
Qed.

Lemma Inv_get key c : Inv c -> Inv (get key c).2.
Proof.
  intros (Hnd & Htot & Hle & Hmax). unfold get.
  destruct (OMap.get key (cache c)) as [value|] eqn:Hg; cbn;
    [|repeat split; assumption].
  unfold Inv; cbn [cache totalSize maxSize].
  rewrite set_notin by apply delete_not_elem.
  rewrite fmap_app, bytes_app, (bytes_delete key value) by assumption.
  split; [|split; [unfold bytes at 2; cbn; lia | auto]].
  apply NoDup_app. split; [by apply delete_NoDup|].
  split; [|cbn; apply NoDup_singleton].
  intros k Hk. cbn. rewrite list_elem_of_singleton. intros ->.
  revert Hk. apply delete_not_elem.
Qed.

Lemma Inv_set key value c : Inv c -> Inv (set key value c).
Proof.
  intros (Hnd & Htot & Hle & Hmax).
  destruct (set_spec key value c Hnd Htot)
    as (n & Hn & Hc & Ht & Hm & Hfit & _).
  unfold Inv. rewrite Hc, Ht, Hm.
  assert (NoDup (drop n (OMap.delete key (cache c))).*1) as Hnd'
    by by apply NoDup_drop_keys, delete_NoDup.
  assert (n = length (OMap.delete key (cache c)) ->
          bytes (drop n (OMap.delete key (cache c))) = 0) as Hall.
  { intros ->. by rewrite drop_all. }
  destruct (Z.leb_spec (entrySize value) (maxSize c)).
  - rewrite fmap_app, bytes_app. split; [|split; [unfold bytes at 3; cbn; lia|]].
    + apply NoDup_app. split; [exact Hnd'|].
      split; [|cbn; apply NoDup_singleton].
      intros k Hk%drop_keys_subseteq. cbn. rewrite list_elem_of_singleton.
      intros ->. revert Hk. apply delete_not_elem.
    + split; [|exact Hmax]. destruct Hfit as [Hl|?]; [rewrite Hall by exact Hl|]; lia.
  - rewrite app_nil_r. split; [exact Hnd'|]. split; [lia|].
    split; [|exact Hmax]. destruct Hfit as [Hl|?]; [rewrite Hall by exact Hl|]; lia.
Qed.

Lemma Inv_clear c : Inv c -> Inv (clear c).
Proof.
  intros (_ & _ & _ & Hmax). unfold Inv, clear; cbn.
  split; [apply NoDup_nil_2|]. unfold bytes; cbn. auto with lia.
Qed.

Lemma Inv_run ops c : Inv c -> Inv (run ops c).
Proof.
  unfold run. revert c. induction ops as [|o ops IH]; intros c Hc; [exact Hc|].
  cbn [foldl]. apply IH. destruct o; cbn [step];
    auto using Inv_get, Inv_set, Inv_clear.
Qed.

Lemma maxSize_run ops c : maxSize (run ops c) = maxSize c.
Proof.
  unfold run. revert c. induction ops as [|o ops IH]; intros c; [reflexivity|].
  cbn [foldl]. rewrite IH. destruct o; cbn [step]; try reflexivity.
  - unfold get. destruct (OMap.get key (cache c)); reflexivity.
  - unfold set.
    destruct (if OMap.has key (cache c) then _ else _) as [e1 t1].
    destruct (evict _ _ e1 t1) as [e2 t2].
    destruct (_ <=? _); reflexivity.
Qed.

(** C7: whatever calls a client makes on a cache created with a
    non-negative budget, the bytes stored (which [totalSize] tracks
    exactly) never exceed [maxSize]; [set] evicts the shortest prefix
    of the entries in recency order, oldest first, after which the new
    entry fits; an entry larger than the budget is not stored; and
    [get] moves the entry it finds to the most recent end. *)
Theorem lru_cache_within_budget (options_maxSize : option Z) (ops : list (op K)) :
  0 <= maxSize (new (K:=K) options_maxSize) ->
  let c := run ops (new options_maxSize) in
  (storedBytes c = totalSize c /\
   storedBytes c <= maxSize c /\
   maxSize c = maxSize (new (K:=K) options_maxSize)) /\
  (forall key value,
      let old := OMap.delete key (cache c) in
      exists n : nat,
        cache (set key value c) =
          drop n old ++
          (if entrySize value <=? maxSize c then [(key, value)] else []) /\
        (n = length old \/
         bytes (drop n old) + entrySize value <= maxSize c) /\
        (forall j : nat, (j < n)%nat ->
            bytes (drop j old) + entrySize value > maxSize c)) /\
  (forall key value,
      maxSize c < entrySize value ->
      OMap.has key (cache (set key value c)) = false) /\
  (forall key value,
      OMap.get key (cache c) = Some value ->
      (get key c).1 = Some value /\
      cache (get key c).2 = OMap.delete key (cache c) ++ [(key, value)]).
Proof.
  intros Hmax c.
  assert (Inv c) as (Hnd & Htot & Hle & Hmax').
  { apply Inv_run. unfold Inv, new; cbn.
    split; [apply NoDup_nil_2|]. unfold bytes; cbn. auto with lia. }
  split; [|split; [|split]].
  - unfold storedBytes.
    split; [auto|]. split; [lia|]. apply maxSize_run.
  - intros key value old.
    destruct (set_spec key value c Hnd Htot)
      as (n & _ & Hc & _ & _ & Hfit & Hmin).
    exists n. auto.
  - intros key value Hbig.
    destruct (set_spec key value c Hnd Htot) as (n & _ & Hc & _).
    rewrite Hc. destruct (Z.leb_spec (entrySize value) (maxSize c)); [lia|].
    rewrite app_nil_r. unfold OMap.has. apply bool_decide_eq_false.
    intros Hin%drop_keys_subseteq. revert Hin. apply delete_not_elem.
  - intros key value Hg. unfold get. rewrite Hg. cbn.
    split; [reflexivity|]. apply set_notin, delete_not_elem.
Qed.

(** The part of the invariant that needs no budget: distinct keys and an
    exact [totalSize]. *)
Lemma tracked_run (ops : list (op K)) c :
  NoDup (cache c).*1 /\ totalSize c = bytes (cache c) ->
  NoDup (cache (run ops c)).*1 /\
  totalSize (run ops c) = bytes (cache (run ops c)).
Proof.
  unfold run. revert c. induction ops as [|o ops IH]; intros c Hc; [exact Hc|].
  cbn [foldl]. apply IH. destruct Hc as [Hnd Htot]. destruct o; cbn [step].
  - unfold get.
    destruct (OMap.get key (cache c)) as [value|] eqn:Hg;
      cbn [snd cache totalSize]; [|auto].
    rewrite set_notin by apply delete_not_elem.
    rewrite fmap_app, bytes_app, (bytes_delete key value) by assumption.
    split; [|unfold bytes at 2; cbn; lia].
    apply NoDup_app. split; [by apply delete_NoDup|].
    split; [|cbn; apply NoDup_singleton].
    intros k Hk. cbn. rewrite list_elem_of_singleton. intros ->.
    revert Hk. apply delete_not_elem.
  - destruct (set_spec key value c Hnd Htot)
      as (n & Hn & Hc & Ht & _).
    rewrite Hc, Ht.
    assert (NoDup (drop n (OMap.delete key (cache c))).*1) as Hnd'
      by by apply NoDup_drop_keys, delete_NoDup.
    destruct (entrySize value <=? maxSize c).
    + rewrite fmap_app, bytes_app. split; [|unfold bytes at 3; cbn; lia].
      apply NoDup_app. split; [exact Hnd'|].
      split; [|cbn; apply NoDup_singleton].
      intros k Hk%drop_keys_subseteq. cbn. rewrite list_elem_of_singleton.
      intros ->. revert Hk. apply delete_not_elem.
    + rewrite app_nil_r. split; [exact Hnd'|lia].
  - cbn [clear cache totalSize]. split; [apply NoDup_nil_2|reflexivity].
Qed.

Lemma tracked_new (options_maxSize : option Z) (ops : list (op K)) :
  let c := run ops (new options_maxSize) in
  NoDup (cache c).*1 /\ totalSize c = bytes (cache c).
Proof. apply tracked_run. cbn. split; [apply NoDup_nil_2|reflexivity]. Qed.

Lemma get_app_notin key m1 m2 :
  key ∉ m1.*1 -> OMap.get key (m1 ++ m2) = OMap.get key m2.
Proof.
  induction m1 as [|[k v] m1 IH]; [reflexivity|].
  rewrite fmap_cons, not_elem_of_cons. cbn [fst]. intros [Hne Hnin].
  cbn. destruct (decide (k = key)); [congruence|]. auto.
Qed.

(** X1: Insert, then look up: after [set(key, value)] a [get(key)] returns
    the value when its size is within the budget, and misses when the
    entry was too large to be stored. *)
Theorem set_then_get (options_maxSize : option Z) (ops : list (op K))
    key value :
  let c := run ops (new options_maxSize) in
  (get key (set key value c)).1 =
  if entrySize value <=? maxSize c then Some value else None.
Proof.
  intros c. destruct (tracked_new options_maxSize ops) as [Hnd Htot]. fold c in Hnd, Htot.
  destruct (set_spec key value c Hnd Htot) as (n & _ & Hc & _).
  assert (key ∉ (drop n (OMap.delete key (cache c))).*1) as Hnin.
  { intros Hin%drop_keys_subseteq. revert Hin. apply delete_not_elem. }
  unfold get. rewrite Hc. rewrite get_app_notin by exact Hnin.
  destruct (entrySize value <=? maxSize c); cbn.
  - destruct (decide (key = key)); [reflexivity|congruence].
  - reflexivity.
Qed.

Lemma delete_get_Permutation key value m :
  NoDup m.*1 -> OMap.get key m = Some value ->
  m ≡ₚ OMap.delete key m ++ [(key, value)].
Proof.
  unfold OMap.delete. induction m as [|[k v] m IH]; [discriminate|].
  rewrite fmap_cons, NoDup_cons. cbn [fst OMap.get]. intros [Hk Hnd].
  destruct (decide (k = key)) as [->|Hne].
  - intros [= ->]. rewrite filter_cons_False by (cbn; tauto).
    fold (OMap.delete key m). rewrite delete_notin by exact Hk.
    apply Permutation_cons_append.
  - intros Hg. rewrite filter_cons_True by (cbn; tauto).
    cbn [app]. constructor. auto.
Qed.

(** X2: A [get] only reorders: the cache holds the same entries afterwards,
    with the same [totalSize] and budget; nothing is evicted by reading.
    A miss changes nothing but the access counter. *)
Theorem get_keeps_entries (options_maxSize : option Z) (ops : list (op K)) key :
  let c := run ops (new options_maxSize) in
  cache (get key c).2 ≡ₚ cache c /\
  totalSize (get key c).2 = totalSize c /\
  maxSize (get key c).2 = maxSize c /\
  ((get key c).1 = None -> cache (get key c).2 = cache c) /\
  ((get key c).1 = None <-> key ∉ (cache c).*1).
Proof.
  intros c. destruct (tracked_new options_maxSize ops) as [Hnd _]. fold c in Hnd.
  unfold get. destruct (OMap.get key (cache c)) as [value|] eqn:Hg; cbn.
  - rewrite set_notin by apply delete_not_elem.
    split; [symmetry; by apply delete_get_Permutation|].
    repeat split; try discriminate.
    intros Hnin%get_None_notin. congruence.
  - repeat split; auto. intros _. by apply get_None_notin.
Qed.

Lemma counters_step c (o : op K) :
  0 <= hitCount c <= accessCount c ->
  0 <= hitCount (step c o) <= accessCount (step c o) /\
  accessCount (step c o) = accessCount c + (if isGet o then 1 else 0).
Proof.
  intros Hc. destruct o; cbn [step isGet].
  - unfold get. destruct (OMap.get key (cache c)); cbn; lia.
  - unfold set.
    destruct (if OMap.has key (cache c) then _ else _) as [e1 t1].
    destruct (evict _ _ e1 t1) as [e2 t2].
    destruct (_ <=? _); cbn; lia.
  - cbn. lia.
Qed.

(** X3: The counters of [getStats]: every [get] is counted once as an access,
    hits never outnumber accesses, and the hit rate lies between 0 and
    1. *)
Theorem getStats_counters (options_maxSize : option Z) (ops : list (op K)) :
  let s := getStats (run ops (new options_maxSize)) in
  st_accessCount s = Z.of_nat (length (filter (fun o => isGet o = true) ops)) /\
  0 <= st_hitCount s <= st_accessCount s /\
  (0 <= st_hitRate s <= 1)%Q.
Proof.
  cbn zeta.
  assert (forall c,
    0 <= hitCount c <= accessCount c ->
    0 <= hitCount (run ops c) <= accessCount (run ops c) /\
    accessCount (run ops c) =
      accessCount c + Z.of_nat (length (filter (fun o => isGet o = true) ops)))
    as Hrun.
  { unfold run. induction ops as [|o ops IH]; intros c Hc; cbn [foldl].
    - cbn. lia.
    - destruct (counters_step c o Hc) as [Hc' Hacc].
      destruct (IH _ Hc') as [Hh Ha]. split; [exact Hh|]. rewrite Ha, Hacc.
      destruct (isGet o) eqn:Ho.
      + rewrite filter_cons_True by exact Ho. cbn [length]. lia.
      + rewrite filter_cons_False by congruence. lia. }
  destruct (Hrun (new options_maxSize)) as [Hh Ha]; [cbn; lia|].
  cbn [getStats st_accessCount st_hitCount st_hitRate].
  split; [rewrite Ha; cbn; lia|]. split; [exact Hh|].
  set (c := run ops (new options_maxSize)) in *.
  destruct (Z.ltb_spec 0 (accessCount c)) as [Hpos|Hle].
  - assert (0 < inject_Z (accessCount c))%Q
      by (change 0%Q with (inject_Z 0); rewrite <- Zlt_Qlt; exact Hpos).
    split.
    + apply Qle_shift_div_l; [assumption|]. rewrite Qmult_0_l.
      change 0%Q with (inject_Z 0). rewrite <- Zle_Qle. lia.
    + apply Qle_shift_div_r; [assumption|]. rewrite Qmult_1_l.
      rewrite <- Zle_Qle. lia.
  - split; intros H'; discriminate H'.
Qed.

End Facts.

(** A run of the cache with a budget of ten bytes. *)
Lemma lru_cache_within_budget_witness :
  let c := run [OpSet "a"%string (mkValue (Some [1; 2; 3; 4; 5; 6]) None);
                OpSet "b"%string (mkValue None (Some 3));
                OpGet "a"%string;
                OpSet "c"%string (mkValue (Some [7; 8]) None)]
               (new (Some 10)) in
  (cache c).*1 = ["a"; "c"]%string /\ totalSize c = 8 /\
  storedBytes c <= maxSize c.
Proof.
  split; [reflexivity|]. split; [reflexivity|].
  refine (proj1 (proj2 (proj1 (lru_cache_within_budget (K:=string) (Some 10) _ _)))).
  cbn. lia.
Defined.

End LRUCacheFacts.

Module DCTFacts.
Import Reals Lra DCT.
Local Open Scope R_scope.

Lemma sqrt2_sqr : sqrt 2 * sqrt 2 = 2.
Proof. apply sqrt_def. lra. Qed.

Lemma sqrt2_neq0 : sqrt 2 <> 0.
Proof. intros H0. pose proof sqrt2_sqr as H2. rewrite H0 in H2. lra. Qed.

Lemma cu0_cv0 : cu 0 * cv 0 = 1 / 2.
Proof.
  unfold cu, cv; cbn [Nat.eqb]. pose proof sqrt2_neq0.
  replace (1 / sqrt 2 * (1 / sqrt 2)) with (1 / (sqrt 2 * sqrt 2))
    by (field; assumption).
  rewrite sqrt2_sqr. reflexivity.
Qed.

Lemma cosX_0 x : cosX x 0 = 1.
Proof.
  unfold cosX. replace (INR (2 * x + 1) * INR 0 * PI / 16) with 0
    by (cbn [INR]; lra). apply cos_0.
Qed.

Lemma cosY_0 y : cosY y 0 = 1.
Proof.
  unfold cosY. replace (INR (2 * y + 1) * INR 0 * PI / 16) with 0
    by (cbn [INR]; lra). apply cos_0.
Qed.

Lemma blockSum_dc block : blockSum block 0 0 = sampleSum block.
Proof.
  unfold blockSum, sampleSum. cbn [foldl seq].
  repeat rewrite cosX_0. repeat rewrite cosY_0.
  repeat rewrite Rmult_1_r. reflexivity.
Qed.

(** C9: the scaling factors of [applyDCT] at [u = 0] and at [v = 0] are
    both [1 / sqrt 2]; the coefficient stored at index 0, the DC term, is
    the sum of the samples times both factors and the common scale, so it
    carries the factor [1 / 2] where a coefficient with [u, v > 0] carries
    the factor 1. *)
Theorem dc_term_normalized_on_both_axes (block : list R) :
  cu 0 = 1 / sqrt 2 /\ cv 0 = 1 / sqrt 2 /\
  nth 0 (applyDCT block) 0 =
    sampleSum block * (1 / sqrt 2) * (1 / sqrt 2) * scale /\
  cu 0 * cv 0 = 1 / 2 /\
  (forall u v : nat, cu (S u) * cv (S v) = 1).
Proof.
  split; [reflexivity|]. split; [reflexivity|].
  split.
  { change (nth 0 (applyDCT block) 0) with (coefficient block 0 0).
    unfold coefficient. rewrite blockSum_dc. reflexivity. }
  split; [apply cu0_cv0|].
  intros u v. unfold cu, cv; cbn [Nat.eqb]. lra.
Qed.

End DCTFacts.

Module JSFacts.

Lemma length_set {A} (a : list A) i v : length (JS.set a i v) = length a.
Proof. unfold JS.set. destruct (0 <=? i); [apply length_insert|reflexivity]. Qed.

Lemma get_set_ne {A} (a : list A) i j v :
  i <> j -> JS.get (JS.set a i v) j = JS.get a j.
Proof.
  intros Hne. unfold JS.get, JS.set.
  destruct (Z.leb_spec 0 j); [|reflexivity].
  destruct (Z.leb_spec 0 i); [|reflexivity].
  apply list_lookup_insert_ne. lia.
Qed.

Lemma get_set_eq {A} (a : list A) i v :
  0 <= i < Z.of_nat (length a) -> JS.get (JS.set a i v) i = Some v.
Proof.
  intros Hi. unfold JS.get, JS.set.
  destruct (Z.leb_spec 0 i); [|lia]. apply list_lookup_insert_eq. lia.
Qed.

Lemma get_Some_iff {A} (a : list A) i :
  is_Some (JS.get a i) <-> 0 <= i < Z.of_nat (length a).
Proof.
  unfold JS.get. destruct (Z.leb_spec 0 i).
  - rewrite lookup_lt_is_Some. lia.
  - split; [intros [? ?]; discriminate | lia].
Qed.

Lemma get_None_iff {A} (a : list A) i :
  JS.get a i = None <-> ~ (0 <= i < Z.of_nat (length a)).
Proof. rewrite <- get_Some_iff, eq_None_not_Some. tauto. Qed.

Lemma elem_of_range_step (n step j : Z) :
  0 < step ->
  j ∈ JS.range_step n step <-> 0 <= j < n /\ exists k, j = step * k.
Proof.
  intros Hstep. unfold JS.range_step. rewrite list_elem_of_fmap. split.
  - intros (k & -> & Hk%elem_of_seqZ). split; [|eauto].
    assert (step * k <= n + step - 1 - step); [|nia].
    pose proof (Z.mul_div_le (n + step - 1) step Hstep). nia.
  - intros (Hj & k & ->). exists k. split; [reflexivity|].
    apply elem_of_seqZ.
    assert (k + 1 <= (n + step - 1) / step)
      by (apply Z.div_le_lower_bound; nia).
    nia.
Qed.

(** A loop invariant holds after the loop. *)
Lemma foldl_preserves {A B} (P : A -> Prop) (f : A -> B -> A) (l : list B) a :
  (forall a b, P a -> P (f a b)) -> P a -> P (foldl f a l).
Proof. intros Hf. revert a. induction l; cbn; auto. Qed.

(** A loop that writes [f i] at every index [i] of a list. *)
Lemma foldl_set_get {A} (f : Z -> A) (idxs : list Z) (a : list A) (j : Z) :
  JS.get (foldl (fun out i => JS.set out i (f i)) a idxs) j =
  if decide (j ∈ idxs) then (fun _ => f j) <$> JS.get a j else JS.get a j.
Proof.
  revert a. induction idxs as [|i idxs IH]; intros a; cbn [foldl].
  - rewrite decide_False by apply not_elem_of_nil. reflexivity.
  - rewrite IH. destruct (decide (i = j)) as [->|Hne].
    + rewrite (decide_True (P := j ∈ j :: idxs)) by apply list_elem_of_here.
      destruct (JS.get a j) as [x|] eqn:Hg.
      * rewrite get_set_eq by (apply get_Some_iff; eauto).
        destruct (decide (j ∈ idxs)); reflexivity.
      * assert (JS.get (JS.set a j (f j)) j = None) as ->.
        { apply get_None_iff. rewrite length_set. by apply get_None_iff. }
        destruct (decide (j ∈ idxs)); reflexivity.
    + rewrite get_set_ne by exact Hne.
      destruct (decide (j ∈ idxs)) as [Hin|Hnin].
      * rewrite decide_True by (by apply list_elem_of_further). reflexivity.
      * rewrite decide_False; [reflexivity|].
        rewrite not_elem_of_cons. auto.
Qed.

End JSFacts.

Module JPEGFacts.
Import JPEG JSFacts.

Lemma subsampleBlock_length d w x y out :
  length (subsampleBlock d w x y out) = length out.
Proof. unfold subsampleBlock. rewrite !length_set. reflexivity. Qed.

Lemma subsampleBlock_luma d w x y out k :
  JS.get (subsampleBlock d w x y out) (4 * k) = JS.get out (4 * k).
Proof. unfold subsampleBlock. rewrite !get_set_ne by lia. reflexivity. Qed.

Lemma applyChromaSubsampling_length d w h :
  length (applyChromaSubsampling d w h) = length d.
Proof.
  unfold applyChromaSubsampling.
  apply (foldl_preserves (fun out => length out = length d)).
  { intros out y Hout.
    apply (foldl_preserves (fun out => length out = length d)); [|exact Hout].
    intros out' x Hout'. rewrite subsampleBlock_length. exact Hout'. }
  apply (foldl_preserves (fun out => length out = length d)).
  { intros out i Hout. rewrite length_set. exact Hout. }
  apply length_replicate.
Qed.

(** C10: chroma subsampling keeps the luma channel.  For samples that are
    bytes, as the elements of the [Uint8Array] it is given are, the array
    [applyChromaSubsampling] returns has the length of its input and the
    same value at every offset that is a multiple of four. *)
Theorem chroma_subsampling_preserves_luma
    (ycbcrData : list Z) (width height : Z) :
  Forall (fun b => 0 <= b < 256) ycbcrData ->
  length (applyChromaSubsampling ycbcrData width height) = length ycbcrData /\
  forall k : Z,
    JS.get (applyChromaSubsampling ycbcrData width height) (4 * k)
    = JS.get ycbcrData (4 * k).
Proof.
  intros Hbytes. split; [apply applyChromaSubsampling_length|].
  intros k. unfold applyChromaSubsampling.
  set (copied := foldl _ (replicate _ _) _).
  transitivity (JS.get copied (4 * k)).
  { apply (foldl_preserves
             (fun out => JS.get out (4 * k) = JS.get copied (4 * k)));
      [|reflexivity].
    intros out y Hout.
    apply (foldl_preserves
             (fun out => JS.get out (4 * k) = JS.get copied (4 * k)));
      [|exact Hout].
    intros out' x Hout'. rewrite subsampleBlock_luma. exact Hout'. }
  subst copied. rewrite foldl_set_get.
  destruct (JS.get ycbcrData (4 * k)) as [b|] eqn:Hget.
  - assert (0 <= 4 * k < Z.of_nat (length ycbcrData)) as Hk
      by (apply get_Some_iff; eauto).
    rewrite decide_True by (apply elem_of_range_step; [lia|]; eauto).
    assert (JS.get (replicate (length ycbcrData) 0) (4 * k) = Some 0) as ->.
    { unfold JS.get. destruct (Z.leb_spec 0 (4 * k)); [|lia].
      apply lookup_replicate_2. lia. }
    cbn. f_equal. unfold to_uint8. apply Z.mod_small.
    unfold JS.get in Hget. destruct (0 <=? 4 * k); [|discriminate].
    eapply Forall_lookup_1 in Hbytes; [|exact Hget]. exact Hbytes.
  - assert (JS.get (replicate (length ycbcrData) 0) (4 * k) = None) as ->.
    { apply get_None_iff. rewrite length_replicate. by apply get_None_iff. }
    destruct (decide _); reflexivity.
Qed.

(** A 2x2 image: the luma bytes 10, 20, 30, 40 stay, the chroma is
    averaged. *)
Lemma chroma_subsampling_preserves_luma_witness :
  let d := [10; 100; 200; 255; 20; 110; 210; 255;
            30; 120; 220; 255; 40; 130; 230; 255] in
  applyChromaSubsampling d 2 2 =
    [10; 115; 215; 255; 20; 115; 215; 255;
     30; 115; 215; 255; 40; 115; 215; 255] /\
  JS.get (applyChromaSubsampling d 2 2) (4 * 2) = JS.get d (4 * 2).
Proof.
  split; [reflexivity|].
  refine (proj2 (chroma_subsampling_preserves_luma _ 2 2 _) 2).
  repeat constructor; lia.
Defined.

Lemma calculateQualityScale_antitone (q1 q2 : Q) :
  (q2 <= q1)%Q -> (calculateQualityScale q1 <= calculateQualityScale q2)%Q.
Proof.
  intros Hq. unfold calculateQualityScale.
  repeat match goal with
         | |- context [Qle_bool ?a ?b] =>
             let E := fresh "E" in
             destruct (Qle_bool a b) eqn:E;
             [apply Qle_bool_iff in E
             |assert (~ (a <= b)%Q) by (rewrite <- Qle_bool_iff; congruence);
              clear E]
         end;
    try (exfalso; Lqa.lra); try Lqa.lra.
Qed.

Lemma quantTable_nonneg channel (i : nat) :
  0 <= default 0 (quantTable channel !! i).
Proof.
  assert (Forall (fun t => 0 <= t) (quantTable channel)) as Hall.
  { unfold quantTable. destruct (channel =? 0);
      apply Forall_forall; intros t Ht;
      repeat (apply elem_of_cons in Ht as [->|Ht]; [lia|]);
      by apply elem_of_nil in Ht. }
  destruct (quantTable channel !! i) as [t|] eqn:Ht; cbn; [|lia].
  eapply Forall_lookup_1 in Hall; eauto.
Qed.

Lemma quantStep_monotone channel i (s1 s2 : Q) :
  (s1 <= s2)%Q -> (quantStep channel i s1 <= quantStep channel i s2)%Q.
Proof.
  intros Hs. unfold quantStep.
  pose proof (quantTable_nonneg channel i) as Ht.
  rewrite (Qmult_comm _ s1), (Qmult_comm _ s2).
  apply Qmult_le_compat_r; [exact Hs|].
  change 0%Q with (inject_Z 0). rewrite <- Zle_Qle. exact Ht.
Qed.

Lemma qualityOrDefault_pos (q : Q) :
  (0 < q)%Q -> qualityOrDefault (Some q) = q.
Proof.
  intros Hq. unfold qualityOrDefault.
  destruct (Qeq_bool q 0) eqn:E; [|reflexivity].
  apply Qeq_bool_iff in E. Lqa.lra.
Qed.

Lemma writeBlock_length d w h x y ch qb :
  length (writeBlock d w h x y ch qb) = length d.
Proof.
  unfold writeBlock.
  apply (foldl_preserves (fun out => length out = length d)); [|reflexivity].
  intros out [y' x'] Hout. rewrite length_set. exact Hout.
Qed.

Lemma length_range_step (n : Z) :
  0 <= n -> Z.of_nat (length (JS.range_step n 4)) = (n + 3) / 4.
Proof.
  intros Hn. unfold JS.range_step. rewrite length_fmap, length_seqZ.
  replace (n + 4 - 1) with (n + 3) by lia.
  pose proof (Z.div_pos (n + 3) 4). lia.
Qed.

Lemma length_bind3 {A} (f : Z -> list A) (l : list Z) :
  (forall i, length (f i) = 3%nat) -> length (l ≫= f) = (3 * length l)%nat.
Proof.
  intros Hf. induction l as [|i l IH]; [reflexivity|].
  cbn [mbind list_bind]. rewrite length_app, Hf.
  change (list_bind _ _ f l) with (l ≫= f). rewrite IH. cbn [length]. lia.
Qed.

Lemma encodeJPEG_length processedData w h :
  Z.of_nat (length (encodeJPEG processedData w h)) =
  55 + 3 * ((Z.of_nat (length processedData) + 3) / 4).
Proof.
  unfold encodeJPEG, encodeImageData.
  rewrite length_fmap, !length_app, length_bind3 by reflexivity.
  cbn [length]. pose proof (length_range_step (Z.of_nat (length processedData))).
  lia.
Qed.

Lemma encodeJPEG_framed processedData w h :
  exists body, encodeJPEG processedData w h = [0xFF; 0xD8] ++ body ++ [0xFF; 0xD9].
Proof.
  unfold encodeJPEG.
  match goal with
  | |- context [?a ++ ?b ++ ?c ++ encodeImageData ?p ++ ?z] =>
      replace (a ++ b ++ c ++ encodeImageData p ++ z)
        with ((a ++ b ++ c ++ encodeImageData p) ++ z)
        by (rewrite <- !app_assoc; reflexivity);
      exists (to_uint8 <$> (a ++ b ++ c ++ encodeImageData p))
  end.
  rewrite fmap_app, (fmap_app _ _ [255; 217]). reflexivity.
Qed.

Section PipelineFacts.
Variable canvasPixels : ImageData -> option (list Z).
Variable acceptsArguments : nat -> bool.
Variable ycc : Z -> option Z -> option Z -> Z * Z * Z.
Context {F : Type}.
Variable applyDCT : list (option Z) -> list F.
Variable roundDiv : F -> Q -> Z.

Lemma convertRGBToYCbCr_length rgbData :
  length (convertRGBToYCbCr ycc rgbData) = length rgbData.
Proof.
  unfold convertRGBToYCbCr.
  apply (foldl_preserves (fun out => length out = length rgbData));
    [|apply length_replicate].
  intros out i Hout. destruct (ycc _ _ _) as [[y cb] cr].
  rewrite !length_set. exact Hout.
Qed.

Lemma performDCTQuantization_length d w h q :
  length (performDCTQuantization applyDCT roundDiv d w h q) = length d.
Proof.
  unfold performDCTQuantization.
  apply (foldl_preserves (fun out => length out = length d));
    [|apply length_replicate].
  intros out y Hout.
  apply (foldl_preserves (fun out => length out = length d)); [|exact Hout].
  intros out1 x Hout1.
  apply (foldl_preserves (fun out => length out = length d)); [|exact Hout1].
  intros out2 ch Hout2. rewrite writeBlock_length. exact Hout2.
Qed.

Lemma encodeImageData_length processedData :
  length (encodeImageData processedData)
  = Z.to_nat (14 + 3 * ((Z.of_nat (length processedData) + 3) / 4)).
Proof.
  unfold encodeImageData. rewrite length_app, length_bind3 by reflexivity.
  cbn [length].
  pose proof (length_range_step (Z.of_nat (length processedData))). lia.
Qed.

(** The samples [compress] hands to [encodeJPEG] are as many as the
    pixels the canvas gave. *)
Lemma compressedData_length (options : Options) w h pixels :
  length (performDCTQuantization applyDCT roundDiv
            (if chromaSubsampling options
             then applyChromaSubsampling (convertRGBToYCbCr ycc pixels) w h
             else convertRGBToYCbCr ycc pixels)
            w h (qualityOrDefault (quality options)))
  = length pixels.
Proof.
  rewrite performDCTQuantization_length.
  destruct (chromaSubsampling options);
    rewrite ?applyChromaSubsampling_length, convertRGBToYCbCr_length;
    reflexivity.
Qed.

(** [compress] throws when the canvas does and when the scan is too long
    to be spread into one call; otherwise it returns a stream framed by
    the SOI and EOI markers whose size only depends on the number of
    samples. *)
Lemma compress_outcome imageData options :
  match canvasPixels imageData with
  | None =>
      compress canvasPixels acceptsArguments ycc applyDCT roundDiv
        imageData options
      = Throw (ErrorHandler.CompressionError "jpeg")
  | Some pixels =>
      if acceptsArguments
           (Z.to_nat (14 + 3 * ((Z.of_nat (length pixels) + 3) / 4)))
      then
        exists c,
          compress canvasPixels acceptsArguments ycc applyDCT roundDiv
            imageData options = Ok c /\
          c_size c = 55 + 3 * ((Z.of_nat (length pixels) + 3) / 4) /\
          c_size c = Z.of_nat (length (c_data c)) /\
          c_quality c = qualityOrDefault (quality options) /\
          exists body, c_data c = [0xFF; 0xD8] ++ body ++ [0xFF; 0xD9]
      else
        compress canvasPixels acceptsArguments ycc applyDCT roundDiv
          imageData options
        = Throw (ErrorHandler.CompressionError "jpeg")
  end.
Proof.
  unfold compress. destruct (canvasPixels imageData) as [pixels|];
    [|reflexivity].
  rewrite encodeImageData_length, compressedData_length.
  destruct (acceptsArguments _); [|reflexivity].
  eexists. split; [reflexivity|]. cbn [c_size c_data c_quality].
  split; [|split; [reflexivity|split; [reflexivity|apply encodeJPEG_framed]]].
  rewrite encodeJPEG_length, compressedData_length. reflexivity.
Qed.

Lemma validateInput_rejects imageData :
  width imageData <= 0 \/ height imageData <= 0 ->
  is_Some (Engine.validateInput imageData).
Proof.
  intros Hdim. unfold Engine.validateInput.
  destruct (width imageData =? 0) eqn:Hw0, (height imageData =? 0) eqn:Hh0;
    cbn [orb]; eauto.
  destruct ((32767 <? width imageData) || (32767 <? height imageData)); eauto.
  destruct (Z.ltb_spec (width imageData) 1), (Z.ltb_spec (height imageData) 1);
    cbn [orb]; eauto.
  lia.
Qed.

(** C1, as the code has it.  An image with a dimension that is zero or
    negative is refused by the engine's validation, so that the engine's
    [compress] signals a [CompressionError] for it before any codec runs.
    The codec's own [compress] tests neither the dimensions nor the
    quality: it signals a [CompressionError] exactly when the canvas of
    the host throws or the scan is too long to be spread into one call,
    which depends on the number of pixels alone; so the outcome is the
    same under all options, whatever their quality.  The result is never
    partial: it is a [CompressionError] or a whole stream, from the SOI
    marker to the EOI marker, whose [size] is its length. *)
Theorem compress_checks_dimensions_not_quality
    (imageData : ImageData) (options : Options) :
  let run := compress canvasPixels acceptsArguments ycc applyDCT roundDiv
               imageData in
  (forall (A : Type) (encode : ImageData -> gmap string Engine.value -> result A)
          (this : Engine.Config) (engineOptions : gmap string Engine.value),
      width imageData <= 0 \/ height imageData <= 0 ->
      Engine.compress encode this imageData engineOptions
      = Throw (ErrorHandler.CompressionError "auto")) /\
  (run options = Throw (ErrorHandler.CompressionError "jpeg") <->
   match canvasPixels imageData with
   | None => True
   | Some pixels =>
       acceptsArguments
         (Z.to_nat (14 + 3 * ((Z.of_nat (length pixels) + 3) / 4))) = false
   end) /\
  (forall options' : Options,
      run options' = Throw (ErrorHandler.CompressionError "jpeg") <->
      run options = Throw (ErrorHandler.CompressionError "jpeg")) /\
  ((exists c, run options = Ok c) \/
   run options = Throw (ErrorHandler.CompressionError "jpeg")) /\
  (forall c,
      run options = Ok c ->
      c_size c = Z.of_nat (length (c_data c)) /\
      (exists body, c_data c = [0xFF; 0xD8] ++ body ++ [0xFF; 0xD9]) /\
      c_quality c = qualityOrDefault (quality options) /\
      exists pixels,
        canvasPixels imageData = Some pixels /\
        c_size c = 55 + 3 * ((Z.of_nat (length pixels) + 3) / 4)).
Proof.
  intros run.
  assert (forall o,
            run o = Throw (ErrorHandler.CompressionError "jpeg") <->
            match canvasPixels imageData with
            | None => True
            | Some pixels =>
                acceptsArguments
                  (Z.to_nat (14 + 3 * ((Z.of_nat (length pixels) + 3) / 4)))
                = false
            end) as Hthrow.
  { intros o. pose proof (compress_outcome imageData o) as H. fold run in H.
    destruct (canvasPixels imageData) as [pixels|]; [|tauto].
    destruct (acceptsArguments _).
    - destruct H as (c & -> & _). split; discriminate.
    - tauto. }
  split; [|split; [apply Hthrow|split; [|split]]].
  - intros A encode this engineOptions Hdim. unfold Engine.compress.
    destruct (validateInput_rejects imageData Hdim) as [msg ->]. reflexivity.
  - intros options'. rewrite !Hthrow. reflexivity.
  - pose proof (compress_outcome imageData options) as H. fold run in H.
    destruct (canvasPixels imageData) as [pixels|]; [|by right].
    destruct (acceptsArguments _); [|by right].
    destruct H as (c & Hc & _). left. eauto.
  - intros c Hc. pose proof (compress_outcome imageData options) as H.
    fold run in H. rewrite Hc in H.
    destruct (canvasPixels imageData) as [pixels|]; [|discriminate].
    destruct (acceptsArguments _); [|discriminate].
    destruct H as (c' & [= <-] & Hsz & Hlen & Hq & Hbody). eauto 10.
Qed.

Lemma foldl_ext_all {A B} (f g : A -> B -> A) (l : list B) (a : A) :
  (forall a b, f a b = g a b) -> foldl f a l = foldl g a l.
Proof.
  intros Hfg. revert a. induction l as [|b l IH]; intros a; [reflexivity|].
  cbn [foldl]. rewrite Hfg. apply IH.
Qed.

(** The divisors of [performDCTQuantization] are the steps of its
    quality: two division kernels that agree on them give the same
    samples. *)
Lemma performDCTQuantization_divisors
    (roundDiv' : F -> Q -> Z) d w h (q : Q) :
  (forall c channel i,
      roundDiv' c (quantStep channel i (calculateQualityScale q))
      = roundDiv c (quantStep channel i (calculateQualityScale q))) ->
  performDCTQuantization applyDCT roundDiv' d w h q
  = performDCTQuantization applyDCT roundDiv d w h q.
Proof.
  intros Hagree. unfold performDCTQuantization.
  apply foldl_ext_all. intros out y.
  apply foldl_ext_all. intros out1 x.
  apply foldl_ext_all. intros out2 channel.
  f_equal. unfold quantizeBlock. apply imap_ext. intros i c _. apply Hagree.
Qed.

Lemma quantizeBlock_lookup (dctBlock : list F) channel scale (i : nat) c :
  dctBlock !! i = Some c ->
  quantizeBlock roundDiv dctBlock channel scale !! i
  = Some (roundDiv c (quantStep channel i scale)).
Proof.
  intros Hc. unfold quantizeBlock. rewrite list_lookup_imap, Hc. reflexivity.
Qed.

(** The quality enters [compress] through [options.quality || 0.8]
    alone. *)
Lemma compress_quality_default imageData options options' :
  chromaSubsampling options' = chromaSubsampling options ->
  qualityOrDefault (quality options') = qualityOrDefault (quality options) ->
  compress canvasPixels acceptsArguments ycc applyDCT roundDiv imageData options'
  = compress canvasPixels acceptsArguments ycc applyDCT roundDiv imageData options.
Proof. intros Hc Hq. unfold compress. rewrite Hc, Hq. reflexivity. Qed.

End PipelineFacts.

(** An image of one red pixel, with no dimension to encode. *)
Lemma compress_checks_dimensions_not_quality_witness :
  Engine.compress (fun _ _ => Ok tt)
    (Engine.mkConfig (Engine.VStr "balanced") None 0)
    (mkImageData 0 1 [255; 0; 0; 255]) ∅
  = Throw (ErrorHandler.CompressionError "auto").
Proof.
  refine (proj1 (compress_checks_dimensions_not_quality
                   (fun _ => None) (fun _ => true)
                   (fun r _ _ => (r, 128, 128)) (fun b => b) (fun _ _ => 0)
                   (mkImageData 0 1 [255; 0; 0; 255])
                   (mkOptions None false true)) unit _ _ _ _).
  left. cbn. lia.
Defined.

(** C1 refuted as stated: the quality 2 lies outside [0,1], and the
    one-pixel image is encoded all the same, to 58 bytes, on every host
    whose canvas reads back the opaque pixel and whose engine passes 17
    arguments in a call, whatever the floating-point kernels compute. *)
Lemma out_of_range_quality_is_encoded :
  ~ (0 <= 2 <= 1)%Q /\
  forall (canvasPixels : ImageData -> option (list Z))
         (acceptsArguments : nat -> bool)
         (ycc : Z -> option Z -> option Z -> Z * Z * Z) (F : Type)
         (applyDCT : list (option Z) -> list F) (roundDiv : F -> Q -> Z),
    canvasPixels (mkImageData 1 1 [255; 0; 0; 255]) = Some [255; 0; 0; 255] ->
    acceptsArguments 17%nat = true ->
    exists c,
      compress canvasPixels acceptsArguments ycc applyDCT roundDiv
        (mkImageData 1 1 [255; 0; 0; 255]) (mkOptions (Some 2%Q) false true)
      = Ok c /\
      c_size c = 58 /\ c_quality c = 2%Q /\
      exists body, c_data c = [0xFF; 0xD8] ++ body ++ [0xFF; 0xD9].
Proof.
  split; [intros [_ H]; vm_compute in H; congruence|].
  intros canvasPixels acceptsArguments ycc F applyDCT roundDiv Hcanvas Hargs.
  pose proof (compress_outcome canvasPixels acceptsArguments ycc applyDCT
                roundDiv (mkImageData 1 1 [255; 0; 0; 255])
                (mkOptions (Some 2%Q) false true)) as H.
  rewrite Hcanvas in H.
  change (Z.to_nat (14 + 3 * ((Z.of_nat (length [255; 0; 0; 255]) + 3) / 4)))
    with 17%nat in H.
  rewrite Hargs in H. destruct H as (c & Hc & Hsize & _ & Hq & Hbody).
  exists c. split; [exact Hc|]. split; [exact Hsize|]. split; [exact Hq|].
  exact Hbody.
Qed.

(** C2: the code departs from the claim at the quality 0.  The mapping
    from the quality to the steps is monotone for all qualities, 0
    included: [calculateQualityScale] gives the scale 2 for the quality 0,
    the largest steps.  But [compress] hands [options.quality || 0.8] to
    the quantizer, so that it compresses at the quality 0 exactly as at
    the quality 0.8 and reports 0.8.  The only divisors [compress] asks
    the division for are the table entries scaled for that value, each
    coefficient being divided by its own; a division that answers 1 for
    one divisor and 0 for all others shows the divisor of the last
    luminance coefficient in the stream of a one-pixel image: 74.25 at the
    quality 0, where the mapping gives 198, and 148.5 at the quality 0.5.
    The steps at the higher quality 0.5 are larger than those at the
    quality 0.  The byte size does not depend on the quality. *)
Theorem quality_zero_is_quantized_as_default :
  (forall (canvasPixels : ImageData -> option (list Z))
          (acceptsArguments : nat -> bool)
          (ycc : Z -> option Z -> option Z -> Z * Z * Z) (F : Type)
          (applyDCT : list (option Z) -> list F) (roundDiv : F -> Q -> Z)
          (imageData : ImageData) (options : Options),
      compress canvasPixels acceptsArguments ycc applyDCT roundDiv imageData
        (withQuality 0%Q options)
      = compress canvasPixels acceptsArguments ycc applyDCT roundDiv imageData
          (withQuality (8 # 10) options)) /\
  (forall (canvasPixels : ImageData -> option (list Z))
          (acceptsArguments : nat -> bool)
          (ycc : Z -> option Z -> option Z -> Z * Z * Z) (F : Type)
          (applyDCT : list (option Z) -> list F) (roundDiv roundDiv' : F -> Q -> Z)
          (imageData : ImageData) (options : Options),
      (forall c channel i,
          roundDiv' c (quantStep channel i
                         (calculateQualityScale (qualityOrDefault (quality options))))
          = roundDiv c (quantStep channel i
                          (calculateQualityScale (qualityOrDefault (quality options))))) ->
      compress canvasPixels acceptsArguments ycc applyDCT roundDiv' imageData options
      = compress canvasPixels acceptsArguments ycc applyDCT roundDiv imageData options) /\
  (forall (F : Type) (roundDiv : F -> Q -> Z) (dctBlock : list F)
          (channel : Z) (scale : Q) (i : nat) (c : F),
      dctBlock !! i = Some c ->
      quantizeBlock roundDiv dctBlock channel scale !! i
      = Some (roundDiv c (quantStep channel i scale))) /\
  (forall (q1 q2 : Q) (channel : Z) (i : nat),
      (q2 <= q1)%Q ->
      (quantStep channel i (calculateQualityScale q1)
       <= quantStep channel i (calculateQualityScale q2))%Q) /\
  (quantStep 0 63 (calculateQualityScale 0) == 198)%Q /\
  (quantStep 0 63 (calculateQualityScale (qualityOrDefault (Some 0%Q)))
   == 297 # 4)%Q /\
  (quantStep 0 63 (calculateQualityScale (qualityOrDefault (Some (1 # 2))))
   == 297 # 2)%Q /\
  (let firstSample (q divisor : Q) : option Z :=
     match
       compress (fun _ => Some [255; 0; 0; 255]) (fun _ => true)
         (fun r _ _ => (r, 128, 128)) (fun _ => replicate 64 tt)
         (fun _ d => if Qeq_bool d divisor then 1 else 0)
         (mkImageData 1 1 [255; 0; 0; 255]) (mkOptions (Some q) false false)
     with
     | Ok c => c_data c !! 53%nat
     | Throw _ => None
     end in
   firstSample 0%Q (297 # 4) = Some 129 /\
   firstSample 0%Q 198%Q = Some 128 /\
   firstSample (8 # 10) (297 # 4) = Some 129 /\
   firstSample (1 # 2) (297 # 2) = Some 129 /\
   firstSample (1 # 2) (297 # 4) = Some 128) /\
  ~ (297 # 2 <= 297 # 4)%Q /\
  (forall (canvasPixels : ImageData -> option (list Z))
          (acceptsArguments : nat -> bool)
          (ycc : Z -> option Z -> option Z -> Z * Z * Z) (F : Type)
          (applyDCT : list (option Z) -> list F) (roundDiv : F -> Q -> Z)
          (imageData : ImageData) (options : Options) (q1 q2 : Q),
      sizeOf (compress canvasPixels acceptsArguments ycc applyDCT roundDiv
                imageData (withQuality q1 options))
      = sizeOf (compress canvasPixels acceptsArguments ycc applyDCT roundDiv
                  imageData (withQuality q2 options))).
Proof.
  split; [|split; [|split; [|split; [|split; [|split; [|split; [|split; [|split]]]]]]]].
  - intros. apply compress_quality_default; reflexivity.
  - intros canvasPixels acceptsArguments ycc F applyDCT roundDiv roundDiv'
      imageData options Hagree.
    unfold compress. destruct (canvasPixels imageData) as [pixels|];
      [|reflexivity].
    rewrite (performDCTQuantization_divisors applyDCT roundDiv roundDiv')
      by exact Hagree.
    reflexivity.
  - intros. by apply quantizeBlock_lookup.
  - intros q1 q2 channel i Hq.
    by apply quantStep_monotone, calculateQualityScale_antitone.
  - reflexivity.
  - reflexivity.
  - reflexivity.
  - cbv zeta. repeat split; vm_compute; reflexivity.
  - intros H. vm_compute in H. congruence.
  - intros canvasPixels acceptsArguments ycc F applyDCT roundDiv imageData
      options q1 q2.
    pose proof (compress_outcome canvasPixels acceptsArguments ycc applyDCT
                  roundDiv imageData (withQuality q1 options)) as H1.
    pose proof (compress_outcome canvasPixels acceptsArguments ycc applyDCT
                  roundDiv imageData (withQuality q2 options)) as H2.
    destruct (canvasPixels imageData) as [pixels|]; [|by rewrite H1, H2].
    destruct (acceptsArguments _); [|by rewrite H1, H2].
    destruct H1 as (c1 & -> & Hs1 & _), H2 as (c2 & -> & Hs2 & _).
    cbn [sizeOf]. congruence.
Qed.

End JPEGFacts.


Module EngineFacts.
Import Engine.

Lemma selectStrategy_keeps_options this options k v :
  options !! k = Some v -> selectStrategy this options !! k = Some v.
Proof.
  intros Hk. unfold selectStrategy.
  destruct (strategyOf this _); by apply lookup_union_Some_l.
Qed.

Lemma selectStrategy_fills_in this options k :
  options !! k = None ->
  let level := or (prop options "compressionLevel") (compressionLevel this) in
  selectStrategy this options !! k =
  match strategyOf this level with
  | Some preset => (preset ∪ {[ "name"%string := level ]}) !! k
  | None => (default ∅ (compressionStrategy this)
             ∪ {[ "name"%string := VStr "custom" ]}) !! k
  end.
Proof.
  intros Hk level. unfold selectStrategy. fold level.
  destruct (strategyOf this level); by apply lookup_union_r.
Qed.

Lemma strategyOf_preset this s :
  s = "fast"%string \/ s = "balanced"%string \/ s = "maximum"%string ->
  strategyOf this (VStr s) = strategies this !! s /\
  exists q, strategies this !! s ≫= (.!! "quality"%string) = Some (VNum q) /\
            (7 # 10 <= q <= 9 # 10)%Q.
Proof.
  intros [-> | [-> | ->]]; (split; [reflexivity|]); eexists; (split; [reflexivity|]);
    split; intros H; discriminate H.
Qed.

(** C8, as the code has it.  Strategy selection is a function of the
    engine's configuration and of the preferences, defined on all of them:
    equal inputs give equal plans and nothing is thrown.  A preference
    that is absent is filled in: a missing compression level by the
    configured one, the fields of the plan by those of the preset of that
    level (whose quality lies between 0.7 and 0.9), or by the custom
    strategy when the level names no preset.  A preference that is
    present, valid or not, is copied to the plan unchanged.  In
    [determineCompressionStrategy] the quality is passed through
    unchanged unless the level is 'maximum' or 'fast'. *)
Theorem selectStrategy_total_and_keeps_preferences
    (this : Config) (options : gmap string value) :
  (forall this' options',
      this' = this -> options' = options ->
      selectStrategy this' options' = selectStrategy this options) /\
  (forall k v, options !! k = Some v ->
               selectStrategy this options !! k = Some v) /\
  (forall k, options !! k = None ->
     let level := or (prop options "compressionLevel") (compressionLevel this) in
     selectStrategy this options !! k =
     match strategyOf this level with
     | Some preset => (preset ∪ {[ "name"%string := level ]}) !! k
     | None => (default ∅ (compressionStrategy this)
                ∪ {[ "name"%string := VStr "custom" ]}) !! k
     end) /\
  (options !! "compressionLevel"%string = None ->
   or (prop options "compressionLevel") (compressionLevel this)
   = compressionLevel this) /\
  (forall s,
     s = "fast"%string \/ s = "balanced"%string \/ s = "maximum"%string ->
     strategyOf this (VStr s) = strategies this !! s /\
     exists q, strategies this !! s ≫= (.!! "quality"%string) = Some (VNum q) /\
               (7 # 10 <= q <= 9 # 10)%Q) /\
  (forall isFormatSupported imageData analysis preferences,
     p_compressionLevel preferences <> "maximum"%string ->
     p_compressionLevel preferences <> "fast"%string ->
     s_quality (determineCompressionStrategy isFormatSupported imageData
                  analysis preferences) = p_quality preferences).
Proof.
  split; [intros; subst; reflexivity|].
  split; [apply selectStrategy_keeps_options|].
  split; [apply selectStrategy_fills_in|].
  split; [intros Hlevel; unfold prop; rewrite Hlevel; reflexivity|].
  split; [apply strategyOf_preset|].
  intros isFormatSupported imageData analysis preferences Hmax Hfast.
  unfold determineCompressionStrategy; cbn [s_quality].
  rewrite !bool_decide_eq_false_2 by assumption. reflexivity.
Qed.

(** A caller that only asks for the format gets the quality, the effort
    and the progressive flag of the configured preset. *)
Lemma selectStrategy_total_and_keeps_preferences_witness :
  let this := mkConfig (VStr "fast") None (512 * 1024 * 1024) in
  let options : gmap string value := {[ "format"%string := VStr "jpeg" ]} in
  selectStrategy this options !! "format"%string = Some (VStr "jpeg") /\
  selectStrategy this options !! "quality"%string = Some (VNum (7 # 10)).
Proof.
  split; [|reflexivity].
  refine (proj1 (proj2 (selectStrategy_total_and_keeps_preferences _ _)) _ _ _).
  reflexivity.
Defined.

(** C8 refuted as stated: the quality 2 is not a quality of [0,1], and
    both selections hand it on instead of the default 0.8. *)
Lemma invalid_quality_is_not_replaced :
  let this := mkConfig (VStr "balanced") None (512 * 1024 * 1024) in
  let options : gmap string value := {[ "quality"%string := VNum 2 ]} in
  ~ (0 <= 2 <= 1)%Q /\
  selectStrategy this options !! "quality"%string = Some (VNum 2) /\
  selectStrategy this ∅ !! "quality"%string = Some (VNum (8 # 10)) /\
  s_quality (determineCompressionStrategy (fun _ => false)
               (mkImageData 1 1 [255; 0; 0; 255])
               (mkAnalysis false false true false)
               (mkPreferences (Some 2%Q) (VBool true) "auto" "balanced"))
  = Some 2%Q.
Proof.
  split; [intros [_ H]; vm_compute in H; congruence|].
  repeat split; reflexivity.
Qed.

End EngineFacts.

Module PNGFacts.
Import PNG JSFacts.

(** The loop of [selectFilter] returns the first candidate of least
    score. *)
Lemma bestOf_spec (score : Z -> Z) (candidates : list Z) :
  candidates <> [] ->
  exists i : nat,
    candidates !! i = Some (bestOf score candidates).1 /\
    (bestOf score candidates).2 = Some (score (bestOf score candidates).1) /\
    (forall (j : nat) g, candidates !! j = Some g ->
       score (bestOf score candidates).1 <= score g) /\
    (forall (j : nat) g, candidates !! j = Some g -> (j < i)%nat ->
       score (bestOf score candidates).1 < score g).
Proof.
  unfold bestOf.
  induction candidates as [|x pre IH] using rev_ind; [congruence|]; intros _.
  rewrite foldl_app. cbn [foldl].
  destruct pre as [|y pre'].
  { cbn. exists 0%nat. repeat split; auto.
    - intros [|j] g [= <-]; lia.
    - intros j g _ Hj. lia. }
  destruct IH as (i & Hi & Hs & Hmin & Hfirst); [discriminate|].
  set (pre := y :: pre') in *.
  destruct (foldl _ _ pre) as [bestFilter bestScore]. cbn [fst snd] in *.
  subst bestScore. cbn [better].
  assert (i < length pre)%nat as Hlt by (eapply lookup_lt_Some; eauto).
  destruct (Z.ltb_spec (score x) (score bestFilter)) as [Hx|Hx]; cbn [fst snd].
  - exists (length pre). split; [apply list_lookup_middle; reflexivity|].
    split; [reflexivity|]. split.
    + intros j g Hj. apply lookup_app_Some in Hj as [Hj|[_ Hj]].
      * specialize (Hmin j g Hj). lia.
      * apply list_lookup_singleton_Some in Hj as [_ <-]. lia.
    + intros j g Hj Hji. rewrite lookup_app_l in Hj by exact Hji.
      specialize (Hmin j g Hj). lia.
  - exists i. split; [rewrite lookup_app_l by exact Hlt; exact Hi|].
    split; [reflexivity|]. split.
    + intros j g Hj. apply lookup_app_Some in Hj as [Hj|[_ Hj]].
      * eauto.
      * apply list_lookup_singleton_Some in Hj as [_ <-]. lia.
    + intros j g Hj Hji. rewrite lookup_app_l in Hj by lia. eauto.
Qed.

(** A row whose bytes rise by a constant: the left-delta filter wins. *)
Example selectFilter_gradient_row :
  selectFilter [10; 20; 30; 255; 14; 24; 34; 255; 18; 28; 38; 255] 3 1 0 "auto"
  = Some FILTER_SUB.
Proof. reflexivity. Qed.

(** A row of zeros: all five scores are 0 and the first candidate
    stays. *)
Example selectFilter_tie_none :
  selectFilter [0; 0; 0; 0; 0; 0; 0; 0] 2 1 0 "auto" = Some FILTER_NONE.
Proof. reflexivity. Qed.








Lemma sortBy_length channel pixels : length (sortBy channel pixels) = length pixels.
Proof. unfold sortBy. apply Permutation_length, merge_sort_Permutation. Qed.

(** With no more pixels than colors, [medianCut] returns the pixels as
    they are. *)
Lemma medianCut_fits (fuel : nat) pixels maxColors :
  Z.of_nat (length pixels) <= maxColors ->
  medianCut (S fuel) pixels maxColors = Some pixels.
Proof.
  intros Hle. cbn [medianCut].
  destruct (Z.leb_spec (Z.of_nat (length pixels)) maxColors); [reflexivity|lia].
Qed.

(** With more pixels than colors, no depth of recursion suffices: one of
    the two halves again has more pixels than its share of the colors. *)
Lemma medianCut_never_splits (fuel : nat) pixels maxColors :
  maxColors < Z.of_nat (length pixels) ->
  medianCut fuel pixels maxColors = None.
Proof.
  revert pixels maxColors.
  induction fuel as [|fuel IH]; intros pixels maxColors Hgt; [reflexivity|].
  cbn [medianCut].
  destruct (Z.leb_spec (Z.of_nat (length pixels)) maxColors); [lia|].
  set (sorted := sortBy (widestChannel pixels) pixels).
  assert (length sorted = length pixels) as Hlen by apply sortBy_length.
  set (median := (length sorted / 2)%nat).
  assert (Z.of_nat median = Z.of_nat (length pixels) / 2) as Hmed.
  { unfold median. rewrite Hlen, Nat2Z.inj_div. reflexivity. }
  assert (median <= length sorted)%nat
    by (unfold median; apply Nat.Div0.div_le_upper_bound; lia).
  destruct (Z.lt_ge_cases (maxColors / 2) (Z.of_nat median)) as [Hleft|Hleft].
  - rewrite (IH (take median sorted)); [reflexivity|].
    rewrite length_take, Nat.min_l by assumption. exact Hleft.
  - rewrite (IH (drop median sorted) ((maxColors + 1) / 2)).
    + destruct (medianCut fuel (take median sorted) (maxColors / 2)); reflexivity.
    + rewrite length_drop, Nat2Z.inj_sub, Hlen by assumption.
      rewrite Hmed in *. clear -Hgt Hleft.
      Z.div_mod_to_equations. lia.
Qed.

(** C5 at two pixels and one color: the claim asks for the palette of one
    color, the mean (5, 0, 0); the recursion never returns, whatever
    depth it is allowed. *)
Theorem medianCut_two_pixels_one_color_diverges :
  forall fuel : nat, medianCut fuel [(0, 0, 0); (10, 0, 0)] 1 = None.
Proof. intros fuel. apply medianCut_never_splits. cbn. lia. Qed.

End PNGFacts.

Module AnalyzerFacts.
Import Analyzer JSFacts.

Lemma hasAlpha_foldl data acc (l : list Z) :
  hasAlpha (foldl (analyzePixel data) acc l) =
  hasAlpha acc || existsb (fun i => below255 (JS.get data (i + 3))) l.
Proof.
  revert acc. induction l as [|i l IH]; intros acc; cbn [foldl existsb].
  - rewrite orb_false_r. reflexivity.
  - rewrite IH. unfold analyzePixel; cbn [hasAlpha].
    destruct (below255 (JS.get data (i + 3))), (hasAlpha acc); reflexivity.
Qed.

(** C3, as the code has it: [analyze] is a function of the buffer, it
    compares the length of the data with the dimensions nowhere, and it
    returns statistics for every buffer, whether the length is
    [width * height * 4] or not.  The alpha flag it reports is set
    exactly when some pixel has an alpha sample below 255. *)
Theorem analyze_accepts_every_buffer (imageData : ImageData) :
  exists analysis,
    analyze imageData = Ok analysis /\
    a_width analysis = width imageData /\
    a_height analysis = height imageData /\
    pixelCount analysis = width imageData * height imageData /\
    (hasAlpha (pixels analysis) = true <->
     exists k alpha,
       0 <= 4 * k < Z.of_nat (length (data imageData)) /\
       JS.get (data imageData) (4 * k + 3) = Some alpha /\ alpha < 255).
Proof.
  eexists. split; [reflexivity|]. cbn [a_width a_height pixelCount pixels].
  repeat split; try reflexivity.
  - unfold analyzePixels. rewrite hasAlpha_foldl. cbn [hasAlpha orb].
    intros (i & Hi & Hlt)%existsb_exists.
    apply list_elem_of_In, elem_of_range_step in Hi as (Hi & k & ->); [|lia].
    destruct (JS.get (data imageData) (4 * k + 3)) as [alpha|] eqn:Ha;
      [|discriminate].
    exists k, alpha. cbn in Hlt. apply Z.ltb_lt in Hlt. auto.
  - intros (k & alpha & Hk & Ha & Hlt).
    unfold analyzePixels. rewrite hasAlpha_foldl. cbn [hasAlpha orb].
    apply existsb_exists. exists (4 * k). split.
    + apply list_elem_of_In, elem_of_range_step; [lia|]. eauto.
    + rewrite Ha. cbn. apply Z.ltb_lt. exact Hlt.
Qed.

(** C3 refuted as stated: five bytes are not the [1 * 1 * 4] bytes of a
    one-pixel buffer, and [analyze] returns its statistics for them. *)
Lemma mismatched_buffer_is_analyzed :
  let imageData := mkImageData 1 1 [10; 20; 30; 40; 50] in
  Z.of_nat (length (data imageData)) <> width imageData * height imageData * 4 /\
  exists analysis,
    analyze imageData = Ok analysis /\
    hasAlpha (pixels analysis) = true /\
    isGrayscale (pixels analysis) = false /\
    alphaPixels (pixels analysis) = 1 /\
    uniqueColorCount analysis = 2.
Proof.
  split; [cbn; lia|]. eexists. split; [reflexivity|].
  repeat split; vm_compute; reflexivity.
Qed.

End AnalyzerFacts.

Module WorkerPoolFacts.
Import WorkerPool.

Lemma busy_filter_length (ws : list WorkerInfo) :
  (length (filter (fun w => busy w = true) ws) <= length ws)%nat.
Proof. apply length_filter. Qed.

Lemma busy_count_cons (w : WorkerInfo) (ws : list WorkerInfo) :
  length (filter (fun w => busy w = true) (w :: ws))
  = ((if busy w then 1 else 0)
     + length (filter (fun w => busy w = true) ws))%nat.
Proof.
  destruct (busy w) eqn:Hb.
  - rewrite filter_cons_True by exact Hb. reflexivity.
  - rewrite filter_cons_False by congruence. reflexivity.
Qed.

Lemma findAvailable_None (ws : list WorkerInfo) :
  findAvailable ws = None ->
  length (filter (fun w => busy w = true) ws) = length ws.
Proof.
  induction ws as [|w ws IH]; [reflexivity|]. cbn [findAvailable].
  rewrite busy_count_cons.
  destruct (busy w); [|discriminate].
  destruct (findAvailable ws); [discriminate|]. intros _.
  cbn [length]. rewrite IH; reflexivity.
Qed.

Lemma findAvailable_Some (ws : list WorkerInfo) (i : nat) :
  findAvailable ws = Some i ->
  length (filter (fun w => busy w = true) (alter (setBusy true) i ws))
  = S (length (filter (fun w => busy w = true) ws)) /\
  length (alter (setBusy true) i ws) = length ws.
Proof.
  split; [|apply length_alter].
  revert i H. induction ws as [|w ws IH]; intros i; [discriminate|].
  cbn [findAvailable]. destruct (busy w) eqn:Hb.
  - destruct (findAvailable ws) as [j|]; [|discriminate]. intros [= <-].
    cbn [alter list_alter]. fold (alter (setBusy true) j ws).
    rewrite !busy_count_cons, Hb, (IH j eq_refl). lia.
  - intros [= <-]. cbn [alter list_alter].
    rewrite !busy_count_cons, Hb. cbn [setBusy busy]. lia.
Qed.

Lemma unbusy_count (f : WorkerInfo -> WorkerInfo) (w : nat) (ws : list WorkerInfo) :
  (length (filter (fun w => busy w = true) ws)
   <= S (length (filter (fun w => busy w = true) (alter f w ws))))%nat /\
  length (alter f w ws) = length ws.
Proof.
  split; [|apply length_alter].
  revert w. induction ws as [|x ws IH]; intros w; [cbn; lia|].
  destruct w as [|w]; cbn [alter list_alter].
  - rewrite !busy_count_cons. destruct (busy x), (busy (f x)); lia.
  - fold (alter f w ws). specialize (IH w).
    rewrite !busy_count_cons. destruct (busy x); lia.
Qed.

Section Facts.
Context {K D : Type} `{EqDecision K}.
Implicit Types (p : t K D) (m : list (K * (K * D))).

Lemma set_length_le (k : K) (v : K * D) m :
  (length (OMap.set k v m) <= S (length m))%nat.
Proof.
  induction m as [|[k' v'] m IH]; cbn; [lia|].
  destruct (decide (k' = k)); cbn; lia.
Qed.

Lemma delete_length_lt (k : K) (v : K * D) m :
  OMap.get k m = Some v -> (S (length (OMap.delete k m)) <= length m)%nat.
Proof.
  unfold OMap.delete. induction m as [|[k' v'] m IH]; [discriminate|].
  cbn [OMap.get]. destruct (decide (k' = k)) as [->|Hne].
  - intros _. rewrite filter_cons_False by (cbn; tauto).
    pose proof (length_filter (fun p : K * (K * D) => p.1 ≠ k) m).
    cbn [length]. lia.
  - intros Hg. rewrite filter_cons_True by (cbn; tauto).
    cbn [length]. specialize (IH Hg). lia.
Qed.

Lemma processQueue_Inv (n : nat) (ids : list K) p :
  length (workers p) = n ->
  (length (activeTasks p) <= busyCount p)%nat ->
  (taskQueue p = [] \/ (n <= S (busyCount p))%nat
   \/ exists task, taskQueue p = [task]) ->
  (posted p).*2 ++ (taskQueue p).*1 = ids ->
  Inv n ids (processQueue p).
Proof.
  intros Hn Hact Hq Hids. unfold processQueue.
  destruct (taskQueue p) as [|task rest] eqn:Hqueue.
  { unfold Inv. rewrite Hqueue. auto. }
  pose proof (busy_filter_length (workers p)) as Hle. fold (busyCount p) in Hle.
  destruct (findAvailable (workers p)) as [i|] eqn:Hfind.
  - destruct (findAvailable_Some _ _ Hfind) as [Hcount Hlen].
    pose proof (busy_filter_length (alter (setBusy true) i (workers p)))
      as Hle'.
    rewrite Hcount, Hlen in Hle'.
    unfold Inv, busyCount; cbn [workers taskQueue activeTasks posted].
    fold (busyCount p) in Hcount, Hle'. rewrite Hcount, Hlen.
    split; [exact Hn|]. split.
    { pose proof (set_length_le task.1 task (activeTasks p)). lia. }
    split.
    { destruct Hq as [Hq|[Hq|[t' Hq]]]; [discriminate|right; lia|].
      injection Hq as _ ->. left; reflexivity. }
    rewrite fmap_app, <- app_assoc. exact Hids.
  - apply findAvailable_None in Hfind. fold (busyCount p) in Hfind.
    unfold Inv. rewrite Hqueue. repeat split; auto. right. lia.
Qed.

Lemma step_Inv (n : nat) (ids : list K) p (e : event K D) :
  Inv n ids p -> Inv n (ids ++ submitted [e]) (step p e).
Proof.
  intros (Hn & Hact & Hq & Hids). destruct e as [taskId data|w taskId error];
    cbn [step submitted mbind list_bind app].
  - unfold process. apply processQueue_Inv; cbn [workers taskQueue activeTasks posted].
    + exact Hn.
    + exact Hact.
    + destruct Hq as [->|Hq]; [right; right; eexists; reflexivity|].
      right; left. unfold busyCount in *; cbn [workers]. lia.
    + rewrite fmap_app, app_assoc, Hids. reflexivity.
  - rewrite app_nil_r. unfold handleWorkerMessage.
    destruct (OMap.get taskId (activeTasks p)) as [task|] eqn:Hget;
      [|unfold Inv; auto].
    set (f := fun wi => {| id := id wi; busy := false;
                           tasksCompleted := tasksCompleted wi + 1 |}).
    destruct (unbusy_count f w (workers p)) as [Hcount Hlen].
    apply processQueue_Inv; unfold busyCount in *;
      cbn [workers taskQueue activeTasks posted].
    + rewrite Hlen. exact Hn.
    + pose proof (delete_length_lt _ _ _ Hget). lia.
    + destruct Hq as [Hq|Hq]; [left; exact Hq|]. right; left. lia.
    + exact Hids.
Qed.

Lemma run_snoc (events : list (event K D)) (e : event K D) p :
  run (events ++ [e]) p = step (run events p) e.
Proof. unfold run. rewrite foldl_app. reflexivity. Qed.

Lemma submitted_app (es1 es2 : list (event K D)) :
  submitted (es1 ++ es2) = submitted es1 ++ submitted es2.
Proof. unfold submitted. apply bind_app. Qed.

(** X4: The pool is bounded, work-conserving and first-in-first-out: after
    any sequence of submissions and worker messages on a pool of idle
    workers, the number of tasks in flight is at most the number of busy
    workers, hence of workers; a task only waits while every worker is
    busy; and the tasks posted to workers, followed by those still
    queued, are the submitted tasks in the order of submission. *)
Theorem worker_pool_bounded_fifo (ids : list Z) (events : list (event K D)) :
  let p := run events (ready ids) in
  length (workers p) = length ids /\
  (length (activeTasks p) <= busyCount p <= length ids)%nat /\
  (taskQueue p = [] \/ busyCount p = length ids) /\
  (posted p).*2 ++ (taskQueue p).*1 = submitted events.
Proof.
  cbn zeta.
  assert (Inv (length ids) (submitted events) (run events (ready ids)))
    as (Hn & Hact & Hq & Hids).
  { induction events as [|e events IH] using rev_ind.
    - unfold Inv, ready, busyCount; cbn. rewrite length_fmap.
      repeat split; auto. lia.
    - rewrite run_snoc, submitted_app. apply step_Inv. exact IH. }
  split; [exact Hn|]. split; [|auto].
  split; [exact Hact|].
  pose proof (busy_filter_length (workers (run events (ready ids)))) as Hle.
  unfold busyCount. lia.
Qed.

End Facts.
End WorkerPoolFacts.

Module ErrorPolicyFacts.
Import ErrorHandler ErrorPolicy.

(** The count recorded for a code, 0 when there is none. *)
Lemma count_trackError h e c :
  default 0 (errorCounts (trackError h e) !! c) =
  default 0 (errorCounts h !! c) + (if decide (code e = c) then 1 else 0).
Proof.
  unfold trackError; cbn [errorCounts]. destruct (decide (code e = c)) as [->|Hne].
  - rewrite lookup_insert_eq. reflexivity.
  - rewrite lookup_insert_ne by exact Hne. lia.
Qed.

Lemma handleError_tracks recovers h e :
  (handleError recovers h e).1 = trackError h e.
Proof.
  unfold handleError. destruct (_ && _); [reflexivity|].
  destruct (shouldRetry_flag _); reflexivity.
Qed.

Lemma handleAll_snoc recovers h es e :
  handleAll recovers h (es ++ [e])
  = trackError (handleAll recovers h es) e.
Proof.
  unfold handleAll. rewrite foldl_app. cbn [foldl].
  apply handleError_tracks.
Qed.

Lemma occurrences_snoc c es e :
  occurrences c (es ++ [e])
  = occurrences c es + (if decide (code e = c) then 1 else 0).
Proof.
  unfold occurrences. rewrite filter_app, length_app, (filter_cons _ e []).
  rewrite filter_nil. destruct (decide (code e = c)); cbn [length]; lia.
Qed.

Lemma handleAll_options recovers o es :
  options (handleAll recovers (new o) es) = o.
Proof.
  induction es as [|e es IH] using rev_ind; [reflexivity|].
  rewrite handleAll_snoc. exact IH.
Qed.

Lemma handleAll_count recovers o es c :
  default 0 (errorCounts (handleAll recovers (new o) es) !! c)
  = occurrences c es.
Proof.
  induction es as [|e es IH] using rev_ind; [reflexivity|].
  rewrite handleAll_snoc, count_trackError, occurrences_snoc, IH. reflexivity.
Qed.

Lemma totalErrors_trackError h e :
  totalErrors (trackError h e) = totalErrors h + 1.
Proof.
  unfold totalErrors, trackError; cbn [errorCounts].
  set (m := errorCounts h). set (c := code e).
  assert (forall (m' : gmap string Z) j1 j2 z1 z2 y,
             j1 <> j2 -> m' !! j1 = Some z1 -> m' !! j2 = Some z2 ->
             y + z2 + z1 = y + z1 + z2) as Hcomm by (intros; lia).
  rewrite <- insert_delete_eq.
  rewrite map_fold_insert_L; [|apply Hcomm|apply lookup_delete_eq].
  destruct (m !! c) as [count|] eqn:Hc; cbn [default].
  - rewrite (map_fold_delete_L _ _ c count m); [unfold id; lia|apply Hcomm|exact Hc].
  - rewrite delete_id by exact Hc. cbv beta. lia.
Qed.

(** X5: The handler counts what it handled: after a series of errors the
    count kept for a code is the number of errors of that code, and
    [getErrorStats] reports as [totalErrors] the number of all errors. *)
Theorem errorCounts_count_occurrences
    (recovers : KompreserError -> bool) (o : Options)
    (es : list KompreserError) :
  let h := handleAll recovers (new o) es in
  (forall c, default 0 (errorCounts h !! c) = occurrences c es) /\
  (forall c, errorCounts h !! c = None <-> occurrences c es = 0) /\
  totalErrors h = Z.of_nat (length es).
Proof.
  cbn zeta. split; [intros c; apply handleAll_count|]. split.
  - intros c. induction es as [|e es IH] using rev_ind.
    + cbn. split; [reflexivity|intros _; apply lookup_empty].
    + rewrite handleAll_snoc, occurrences_snoc.
      unfold trackError; cbn [errorCounts].
      assert (0 <= occurrences c es) by (unfold occurrences; lia).
      destruct (decide (code e = c)) as [->|Hne].
      * rewrite lookup_insert_eq. split; [discriminate|lia].
      * rewrite lookup_insert_ne by exact Hne. rewrite IH. lia.
  - induction es as [|e es IH] using rev_ind; [reflexivity|].
    rewrite handleAll_snoc, totalErrors_trackError, IH, length_app.
    cbn [length]. lia.
Qed.

(** X6: Retries are bounded by the history of the handler.  An error that is
    not recovered is answered with "retry" exactly when its code is one
    of the three retryable codes and, this error included, at most
    [maxRetries] errors of that code were handled; the attempt number is
    that count.  Counts are not reset by a success in between. *)
Theorem handleError_retries_by_history
    (recovers : KompreserError -> bool) (o : Options)
    (es : list KompreserError) (e : KompreserError) :
  let h := handleAll recovers (new o) es in
  let n := occurrences (code e) es + 1 in
  (handleError recovers h e).2 =
  if enableRecovery o && recovers e then Recovered
  else if (n <=? maxRetries o) && isRetryableError e then Retry n
  else GaveUp.
Proof.
  cbn zeta. unfold handleError.
  set (h := handleAll recovers (new o) es).
  assert (options (trackError h e) = o) as Ho by apply handleAll_options.
  rewrite Ho. destruct (enableRecovery o && recovers e); [reflexivity|].
  unfold shouldRetry. rewrite Ho, count_trackError.
  rewrite decide_True by reflexivity.
  unfold h. rewrite handleAll_count.
  destruct ((occurrences (code e) es + 1 <=? maxRetries o) && isRetryableError e);
    reflexivity.
Qed.

Lemma getLogLevel_severity e : getLogLevel (severity e) = Some 1.
Proof.
  unfold severity, getSeverity.
  destruct (OMap.get (code e) severityMap) as [s|] eqn:Hs.
  - assert (s = "HIGH" \/ s = "MEDIUM" \/ s = "LOW")%string as Hcases.
    { revert Hs. unfold severityMap. cbn [OMap.get].
      repeat (destruct (decide _); [intros [= <-]; auto|]).
      discriminate. }
    destruct Hcases as [-> | [-> | ->]]; reflexivity.
  - destruct (bool_decide _); reflexivity.
Qed.

Lemma getLogLevel_lower_bound s l : getLogLevel s = Some l -> 1 <= l.
Proof.
  unfold getLogLevel. destruct s as [s|]; [|intros [= <-]; lia].
  destruct (OMap.get s levels) as [v|] eqn:Hv.
  - revert Hv. unfold levels. cbn [OMap.get].
    repeat (destruct (decide _); [intros [= <-] [= <-]; cbn; lia|]).
    discriminate.
  - destruct (bool_decide _); [discriminate|]. intros [= <-]. lia.
Qed.

(** X7: Logging is gated by the configured level alone.  Every error has the
    level 1 whatever its severity, so it is written to the console
    exactly when the configured level counts as 1: under 'DEBUG' and
    'INFO' every error is logged, under 'WARN', 'ERROR' and 'FATAL' none
    is, not even one of severity HIGH. *)
Theorem logError_gated_by_configured_level (logLevel : string) (e : KompreserError) :
  (is_Some (logError logLevel e) <-> getLogLevel (Some logLevel) = Some 1) /\
  is_Some (logError "DEBUG" e) /\ is_Some (logError "INFO" e) /\
  logError "WARN" e = None /\ logError "ERROR" e = None /\
  logError "FATAL" e = None.
Proof.
  unfold logError. rewrite !getLogLevel_severity.
  split; [|repeat split; cbn; eauto].
  destruct (getLogLevel (Some logLevel)) as [l|] eqn:Hl.
  - apply getLogLevel_lower_bound in Hl.
    destruct (Z.leb_spec l 1) as [Hle|Hgt].
    + split; [intros _; f_equal; lia|eauto].
    + split; [intros [? ?]; discriminate|intros [= ->]; lia].
  - split; [intros [? ?]; discriminate|discriminate].
Qed.

End ErrorPolicyFacts.

Module EngineStatsFacts.
Import EngineStats.

Lemma record_snoc {D : Type} (jobs : list (Original * option Z * D))
    original compressedSize duration :
  record (jobs ++ [(original, compressedSize, duration)])
  = updateCompressionStats (record jobs) original compressedSize duration.
Proof. unfold record. rewrite foldl_app. reflexivity. Qed.

(** Adding one more size to the sum of the sizes of a list of jobs. *)
Lemma addBytes_snoc {A : Type} (f : A -> option Z) (l : list A) (x : A) :
  addBytes (foldr Z.add 0 <$> mapM f l) (f x)
  = foldr Z.add 0 <$> mapM f (l ++ [x]).
Proof.
  assert (forall k : list Z, forall v, foldr Z.add 0 (k ++ [v]) = foldr Z.add 0 k + v)
    as Hsum.
  { intros k v. induction k as [|y k IHk]; cbn; lia. }
  assert (mapM f (l ++ [x])
          = k ← mapM f l; v ← f x; Some (k ++ [v])) as ->.
  { induction l as [|y l IH]; cbn.
    - destruct (f x); reflexivity.
    - destruct (f y) as [w|]; cbn; [|reflexivity].
      rewrite IH. destruct (mapM f l) as [k|]; cbn; [|reflexivity].
      destruct (f x); reflexivity. }
  unfold addBytes. destruct (mapM f l) as [k|]; cbn; [|reflexivity].
  destruct (f x) as [v|]; cbn; [|reflexivity].
  by rewrite Hsum.
Qed.

(** X8: The statistics of the engine after any number of compressions:
    [totalProcessed] is the number of jobs and [processingTimes] holds the
    durations of the last 100 jobs, oldest first, never more.  Each total
    of bytes is the sum over the jobs while every job gave a size; from
    the first job that gave none (for the input: an image whose data is
    absent or empty and that has no [size]) the total is [NaN]. *)
Theorem stats_keep_last_100_times {D : Type}
    (jobs : list (Original * option Z * D)) :
  let stats := record jobs in
  totalProcessed stats = Z.of_nat (length jobs) /\
  totalBytesBefore stats
  = foldr Z.add 0 <$> mapM (fun j => inputBytes j.1.1) jobs /\
  totalBytesAfter stats = foldr Z.add 0 <$> mapM (fun j => j.1.2) jobs /\
  (is_Some (totalBytesBefore stats) <->
   Forall (fun j => is_Some (dataLength j.1.1) /\ dataLength j.1.1 <> Some 0 \/
                    is_Some (originalSize j.1.1)) jobs) /\
  (is_Some (totalBytesAfter stats) <-> Forall (fun j => is_Some j.1.2) jobs) /\
  processingTimes stats = drop (length jobs - 100) (snd <$> jobs) /\
  (length (processingTimes stats) <= 100)%nat.
Proof.
  cbn zeta.
  assert (totalProcessed (record jobs) = Z.of_nat (length jobs) /\
          totalBytesBefore (record jobs)
          = foldr Z.add 0 <$> mapM (fun j => inputBytes j.1.1) jobs /\
          totalBytesAfter (record jobs)
          = foldr Z.add 0 <$> mapM (fun j => j.1.2) jobs /\
          processingTimes (record jobs) = drop (length jobs - 100) (snd <$> jobs) /\
          (length (processingTimes (record jobs)) <= 100)%nat)
    as (Hn & Hb & Ha & Ht & Hl).
  { induction jobs as [|[[o c] d] jobs IH] using rev_ind.
    { cbn. repeat split; auto. lia. }
    destruct IH as (Hn & Hb & Ha & Ht & Hl).
    rewrite record_snoc. unfold updateCompressionStats.
    cbn [totalProcessed totalBytesBefore totalBytesAfter processingTimes].
    rewrite Hn, Hb, Ha, Ht.
    rewrite <- !addBytes_snoc. cbn [fst snd].
    rewrite fmap_app.
    change (snd <$> [(o, c, d)]) with [d].
    set (ts := snd <$> jobs) in *.
    assert (length ts = length jobs) as Hts by apply length_fmap.
    rewrite (length_app jobs). cbn [length]. rewrite <- Hts.
    split; [lia|]. split; [reflexivity|]. split; [reflexivity|].
    assert (length (drop (length ts - 100) ts ++ [d])
            = S (length ts - (length ts - 100))) as Hlen
      by (rewrite length_app, length_drop; cbn [length]; lia).
    rewrite Hlen.
    destruct (Z.ltb_spec 100 (Z.of_nat (S (length ts - (length ts - 100))))).
    - assert (drop 1 (drop (length ts - 100) ts ++ [d])
              = drop (length ts + 1 - 100) (ts ++ [d])) as ->.
      { rewrite <- (drop_app_le ts [d]) by lia. rewrite drop_drop.
        f_equal. lia. }
      split; [reflexivity|]. rewrite length_drop, length_app. cbn [length]. lia.
    - assert (drop (length ts - 100) ts ++ [d]
              = drop (length ts + 1 - 100) (ts ++ [d])) as ->.
      { rewrite <- (drop_app_le ts [d]) by lia. f_equal. lia. }
      split; [reflexivity|]. rewrite length_drop, length_app. cbn [length]. lia. }
  repeat (split; [assumption|]). split; [|split; [|split; assumption]].
  - rewrite Hb, fmap_is_Some, mapM_is_Some.
    apply Forall_iff. intros [[o c] d]. cbn [fst compose]. unfold inputBytes.
    destruct (dataLength o) as [n|]; [destruct (Z.eqb_spec n 0) as [->|Hn0]|].
    + split; [intros H; right; exact H|intros [[_ H]|H]; [congruence|exact H]].
    + split; [intros _; left; split; [eauto|congruence]|eauto].
    + split; [intros H; right; exact H|].
      intros [[[? H] _]|H]; [discriminate|exact H].
  - rewrite Ha, fmap_is_Some, mapM_is_Some. reflexivity.
Qed.

(** The engine's validation accepts an image exactly when both
    dimensions lie between 1 and 32767. *)
Theorem validateInput_accepts_iff (imageData : ImageData) :
  Engine.validateInput imageData = None <->
  1 <= width imageData <= 32767 /\ 1 <= height imageData <= 32767.
Proof.
  unfold Engine.validateInput.
  destruct (Z.eqb_spec (width imageData) 0), (Z.eqb_spec (height imageData) 0);
    cbn [orb]; try (split; [discriminate|lia]).
  destruct (Z.ltb_spec 32767 (width imageData)),
           (Z.ltb_spec 32767 (height imageData));
    cbn [orb]; try (split; [discriminate|lia]).
  destruct (Z.ltb_spec (width imageData) 1),
           (Z.ltb_spec (height imageData) 1);
    cbn [orb]; try (split; [discriminate|lia]).
  split; [lia|reflexivity].
Qed.

End EngineStatsFacts.

Module JPEGMoreFacts.
Import JPEG JSFacts JPEGFacts.

Lemma quantTable_entries channel :
  length (quantTable channel) = 64%nat /\
  Forall (fun t => 10 <= t <= 121) (quantTable channel).
Proof.
  unfold quantTable. destruct (channel =? 0); (split; [reflexivity|]);
    apply Forall_forall; intros t Ht;
    repeat (apply elem_of_cons in Ht as [->|Ht]; [lia|]);
    by apply elem_of_nil in Ht.
Qed.

Lemma calculateQualityScale_range (quality : Q) :
  (1 # 2 <= calculateQualityScale quality <= 2)%Q.
Proof.
  unfold calculateQualityScale.
  repeat (destruct (Qle_bool _ _)); split; intros H; discriminate H.
Qed.

(** X9: The quantizer never divides by zero: whatever the quality, the step
    of each of the 64 coefficients of a channel lies between 5 and
    242. *)
Theorem quantStep_between_5_and_242 (channel : Z) (i : nat) (quality : Q) :
  (i < 64)%nat ->
  (5 <= quantStep channel i (calculateQualityScale quality) <= 242)%Q.
Proof.
  intros Hi. destruct (quantTable_entries channel) as [Hlen Hall].
  destruct (lookup_lt_is_Some_2 (quantTable channel) i) as [t Ht]; [lia|].
  eapply Forall_lookup_1 in Hall; [|exact Ht].
  unfold quantStep. rewrite Ht. cbn [default from_option]. unfold id.
  assert (10 <= inject_Z t <= 121)%Q as [Ht1 Ht2].
  { split; [change 10%Q with (inject_Z 10)|change 121%Q with (inject_Z 121)];
      rewrite <- Zle_Qle; lia. }
  pose proof (calculateQualityScale_range quality) as [Hlo Hhi].
  clear Ht Hall.
  revert Ht1 Ht2 Hlo Hhi.
  generalize (inject_Z t), (calculateQualityScale quality).
  intros T s HT1 HT2 Hlo Hhi.
  assert (0 <= (T - 10) * (s - (1 # 2)))%Q by (apply Qmult_le_0_compat; Lqa.lra).
  assert (0 <= (121 - T) * s)%Q by (apply Qmult_le_0_compat; Lqa.lra).
  split; Lqa.lra.
Qed.

Lemma quantStep_between_5_and_242_witness :
  (5 <= quantStep 0 63 (calculateQualityScale (1 # 10)) <= 242)%Q.
Proof. apply quantStep_between_5_and_242. lia. Defined.

Lemma elem_of_blockOffsets y x :
  (y, x) ∈ blockOffsets -> 0 <= y < 8 /\ 0 <= x < 8.
Proof.
  unfold blockOffsets. intros Hin.
  apply list_elem_of_bind in Hin as (y' & Hin & Hy%elem_of_seqZ).
  apply list_elem_of_bind in Hin as (x' & Hin & Hx%elem_of_seqZ).
  apply list_elem_of_singleton in Hin as [= -> ->]. lia.
Qed.

Lemma pixelIndex_in_image w h startX startY channel y x :
  1 <= w -> 1 <= h -> 0 <= startX < w -> 0 <= startY < h ->
  0 <= channel < 3 -> 0 <= y -> 0 <= x ->
  0 <= pixelIndex w h startX startY channel y x < w * h * 4.
Proof.
  intros Hw Hh HX HY Hc Hy Hx. unfold pixelIndex.
  set (pixelX := Z.min (startX + x) (w - 1)).
  set (pixelY := Z.min (startY + y) (h - 1)).
  assert (0 <= pixelX <= w - 1) by (unfold pixelX; lia).
  assert (0 <= pixelY <= h - 1) by (unfold pixelY; lia).
  assert (0 <= pixelY * w + pixelX <= w * h - 1) by nia.
  lia.
Qed.

(** X10: Edge blocks stay inside the image: for an image whose data has the
    [width * height * 4] samples and a block that starts inside it,
    [extractBlock] returns 64 samples and none of them is read outside
    the data. *)
Theorem extractBlock_reads_inside_image
    (data : list Z) (w h startX startY channel : Z) :
  1 <= w -> 1 <= h -> Z.of_nat (length data) = w * h * 4 ->
  0 <= startX < w -> 0 <= startY < h -> 0 <= channel < 3 ->
  length (extractBlock data w h startX startY channel) = 64%nat /\
  Forall is_Some (extractBlock data w h startX startY channel).
Proof.
  intros Hw Hh Hlen HX HY Hc. unfold extractBlock. split.
  - rewrite length_fmap. reflexivity.
  - apply Forall_fmap, Forall_forall. intros [y x] Hin%elem_of_blockOffsets.
    cbn. apply fmap_is_Some, get_Some_iff. rewrite Hlen.
    apply pixelIndex_in_image; lia.
Qed.

Lemma extractBlock_reads_inside_image_witness :
  Forall is_Some (extractBlock [1; 2; 3; 4; 5; 6; 7; 8] 2 1 0 0 1).
Proof.
  refine (proj2 (extractBlock_reads_inside_image _ 2 1 0 0 1 _ _ _ _ _ _));
    cbn; lia.
Defined.

Lemma writeBlock_alpha d w h x y channel qb k :
  0 <= channel < 3 ->
  JS.get (writeBlock d w h x y channel qb) (4 * k + 3) = JS.get d (4 * k + 3).
Proof.
  intros Hc. unfold writeBlock.
  apply (foldl_preserves
           (fun out => JS.get out (4 * k + 3) = JS.get d (4 * k + 3)));
    [|reflexivity].
  intros out [y' x'] Hout. rewrite get_set_ne; [exact Hout|].
  unfold pixelIndex. lia.
Qed.

Lemma clamp255_byte v : 0 <= clamp255 v <= 255.
Proof. unfold clamp255. lia. Qed.

Lemma set_bytes (a : list Z) i v :
  0 <= v <= 255 -> Forall (fun b => 0 <= b <= 255) a ->
  Forall (fun b => 0 <= b <= 255) (JS.set a i v).
Proof.
  intros Hv Ha. unfold JS.set. destruct (0 <=? i); [|exact Ha].
  apply Forall_insert; assumption.
Qed.

Lemma writeBlock_bytes d w h x y channel qb :
  Forall (fun b => 0 <= b <= 255) d ->
  Forall (fun b => 0 <= b <= 255) (writeBlock d w h x y channel qb).
Proof.
  intros Hd. unfold writeBlock.
  apply (foldl_preserves (Forall (fun b => 0 <= b <= 255))); [|exact Hd].
  intros out [y' x'] Hout. apply set_bytes; [apply clamp255_byte|exact Hout].
Qed.

Section PipelineMore.
Context {F : Type}.
Variable applyDCT : list (option Z) -> list F.
Variable roundDiv : F -> Q -> Z.

(** X11: The quantized image keeps no alpha: whatever the kernels compute,
    [performDCTQuantization] returns as many samples as it is given, all
    of them bytes, and the alpha sample of every pixel is 0. *)
Theorem performDCTQuantization_drops_alpha
    (ycbcrData : list Z) (w h : Z) (quality : Q) (k : Z) :
  0 <= 4 * k + 3 < Z.of_nat (length ycbcrData) ->
  let processedData :=
    performDCTQuantization applyDCT roundDiv ycbcrData w h quality in
  length processedData = length ycbcrData /\
  Forall (fun b => 0 <= b <= 255) processedData /\
  JS.get processedData (4 * k + 3) = Some 0.
Proof.
  intros Hk processedData.
  split; [apply performDCTQuantization_length|]. split.
  - unfold processedData, performDCTQuantization.
    apply (foldl_preserves (Forall (fun b => 0 <= b <= 255)));
      [|apply Forall_replicate; lia].
    intros out y Hout.
    apply (foldl_preserves (Forall (fun b => 0 <= b <= 255))); [|exact Hout].
    intros out1 x Hout1.
    apply (foldl_preserves (Forall (fun b => 0 <= b <= 255))); [|exact Hout1].
    intros out2 ch Hout2. by apply writeBlock_bytes.
  - unfold processedData, performDCTQuantization.
    set (P := fun out : list Z => JS.get out (4 * k + 3) = Some 0).
    apply (foldl_preserves P).
    + intros out y Hout. apply (foldl_preserves P); [|exact Hout].
      intros out1 x Hout1. cbn [foldl]. unfold P.
      rewrite !writeBlock_alpha by lia. exact Hout1.
    + unfold P, JS.get. destruct (Z.leb_spec 0 (4 * k + 3)); [|lia].
      apply lookup_replicate_2. lia.
Qed.

End PipelineMore.

Lemma performDCTQuantization_drops_alpha_witness :
  JS.get (performDCTQuantization (fun b => b) (fun _ _ => 7)
            [10; 20; 30; 255] 1 1 (8 # 10)) (4 * 0 + 3) = Some 0.
Proof.
  refine (proj2 (proj2 (performDCTQuantization_drops_alpha
                          (fun b => b) (fun _ _ => 7)
                          [10; 20; 30; 255] 1 1 (8 # 10) 0 _))).
  cbn. lia.
Defined.

End JPEGMoreFacts.

Module JPEGStreamFacts.
Import JPEG JSFacts JPEGFacts.

Lemma land_255 x : Z.land x 0xFF = x mod 256.
Proof. change 0xFF with (Z.ones 8). rewrite Z.land_ones by lia. reflexivity. Qed.

(** X12: The frame header holds the dimensions: bytes 25 to 28 of the stream
    are the height and the width, each as two bytes, high byte first, so
    that every dimension below 65536, and so every dimension the engine
    accepts, can be read back from the stream. *)
Theorem encodeJPEG_header_holds_dimensions
    (processedData : list Z) (w h : Z) :
  0 <= w < 65536 -> 0 <= h < 65536 ->
  exists hHigh hLow wHigh wLow,
    encodeJPEG processedData w h !! 25%nat = Some hHigh /\
    encodeJPEG processedData w h !! 26%nat = Some hLow /\
    encodeJPEG processedData w h !! 27%nat = Some wHigh /\
    encodeJPEG processedData w h !! 28%nat = Some wLow /\
    256 * hHigh + hLow = h /\ 256 * wHigh + wLow = w.
Proof.
  intros Hw Hh.
  exists (to_uint8 (Z.land (Z.shiftr h 8) 0xFF)), (to_uint8 (Z.land h 0xFF)),
         (to_uint8 (Z.land (Z.shiftr w 8) 0xFF)), (to_uint8 (Z.land w 0xFF)).
  do 4 (split; [reflexivity|]).
  unfold to_uint8. rewrite !land_255, !Z.shiftr_div_pow2 by lia.
  change (2 ^ 8) with 256. rewrite !Z.mod_mod by lia.
  split; Z.div_mod_to_equations; lia.
Qed.

Lemma encodeJPEG_header_holds_dimensions_witness :
  exists hHigh hLow wHigh wLow,
    encodeJPEG [] 640 480 !! 25%nat = Some hHigh /\
    encodeJPEG [] 640 480 !! 26%nat = Some hLow /\
    encodeJPEG [] 640 480 !! 27%nat = Some wHigh /\
    encodeJPEG [] 640 480 !! 28%nat = Some wLow /\
    256 * hHigh + hLow = 480 /\ 256 * wHigh + wLow = 640.
Proof. apply encodeJPEG_header_holds_dimensions; lia. Defined.

Lemma bind3_lookup {A} (f : Z -> list A) (l : list Z) (i c : nat) :
  (forall x, length (f x) = 3%nat) -> (c < 3)%nat ->
  (l ≫= f) !! (3 * i + c)%nat = l !! i ≫= fun x => f x !! c.
Proof.
  intros Hf Hc. revert i. induction l as [|x l IH]; intros i.
  - cbn. rewrite lookup_nil. reflexivity.
  - cbn [mbind list_bind]. change (list_bind _ _ f l) with (l ≫= f).
    destruct i as [|i].
    + rewrite lookup_app_l by (rewrite Hf; lia). reflexivity.
    + rewrite lookup_app_r by (rewrite Hf; lia). rewrite Hf.
      replace (3 * S i + c - 3)%nat with (3 * i + c)%nat by lia.
      rewrite IH. reflexivity.
Qed.

Lemma range_step_lookup (n : Z) (i : nat) :
  4 * Z.of_nat i < n -> JS.range_step n 4 !! i = Some (4 * Z.of_nat i).
Proof.
  intros Hi. unfold JS.range_step. rewrite list_lookup_fmap.
  rewrite lookup_seqZ_lt.
  - cbn; f_equal; lia.
  - assert (Z.of_nat i + 1 <= (n + 4 - 1) / 4)
      by (apply Z.div_le_lower_bound; lia).
    lia.
Qed.

(** X13: The scan holds the colour samples and nothing else: after the 53
    bytes of headers the stream carries Y, Cb and Cr of every pixel, in
    the order of the pixels; the alpha samples are left out. *)
Theorem encodeJPEG_payload_is_colour_samples
    (processedData : list Z) (w h : Z) (k c : nat) :
  Forall (fun b => 0 <= b <= 255) processedData ->
  (4 * k + 3 < length processedData)%nat -> (c < 3)%nat ->
  encodeJPEG processedData w h !! (53 + (3 * k + c))%nat
  = processedData !! (4 * k + c)%nat.
Proof.
  intros Hbytes Hk Hc. unfold encodeJPEG, encodeImageData.
  rewrite list_lookup_fmap.
  rewrite lookup_app_r by (cbn [length]; lia). cbn [length].
  rewrite lookup_app_r by (cbn [length]; lia). cbn [length].
  rewrite lookup_app_r by (cbn [length]; lia). cbn [length].
  rewrite lookup_app_r by (cbn [length]; lia). cbn [length].
  rewrite lookup_app_l.
  2:{ rewrite length_app, length_bind3 by reflexivity. cbn [length].
      pose proof (length_range_step (Z.of_nat (length processedData))) as Hl.
      assert (Z.of_nat k + 1 <= (Z.of_nat (length processedData) + 3) / 4)
        by (apply Z.div_le_lower_bound; lia).
      lia. }
  rewrite lookup_app_r by (cbn [length]; lia). cbn [length].
  replace (53 + (3 * k + c) - 2 - 18 - 10 - 9 - 14)%nat with (3 * k + c)%nat
    by lia.
  rewrite bind3_lookup by (reflexivity || lia).
  rewrite range_step_lookup by lia. cbn [mbind option_bind].
  destruct (lookup_lt_is_Some_2 processedData (4 * k + c)) as [b Hb]; [lia|].
  rewrite Hb.
  assert (JS.get processedData (4 * Z.of_nat k + Z.of_nat c) = Some b) as Hget.
  { unfold JS.get. destruct (Z.leb_spec 0 (4 * Z.of_nat k + Z.of_nat c)); [|lia].
    rewrite <- Hb. f_equal. lia. }
  eapply Forall_lookup_1 in Hbytes; [|exact Hb].
  assert (to_uint8 b = b) as Hu by (unfold to_uint8; apply Z.mod_small; lia).
  destruct c as [|[|[|c]]]; [| | |lia]; cbn [lookup list_lookup fmap option_fmap option_map].
  - replace (4 * Z.of_nat k) with (4 * Z.of_nat k + Z.of_nat 0) by lia.
    rewrite Hget. cbn. by rewrite Hu.
  - change 1 with (Z.of_nat 1). rewrite Hget. cbn. by rewrite Hu.
  - change 2 with (Z.of_nat 2). rewrite Hget. cbn. by rewrite Hu.
Qed.

Lemma encodeJPEG_payload_is_colour_samples_witness :
  encodeJPEG [10; 20; 30; 0; 40; 50; 60; 0] 2 1 !! (53 + (3 * 1 + 2))%nat
  = [10; 20; 30; 0; 40; 50; 60; 0] !! (4 * 1 + 2)%nat.
Proof.
  apply encodeJPEG_payload_is_colour_samples; [|cbn; lia|lia].
  repeat constructor; lia.
Defined.

End JPEGStreamFacts.

Module JPEGAlphaFacts.
Import JPEG JSFacts JPEGFacts.

(** A loop establishes [Q] in the turn for [b0] and keeps it in all
    others, under an invariant [P]. *)
Lemma foldl_establishes {A B} (P Q : A -> Prop) (f : A -> B -> A)
    (l : list B) (a : A) (b0 : B) :
  (forall a b, P a -> P (f a b)) ->
  (forall a b, P a -> Q a -> Q (f a b)) ->
  (forall a, P a -> Q (f a b0)) ->
  b0 ∈ l -> P a -> Q (foldl f a l).
Proof.
  intros HP HQ Hest Hin. revert a.
  induction l as [|b l IH]; intros a Ha; [by apply elem_of_nil in Hin|].
  cbn [foldl]. apply elem_of_cons in Hin as [<-|Hin].
  - assert (P (f a b0) /\ Q (f a b0)) as Hpq by (split; auto).
    revert Hpq. generalize (f a b0). clear -HP HQ.
    induction l as [|b l IH]; intros a' [Hp Hq]; cbn [foldl]; [exact Hq|].
    apply IH. split; auto.
  - apply IH; auto.
Qed.

Section Alpha.
Variable data : list Z.
(** The index of an alpha sample, and the byte stored for it. *)
Variable k : Z.
Let j : Z := 4 * k + 3.
Let dj : Z := to_uint8 (default 0 (JS.get data j)).
Let Q (out : list Z) : Prop := JS.get out j = Some dj.
Let P (out : list Z) : Prop := length out = length data.

Hypothesis Hj : 0 <= j < Z.of_nat (length data).

Lemma Q_set_stable out i v : (i = j -> v = dj) -> Q out -> Q (JS.set out i v).
Proof.
  intros Hv Hq. unfold Q in *. destruct (decide (i = j)) as [->|Hne].
  - rewrite get_set_eq by (apply get_Some_iff; eauto). f_equal. auto.
  - rewrite get_set_ne by exact Hne. exact Hq.
Qed.

Lemma Q_set_establish out i v :
  P out -> i = j -> v = dj -> Q (JS.set out i v).
Proof.
  intros Hp -> ->. unfold Q, P in *. apply get_set_eq. rewrite Hp. exact Hj.
Qed.

Lemma alpha_value p : p + 3 = j -> to_uint8 (default 0 (JS.get data (p + 3))) = dj.
Proof. intros ->. reflexivity. Qed.

Lemma subsampleBlock_Q_stable w x y out : Q out -> Q (subsampleBlock data w x y out).
Proof.
  intros Hq. unfold subsampleBlock.
  repeat (apply Q_set_stable;
          [first [apply alpha_value | intros Heq; exfalso; unfold j in Heq; lia]|]).
  exact Hq.
Qed.

Lemma subsampleBlock_Q_establish w x y out :
  P out ->
  (y * w + x) * 4 + 3 = j \/ (y * w + x + 1) * 4 + 3 = j \/
  ((y + 1) * w + x) * 4 + 3 = j \/ ((y + 1) * w + x + 1) * 4 + 3 = j ->
  Q (subsampleBlock data w x y out).
Proof.
  intros Hp Hpos. unfold subsampleBlock.
  set (d8 := JS.set (JS.set (JS.set (JS.set (JS.set (JS.set (JS.set (JS.set
               out _ _) _ _) _ _) _ _) _ _) _ _) _ _) _ _).
  assert (P d8) as Hp8 by (unfold P, d8; rewrite !length_set; exact Hp).
  clearbody d8.
  destruct Hpos as [H1|[H2|[H3|H4]]].
  - do 3 (apply Q_set_stable; [apply alpha_value|]).
    apply Q_set_establish; [exact Hp8|exact H1|by apply alpha_value].
  - do 2 (apply Q_set_stable; [apply alpha_value|]).
    apply Q_set_establish;
      [unfold P; rewrite length_set; exact Hp8|exact H2|by apply alpha_value].
  - apply Q_set_stable; [apply alpha_value|].
    apply Q_set_establish;
      [unfold P; rewrite !length_set; exact Hp8|exact H3|by apply alpha_value].
  - apply Q_set_establish;
      [unfold P; rewrite !length_set; exact Hp8|exact H4|by apply alpha_value].
Qed.

Lemma applyChromaSubsampling_Q w h :
  1 <= w -> Z.of_nat (length data) = w * h * 4 ->
  Q (applyChromaSubsampling data w h).
Proof.
  intros Hw Hlen. unfold applyChromaSubsampling.
  set (copied := foldl _ (replicate _ _) _).
  assert (P copied) as Hcopied.
  { unfold P, copied.
    apply (foldl_preserves (fun out => length out = length data));
      [|apply length_replicate].
    intros out i Hout. rewrite length_set. exact Hout. }
  clearbody copied.
  (* the pixel [k] lies in row [r], column [c] *)
  assert (0 <= k < w * h) as Hk by (unfold j in Hj; lia).
  pose proof (Z.div_mod k w ltac:(lia)) as Hdm.
  pose proof (Z.mod_pos_bound k w ltac:(lia)) as Hc.
  set (r := k / w) in *. set (c := k mod w) in *.
  assert (0 <= r < h) as Hr by nia.
  set (y0 := 2 * (r / 2)). set (x0 := 2 * (c / 2)).
  assert (y0 ∈ JS.range_step h 2) as Hy0.
  { apply elem_of_range_step; [lia|]. split; [|eauto].
    unfold y0. Z.div_mod_to_equations. lia. }
  assert (x0 ∈ JS.range_step w 2) as Hx0.
  { apply elem_of_range_step; [lia|]. split; [|eauto].
    unfold x0. Z.div_mod_to_equations. lia. }
  apply (foldl_establishes P Q _ _ _ y0); [| | |exact Hy0|exact Hcopied].
  - intros out y Hout. apply (foldl_preserves P); [|exact Hout].
    intros out' x Hout'. unfold P. rewrite subsampleBlock_length. exact Hout'.
  - intros out y _ Hout. apply (foldl_preserves Q); [|exact Hout].
    intros out' x Hout'. by apply subsampleBlock_Q_stable.
  - intros out Hout.
    apply (foldl_establishes P Q _ _ _ x0); [| | |exact Hx0|exact Hout].
    + intros out' x Hout'. unfold P. rewrite subsampleBlock_length. exact Hout'.
    + intros out' x _ Hout'. by apply subsampleBlock_Q_stable.
    + intros out' Hout'. apply subsampleBlock_Q_establish; [exact Hout'|].
      unfold j.
      assert (r = y0 \/ r = y0 + 1) as Hrr
        by (unfold y0; Z.div_mod_to_equations; lia).
      assert (c = x0 \/ c = x0 + 1) as Hcc
        by (unfold x0; Z.div_mod_to_equations; lia).
      clearbody y0 x0 r c.
      destruct Hrr as [->| ->], Hcc as [->| ->]; subst k;
        [left|right; left|right; right; left|right; right; right]; ring.
Qed.

End Alpha.

(** X14: Chroma subsampling keeps the alpha channel too: for an image whose
    data are the [width * height * 4] byte samples, the alpha sample of
    every pixel is the same after [applyChromaSubsampling]. *)
Theorem chroma_subsampling_preserves_alpha (ycbcrData : list Z) (w h k : Z) :
  1 <= w -> Z.of_nat (length ycbcrData) = w * h * 4 ->
  Forall (fun b => 0 <= b < 256) ycbcrData ->
  JS.get (applyChromaSubsampling ycbcrData w h) (4 * k + 3)
  = JS.get ycbcrData (4 * k + 3).
Proof.
  intros Hw Hlen Hbytes.
  destruct (JS.get ycbcrData (4 * k + 3)) as [b|] eqn:Hget.
  - assert (0 <= 4 * k + 3 < Z.of_nat (length ycbcrData)) as Hj
      by (apply get_Some_iff; eauto).
    rewrite (applyChromaSubsampling_Q ycbcrData k Hj w h Hw Hlen).
    rewrite Hget. cbn. f_equal. unfold to_uint8. apply Z.mod_small.
    unfold JS.get in Hget. destruct (0 <=? 4 * k + 3); [|discriminate].
    eapply Forall_lookup_1 in Hbytes; [|exact Hget]. exact Hbytes.
  - apply get_None_iff. rewrite applyChromaSubsampling_length.
    by apply get_None_iff.
Qed.

Lemma chroma_subsampling_preserves_alpha_witness :
  JS.get (applyChromaSubsampling
            [10; 100; 200; 255; 20; 110; 210; 254;
             30; 120; 220; 253; 40; 130; 230; 252] 2 2) (4 * 3 + 3)
  = Some 252.
Proof.
  refine (chroma_subsampling_preserves_alpha _ 2 2 3 _ _ _);
    [lia|reflexivity|repeat constructor; lia].
Defined.

End JPEGAlphaFacts.

Module JPEGConvertFacts.
Import JPEG JSFacts JPEGFacts JPEGMoreFacts.

(** As [foldl_establishes], for loop bodies that are only well behaved
    on the indices the loop visits. *)
Lemma foldl_establishes_in {A B} (P Q : A -> Prop) (f : A -> B -> A)
    (l : list B) (a : A) (b0 : B) :
  (forall a b, b ∈ l -> P a -> P (f a b)) ->
  (forall a b, b ∈ l -> P a -> Q a -> Q (f a b)) ->
  (forall a, P a -> Q (f a b0)) ->
  b0 ∈ l -> P a -> Q (foldl f a l).
Proof.
  intros HP HQ Hest Hin Ha.
  assert (forall l' a', (forall b, b ∈ l' -> b ∈ l) -> P a' -> Q a' ->
                        P (foldl f a' l') /\ Q (foldl f a' l')) as Hkeep.
  { induction l' as [|b l' IH]; intros a' Hsub Hp Hq; [by split|].
    cbn [foldl]. apply IH.
    - intros b' Hb'. apply Hsub. by right.
    - apply HP; [apply Hsub; by left|exact Hp].
    - apply HQ; [apply Hsub; by left|exact Hp|exact Hq]. }
  assert (forall l' a', (forall b, b ∈ l' -> b ∈ l) -> b0 ∈ l' -> P a' ->
                        Q (foldl f a' l')) as Hgo.
  { induction l' as [|b l' IH]; intros a' Hsub Hin' Hp;
      [by apply elem_of_nil in Hin'|].
    cbn [foldl]. apply elem_of_cons in Hin' as [<-|Hin'].
    - apply Hkeep; [intros b' Hb'; apply Hsub; by right| |by apply Hest].
      apply HP; [apply Hsub; by left|exact Hp].
    - apply IH; [intros b' Hb'; apply Hsub; by right|exact Hin'|].
      apply HP; [apply Hsub; by left|exact Hp]. }
  by apply Hgo.
Qed.

Lemma to_uint8_byte v : 0 <= to_uint8 v <= 255.
Proof. unfold to_uint8. pose proof (Z.mod_pos_bound v 256). lia. Qed.

Section Convert.
Variable ycc : Z -> option Z -> option Z -> Z * Z * Z.

(** X15: Whatever the colour kernel computes, [convertRGBToYCbCr] returns as
    many samples as it is given, all of them bytes, and the alpha sample
    of every pixel of a byte image is the one it was given. *)
Theorem convertRGBToYCbCr_keeps_alpha (rgbData : list Z) (k : Z) :
  Forall (fun b => 0 <= b <= 255) rgbData ->
  let ycbcrData := convertRGBToYCbCr ycc rgbData in
  length ycbcrData = length rgbData /\
  Forall (fun b => 0 <= b <= 255) ycbcrData /\
  JS.get ycbcrData (4 * k + 3) = JS.get rgbData (4 * k + 3).
Proof.
  intros Hbytes ycbcrData.
  split; [apply convertRGBToYCbCr_length|]. split.
  - unfold ycbcrData, convertRGBToYCbCr.
    apply (foldl_preserves (Forall (fun b => 0 <= b <= 255)));
      [|apply Forall_replicate; lia].
    intros out i Hout. destruct (ycc _ _ _) as [[y cb] cr].
    repeat (apply set_bytes; [apply to_uint8_byte|]). exact Hout.
  - destruct (JS.get rgbData (4 * k + 3)) as [b|] eqn:Hget.
    + assert (0 <= 4 * k + 3 < Z.of_nat (length rgbData)) as Hj
        by (apply get_Some_iff; eauto).
      assert (b = to_uint8 (default 0 (JS.get rgbData (4 * k + 3)))) as Hb.
      { rewrite Hget. cbn. unfold to_uint8. symmetry. apply Z.mod_small.
        unfold JS.get in Hget. destruct (0 <=? 4 * k + 3); [|discriminate].
        eapply Forall_lookup_1 in Hbytes; [|exact Hget]. cbn in Hbytes. lia. }
      unfold ycbcrData, convertRGBToYCbCr.
      apply (foldl_establishes_in
               (fun out => length out = length rgbData)
               (fun out => JS.get out (4 * k + 3) = Some b) _ _ _ (4 * k)).
      * intros out i _ Hout. destruct (ycc _ _ _) as [[y cb] cr].
        rewrite !length_set. exact Hout.
      * intros out i Hi Hlen Hout. destruct (ycc _ _ _) as [[y cb] cr].
        apply elem_of_range_step in Hi as [_ [m ->]]; [|lia].
        destruct (decide (m = k)) as [->|Hne].
        -- rewrite get_set_eq by (rewrite !length_set, Hlen; exact Hj).
           f_equal. symmetry. exact Hb.
        -- rewrite !get_set_ne by lia. exact Hout.
      * intros out Hlen. destruct (ycc _ _ _) as [[y cb] cr].
        rewrite get_set_eq by (rewrite !length_set, Hlen; exact Hj).
        f_equal. symmetry. exact Hb.
      * apply elem_of_range_step; [lia|]. split; [lia|eauto].
      * apply length_replicate.
    + apply get_None_iff. unfold ycbcrData.
      rewrite convertRGBToYCbCr_length. by apply get_None_iff.
Qed.

End Convert.

Lemma convertRGBToYCbCr_keeps_alpha_witness :
  JS.get (convertRGBToYCbCr (fun r _ _ => (r, 128, 128)) [10; 20; 30; 77])
         (4 * 0 + 3) = Some 77.
Proof.
  refine (proj2 (proj2 (convertRGBToYCbCr_keeps_alpha
                          (fun r _ _ => (r, 128, 128)) [10; 20; 30; 77] 0 _))).
  repeat constructor; lia.
Defined.

End JPEGConvertFacts.

Module PNGFilterFacts.
Import PNG PNGCodec JSFacts PNGFacts.

Lemma land_byte x : 0 <= Z.land x 0xFF <= 255.
Proof.
  rewrite JPEGStreamFacts.land_255. pose proof (Z.mod_pos_bound x 256). lia.
Qed.

Lemma land_diff_inj c c' v :
  0 <= c <= 255 -> 0 <= c' <= 255 ->
  Z.land (c - v) 0xFF = Z.land (c' - v) 0xFF -> c = c'.
Proof.
  rewrite !JPEGStreamFacts.land_255. intros Hc Hc' Heq.
  Z.div_mod_to_equations. lia.
Qed.

Lemma get_byte (data : list Z) i c :
  Forall (fun b => 0 <= b <= 255) data -> JS.get data i = Some c -> 0 <= c <= 255.
Proof.
  intros Hb Hget. unfold JS.get in Hget.
  destruct (0 <=? i); [|discriminate].
  eapply Forall_lookup_1 in Hb; [|exact Hget]. exact Hb.
Qed.

Lemma or_default_0 c : JS.or_default (Some c) 0 = c.
Proof. cbn. destruct (Z.eqb_spec c 0); congruence. Qed.


Lemma paethPredictor_Some l u ul :
  is_Some (paethPredictor (Some l) (Some u) (Some ul)).
Proof.
  cbn [paethPredictor].
  repeat match goal with |- context [if ?b then _ else _] => destruct b end;
    eauto.
Qed.

Lemma diffByte_byte c x : 0 <= diffByte c x <= 255.
Proof. destruct x; cbn [diffByte]; [apply land_byte|cbv beta; lia]. Qed.

Lemma applyFilterPixel_byte data w h row col f :
  Forall (fun b => 0 <= b <= 255) data -> 0 <= applyFilterPixel data w h row col f <= 255.
Proof.
  intros Hb. unfold applyFilterPixel.
  assert (0 <= JS.or_default (JS.get data (row * w * 4 + col)) 0 <= 255) as Hc.
  { destruct (JS.get data (row * w * 4 + col)) as [c|] eqn:Hget;
      [|cbn; lia].
    rewrite or_default_0. eapply (get_byte data); eauto. }
  repeat (destruct (f =? _); [first [exact Hc | apply diffByte_byte]|]).
  exact Hc.
Qed.

Lemma diffByte_inj c c' x :
  0 <= c <= 255 -> 0 <= c' <= 255 -> is_Some x -> diffByte c x = diffByte c' x -> c = c'.
Proof. intros Hc Hc' [v ->]. cbn. by apply land_diff_inj. Qed.

(** A filtered byte and the bytes before it determine the byte it was
    made from. *)
Lemma applyFilterPixel_lossless data data' w h row col f :
  Forall (fun b => 0 <= b <= 255) data -> Forall (fun b => 0 <= b <= 255) data' ->
  0 <= row -> 0 <= col < 4 * w ->
  (forall i, i < row * w * 4 + col -> JS.get data i = JS.get data' i) ->
  is_Some (JS.get data (row * w * 4 + col)) ->
  is_Some (JS.get data' (row * w * 4 + col)) ->
  applyFilterPixel data w h row col f = applyFilterPixel data' w h row col f ->
  JS.get data (row * w * 4 + col) = JS.get data' (row * w * 4 + col).
Proof.
  intros Hb Hb' Hrow Hcol Hbefore [c Hc] [c' Hc'] Heq.
  rewrite Hc, Hc'. f_equal.
  assert (0 <= c <= 255) as Hbc by exact (get_byte _ _ _ Hb Hc).
  assert (0 <= c' <= 255) as Hbc' by exact (get_byte _ _ _ Hb' Hc').
  assert (row * w * 4 + col < Z.of_nat (length data)) as Hlen
    by (apply get_Some_iff; eauto).
  assert (forall i, 0 <= i < row * w * 4 + col -> is_Some (JS.get data i))
    as Hsome by (intros i Hi; apply get_Some_iff; lia).
  unfold applyFilterPixel in Heq. rewrite Hc, Hc', !or_default_0 in Heq.
  set (left := if 4 <=? col then JS.get data (row * w * 4 + col - 4)
               else Some 0) in *.
  set (left' := if 4 <=? col then JS.get data' (row * w * 4 + col - 4)
                else Some 0) in *.
  set (upRow := if 0 <? row then (row - 1) * w * 4 else -1) in *.
  set (up := if 0 <=? upRow then JS.get data (upRow + col) else Some 0) in *.
  set (up' := if 0 <=? upRow then JS.get data' (upRow + col) else Some 0) in *.
  set (upLeftRow := if (0 <? row) && (4 <=? col)
                    then (row - 1) * w * 4 else -1) in *.
  set (upLeft := if 0 <=? upLeftRow then JS.get data (upLeftRow + col - 4)
                 else Some 0) in *.
  set (upLeft' := if 0 <=? upLeftRow then JS.get data' (upLeftRow + col - 4)
                  else Some 0) in *.
  assert (left' = left /\ is_Some left) as [-> [l Hl]].
  { unfold left, left'. destruct (Z.leb_spec 4 col); [|eauto].
    split; [symmetry; apply Hbefore; lia|apply Hsome; nia]. }
  assert (up' = up /\ is_Some up) as [-> [u Hu]].
  { unfold up, up', upRow. destruct (Z.ltb_spec 0 row).
    - destruct (Z.leb_spec 0 ((row - 1) * w * 4)); [|eauto].
      split; [symmetry; apply Hbefore; nia|apply Hsome; nia].
    - cbn. eauto. }
  assert (upLeft' = upLeft /\ is_Some upLeft) as [-> [ul Hul]].
  { unfold upLeft, upLeft', upLeftRow.
    destruct (Z.ltb_spec 0 row), (Z.leb_spec 4 col); cbn [andb];
      try (cbn; by eauto).
    destruct (Z.leb_spec 0 ((row - 1) * w * 4)); [|eauto].
    split; [symmetry; apply Hbefore; nia|apply Hsome; nia]. }
  rewrite Hl, Hu, Hul in Heq.
  repeat (destruct (f =? _);
          [first [exact Heq
                 | eapply diffByte_inj; [exact Hbc|exact Hbc'| |exact Heq];
                   first [by eauto | apply paethPredictor_Some]]|]).
  exact Heq.
Qed.

End PNGFilterFacts.

Module PNGFilteringFacts.
Import PNG PNGCodec JSFacts PNGFacts PNGFilterFacts.

Lemma set_next (written : list Z) (n : nat) (v : Z) :
  JS.set (written ++ replicate (S n) 0) (Z.of_nat (length written)) v
  = (written ++ [v]) ++ replicate n 0.
Proof.
  unfold JS.set. destruct (Z.leb_spec 0 (Z.of_nat (length written))); [|lia].
  rewrite Nat2Z.id, insert_app_r_alt, Nat.sub_diag by lia.
  cbn. by rewrite <- app_assoc.
Qed.

Lemma writeRow_app (row written : list Z) (n : nat) :
  (length row <= n)%nat ->
  writeRow (written ++ replicate n 0) (Z.of_nat (length written)) row
  = (written ++ row ++ replicate (n - length row) 0,
     Z.of_nat (length written + length row)).
Proof.
  unfold writeRow. revert written n.
  induction row as [|v row IH]; intros written n Hn; cbn [foldl length].
  - by rewrite Nat.sub_0_r, Nat.add_0_r.
  - destruct n as [|n]; [cbn in Hn; lia|].
    rewrite set_next.
    replace (Z.of_nat (length written) + 1)
      with (Z.of_nat (length (written ++ [v])))
      by (rewrite length_app; cbn; lia).
    rewrite IH by (cbn in Hn; lia).
    rewrite length_app, <- app_assoc. cbn. do 2 f_equal. lia.
Qed.

Section Rows.
Variable imageData : ImageData.
Let d := data imageData.
Let w := width imageData.
Let h := height imageData.
Hypothesis Hw : 0 <= w.

(** The bytes [applyFiltering] writes for row [y]. *)
Let rowOf (y : Z) : list Z :=
  let f := (bestOf (calculateFilterScore d w h y) filters).1 in
  JPEG.to_uint8 f
  :: ((fun x => JPEG.to_uint8 (applyFilterPixel d w h y x f))
        <$> seqZ 0 (w * 4)).

Lemma rowOf_length y : length (rowOf y) = S (Z.to_nat (w * 4)).
Proof. unfold rowOf. cbn. by rewrite length_fmap, length_seqZ. Qed.

Lemma filterRow_rows (ys : list Z) (written : list Z) (n : nat) :
  (length ys * S (Z.to_nat (w * 4)) <= n)%nat ->
  foldl (filterRow imageData "auto")
        (Some (written ++ replicate n 0, Z.of_nat (length written))) ys
  = Some (written ++ mjoin (rowOf <$> ys)
            ++ replicate (n - length ys * S (Z.to_nat (w * 4))) 0,
          Z.of_nat (length written + length ys * S (Z.to_nat (w * 4)))).
Proof.
  revert written n.
  induction ys as [|y ys IH]; intros written n Hn; cbn [foldl length].
  - cbn. by rewrite Nat.sub_0_r, Nat.add_0_r.
  - unfold filterRow at 2. cbn [mbind option_bind].
    unfold selectFilter. cbn [bool_decide decide_rel]. 
    rewrite bool_decide_eq_true_2 by reflexivity. cbn [mbind option_bind].
    unfold applyFilter. fold d w h.
    destruct (Z.ltb_spec (w * 4) 0) as [?|_]; [lia|]. cbn [mbind option_bind].
    destruct n as [|n]; [cbn in Hn; lia|].
    rewrite set_next.
    replace (Z.of_nat (length written) + 1)
      with (Z.of_nat (length (written ++
              [JPEG.to_uint8 (bestOf (calculateFilterScore d w h y) filters).1])))
      by (rewrite length_app; cbn; lia).
    rewrite writeRow_app
      by (rewrite length_fmap, length_seqZ; cbn in Hn; lia).
    rewrite length_fmap, length_seqZ.
    assert (forall a b c : list Z, a ++ b ++ c = (a ++ b) ++ c) as Hassoc
      by (intros; by rewrite app_assoc).
    rewrite Hassoc.
    replace (Z.of_nat (length (written ++ [JPEG.to_uint8
               (bestOf (calculateFilterScore d w h y) filters).1])
             + Z.to_nat (w * 4)))
      with (Z.of_nat (length ((written ++ [JPEG.to_uint8
               (bestOf (calculateFilterScore d w h y) filters).1])
              ++ ((fun x => JPEG.to_uint8 (applyFilterPixel d w h y x
                     (bestOf (calculateFilterScore d w h y) filters).1))
                    <$> seqZ 0 (w * 4)))))
      by (rewrite !length_app, length_fmap, length_seqZ; reflexivity).
    rewrite IH by (cbn in Hn; lia).
    rewrite !length_app, length_fmap, length_seqZ. cbn [length fmap list_fmap mjoin].
    f_equal. f_equal.
    + change (list_join Z (rowOf y :: (rowOf <$> ys)))
        with (rowOf y ++ mjoin (rowOf <$> ys)).
      rewrite <- !app_assoc. f_equal. unfold rowOf at 2. cbv zeta.
      cbn [app]. do 3 f_equal. f_equal. rewrite Nat.mul_succ_l. lia.
    + rewrite Nat.mul_succ_l. lia.
Qed.

End Rows.

Lemma rows_lookup (rowOf : Z -> list Z) (n : nat) (h y : Z) (i : nat) :
  (forall y, length (rowOf y) = n) -> 0 <= y < h -> (i < n)%nat ->
  mjoin (rowOf <$> seqZ 0 h) !! (Z.to_nat y * n + i)%nat = rowOf y !! i.
Proof.
  intros Hlen Hy Hi.
  destruct (lookup_lt_is_Some_2 (rowOf y) i) as [x Hx]; [rewrite Hlen; lia|].
  rewrite Hx. apply (join_lookup_Some_same_length' n); [|exact Hi|].
  - apply Forall_fmap, Forall_forall. intros y' _. apply Hlen.
  - exists (rowOf y). split; [|exact Hx].
    rewrite list_lookup_fmap, lookup_seqZ_lt by lia. cbn. do 2 f_equal. lia.
Qed.

(** The whole output of [applyFiltering] on an image that has its
    [width * height * 4] samples. *)
Lemma applyFiltering_rows (imageData : ImageData) :
  0 <= width imageData -> 0 <= height imageData ->
  Z.of_nat (length (data imageData))
  = width imageData * height imageData * 4 ->
  applyFiltering imageData None
  = Some (mjoin ((fun y =>
            let f := (bestOf (calculateFilterScore (data imageData)
                        (width imageData) (height imageData) y) filters).1 in
            JPEG.to_uint8 f
            :: ((fun x => JPEG.to_uint8
                   (applyFilterPixel (data imageData) (width imageData)
                      (height imageData) y x f))
                  <$> seqZ 0 (width imageData * 4)))
           <$> seqZ 0 (height imageData))).
Proof.
  intros Hw Hh Hlen. unfold applyFiltering. cbn [filterTypeOf].
  destruct (Z.ltb_spec
              (Z.of_nat (length (data imageData)) + height imageData) 0);
    [lia|].
  pose proof (filterRow_rows imageData Hw (seqZ 0 (height imageData)) []
                (Z.to_nat (Z.of_nat (length (data imageData))
                           + height imageData))) as Hrows.
  cbn [app length] in Hrows. change (Z.of_nat 0) with 0 in Hrows.
  rewrite length_seqZ in Hrows.
  assert (Z.to_nat (height imageData) * S (Z.to_nat (width imageData * 4))
          = Z.to_nat (Z.of_nat (length (data imageData)) + height imageData))%nat
    as Hsize by nia.
  rewrite Hrows by lia. cbn [fmap option_fmap option_map fst].
  rewrite Hsize, Nat.sub_diag. cbn [replicate]. by rewrite app_nil_r.
Qed.

Lemma filter_code f : f ∈ filters -> JPEG.to_uint8 f = f.
Proof.
  unfold filters, FILTER_NONE, FILTER_SUB, FILTER_UP, FILTER_AVERAGE,
    FILTER_PAETH. intros Hf.
  repeat (apply elem_of_cons in Hf as [->|Hf]; [reflexivity|]).
  by apply elem_of_nil in Hf.
Qed.

Lemma bestOf_filter score : (bestOf score filters).1 ∈ filters.
Proof.
  destruct (bestOf_spec score filters) as (i & Hi & _); [discriminate|].
  eapply list_elem_of_lookup_2. exact Hi.
Qed.

Lemma to_uint8_small v : 0 <= v <= 255 -> JPEG.to_uint8 v = v.
Proof. intros Hv. unfold JPEG.to_uint8. apply Z.mod_small. lia. Qed.

(** The layout of the filtered data.  For an image of bytes that
    has its [width * height * 4] samples, [applyFiltering] returns one
    byte more per row than it is given; row [y] starts at
    [y * (4 * width + 1)] with the filter selected for the row, and the
    byte after it at distance [x] is the filtered byte of column [x]. *)
Theorem applyFiltering_row_layout (imageData : ImageData) (y x : Z) :
  let d := data imageData in
  let w := width imageData in
  let h := height imageData in
  Z.of_nat (length d) = w * h * 4 ->
  Forall (fun b => 0 <= b <= 255) d ->
  0 <= y < h -> 0 <= x < 4 * w ->
  exists filteredData filter,
    applyFiltering imageData None = Some filteredData /\
    Z.of_nat (length filteredData) = Z.of_nat (length d) + h /\
    selectFilter d w h y "auto" = Some filter /\
    JS.get filteredData (y * (4 * w + 1)) = Some filter /\
    JS.get filteredData (y * (4 * w + 1) + 1 + x)
    = Some (applyFilterPixel d w h y x filter).
Proof.
  intros d w h Hlen Hbytes Hy Hx.
  assert (0 <= w) as Hw by lia. assert (0 <= h) as Hh by lia.
  rewrite (applyFiltering_rows imageData Hw Hh Hlen). fold d w h.
  set (rowOf := fun y : Z => _ :: _).
  assert (forall y, length (rowOf y) = S (Z.to_nat (w * 4))) as Hrow
    by (intros y'; unfold rowOf; cbn; by rewrite length_fmap, length_seqZ).
  eexists _, _. split; [reflexivity|]. split.
  { rewrite length_join, (sum_list_fmap_same (S (Z.to_nat (w * 4)))).
    - rewrite length_fmap, length_seqZ. nia.
    - apply Forall_fmap, Forall_forall. intros y' _. apply Hrow. }
  split; [reflexivity|]. unfold JS.get.
  destruct (Z.leb_spec 0 (y * (4 * w + 1))); [|nia].
  destruct (Z.leb_spec 0 (y * (4 * w + 1) + 1 + x)); [|nia]. split.
  - replace (Z.to_nat (y * (4 * w + 1)))
      with (Z.to_nat y * S (Z.to_nat (w * 4)) + 0)%nat by nia.
    rewrite (rows_lookup rowOf _ h y 0 Hrow) by lia.
    unfold rowOf. cbn. f_equal. apply filter_code, bestOf_filter.
  - replace (Z.to_nat (y * (4 * w + 1) + 1 + x))
      with (Z.to_nat y * S (Z.to_nat (w * 4)) + S (Z.to_nat x))%nat by nia.
    rewrite (rows_lookup rowOf _ h y _ Hrow) by lia.
    unfold rowOf.
    match goal with
    | |- (?a :: ?l) !! S ?i = _ => change ((a :: l) !! S i) with (l !! i)
    end.
    rewrite list_lookup_fmap, lookup_seqZ_lt by lia. cbn. f_equal.
    rewrite Z2Nat.id by lia.
    apply to_uint8_small, applyFilterPixel_byte. exact Hbytes.
Qed.

Lemma applyFiltering_row_layout_witness :
  exists filteredData filter,
    applyFiltering (mkImageData 1 2 [10; 20; 30; 255; 12; 22; 32; 255]) None
    = Some filteredData /\
    JS.get filteredData (1 * (4 * 1 + 1)) = Some filter /\
    JS.get filteredData (1 * (4 * 1 + 1) + 1 + 2)
    = Some (applyFilterPixel [10; 20; 30; 255; 12; 22; 32; 255] 1 2 1 2 filter).
Proof.
  destruct (applyFiltering_row_layout
              (mkImageData 1 2 [10; 20; 30; 255; 12; 22; 32; 255]) 1 2)
    as (filteredData & filter & Hout & _ & _ & Hf & Hx);
    [reflexivity|repeat constructor; lia|cbn; lia|cbn; lia|].
  exists filteredData, filter. auto.
Defined.

Lemma rows_inj_get (rowOf rowOf' : Z -> list Z) (n : nat) (h y : Z) (i : nat) :
  (forall y, length (rowOf y) = n) -> (forall y, length (rowOf' y) = n) ->
  mjoin (rowOf <$> seqZ 0 h) = mjoin (rowOf' <$> seqZ 0 h) ->
  0 <= y < h -> (i < n)%nat -> rowOf y !! i = rowOf' y !! i.
Proof.
  intros Hlen Hlen' Heq Hy Hi.
  rewrite <- (rows_lookup rowOf n h y i Hlen Hy Hi).
  rewrite <- (rows_lookup rowOf' n h y i Hlen' Hy Hi).
  by rewrite Heq.
Qed.

(** X17: filtering loses nothing.  Two images of bytes of the same
    dimensions, each with its [width * height * 4] samples, that
    [applyFiltering] maps to the same filtered data have the same
    samples. *)
Theorem applyFiltering_lossless (imageData imageData' : ImageData) :
  width imageData' = width imageData ->
  height imageData' = height imageData ->
  0 <= width imageData -> 0 <= height imageData ->
  Z.of_nat (length (data imageData))
  = width imageData * height imageData * 4 ->
  Z.of_nat (length (data imageData'))
  = width imageData * height imageData * 4 ->
  Forall (fun b => 0 <= b <= 255) (data imageData) ->
  Forall (fun b => 0 <= b <= 255) (data imageData') ->
  applyFiltering imageData None = applyFiltering imageData' None ->
  data imageData = data imageData'.
Proof.
  intros Hw' Hh' Hw Hh Hlen Hlen' Hb Hb' Heq.
  rewrite (applyFiltering_rows imageData Hw Hh Hlen) in Heq.
  rewrite (applyFiltering_rows imageData') in Heq
    by (rewrite ?Hw', ?Hh'; assumption).
  rewrite Hw', Hh' in Heq. injection Heq as Heq.
  set (d := data imageData) in *. set (d' := data imageData') in *.
  set (w := width imageData) in *. set (h := height imageData) in *.
  set (rowOf := fun y : Z => _ :: _) in Heq.
  set (rowOf' := fun y : Z => _ :: _) in Heq.
  assert (forall y, length (rowOf y) = S (Z.to_nat (w * 4))) as Hrow
    by (intros y'; unfold rowOf; cbn; by rewrite length_fmap, length_seqZ).
  assert (forall y, length (rowOf' y) = S (Z.to_nat (w * 4))) as Hrow'
    by (intros y'; unfold rowOf'; cbn; by rewrite length_fmap, length_seqZ).
  assert (forall i : nat, JS.get d (Z.of_nat i) = JS.get d' (Z.of_nat i))
    as Hget.
  { intros i. induction (lt_wf i) as [i _ IH].
    destruct (decide (Z.of_nat i < Z.of_nat (length d))) as [Hi|Hi].
    2: { transitivity (@None Z); [|symmetry]; apply get_None_iff; lia. }
    assert (1 <= w) as Hw1 by nia.
    set (y := Z.of_nat i / (w * 4)). set (x := Z.of_nat i mod (w * 4)).
    assert (Z.of_nat i = y * w * 4 + x) as Hi_eq
      by (unfold y, x; pose proof (Z.div_mod (Z.of_nat i) (w * 4)); lia).
    assert (0 <= x < 4 * w)
      by (unfold x; pose proof (Z.mod_pos_bound (Z.of_nat i) (w * 4)); lia).
    assert (0 <= y < h) as Hy.
    { unfold y. split; [apply Z.div_pos; lia|].
      apply Z.div_lt_upper_bound; lia. }
    (* the filter of the row *)
    pose proof (rows_inj_get rowOf rowOf' _ h y 0 Hrow Hrow' Heq Hy
                  ltac:(lia)) as Hf.
    unfold rowOf, rowOf' in Hf. cbn in Hf. injection Hf as Hf.
    rewrite !filter_code in Hf by apply bestOf_filter.
    (* the filtered byte *)
    pose proof (rows_inj_get rowOf rowOf' _ h y (S (Z.to_nat x)) Hrow Hrow'
                  Heq Hy ltac:(lia)) as Hpx.
    unfold rowOf, rowOf' in Hpx.
    repeat match type of Hpx with
           | context [(?a :: ?l) !! S ?k] =>
               change ((a :: l) !! S k) with (l !! k) in Hpx
           end.
    rewrite !list_lookup_fmap, !lookup_seqZ_lt in Hpx by lia.
    cbn in Hpx. injection Hpx as Hpx. rewrite Z2Nat.id in Hpx by lia.
    rewrite <- Hf in Hpx.
    rewrite !to_uint8_small in Hpx by (by apply applyFilterPixel_byte).
    rewrite Hi_eq.
    eapply (applyFilterPixel_lossless d d' w h y x); eauto; try lia.
    - intros j Hj. destruct (Z.leb_spec 0 j) as [Hj0|Hj0].
      + rewrite <- (Z2Nat.id j) by lia. apply IH. lia.
      + unfold JS.get. destruct (Z.leb_spec 0 j); [lia|reflexivity].
    - apply get_Some_iff. lia.
    - apply get_Some_iff. lia. }
  apply list_eq. intros i. specialize (Hget i). unfold JS.get in Hget.
  destruct (Z.leb_spec 0 (Z.of_nat i)); [|lia].
  by rewrite Nat2Z.id in Hget.
Qed.

Lemma applyFiltering_lossless_witness :
  data (mkImageData 1 2 [10; 20; 30; 255; 12; 22; 32; 255])
  = data (mkImageData 1 2 [10; 20; 30; 255; 12; 22; 32; 255]).
Proof.
  apply applyFiltering_lossless;
    first [reflexivity | cbn; lia | repeat constructor; lia].
Defined.

End PNGFilteringFacts.

Module PNGDeflateFacts.
Import PNGCodec JSFacts PNGFilteringFacts.

Lemma expandRuns_app (pairs rest : list Z) (n : nat) :
  length pairs = (2 * n)%nat ->
  expandRuns (pairs ++ rest) = expandRuns pairs ++ expandRuns rest.
Proof.
  revert pairs. induction n as [|n IH]; intros pairs Hlen.
  - destruct pairs; [reflexivity|discriminate].
  - destruct pairs as [|count [|value pairs]]; try (cbn in Hlen; lia).
    cbn [app expandRuns]. rewrite IH by (cbn in Hlen; lia).
    by rewrite app_assoc.
Qed.

(** What the loop of [deflateWithJS] keeps: the pairs written so far
    and the run that is open stand for a zero followed by the bytes
    read. *)
Lemma deflateStep_runs (xs : list Z) compressed current count seen (n : nat) :
  length compressed = (2 * n)%nat ->
  Forall (fun b => 0 <= b <= 255) compressed ->
  0 <= current <= 255 -> 1 <= count <= 255 ->
  Forall (fun b => 0 <= b <= 255) xs ->
  expandRuns compressed ++ replicate (Z.to_nat count) current = 0 :: seen ->
  exists compressed' current' count' (n' : nat),
    foldl deflateStep (compressed, current, count) xs
    = (compressed', current', count') /\
    length compressed' = (2 * n')%nat /\
    Forall (fun b => 0 <= b <= 255) compressed' /\
    0 <= current' <= 255 /\ 1 <= count' <= 255 /\
    expandRuns compressed' ++ replicate (Z.to_nat count') current'
    = 0 :: seen ++ xs.
Proof.
  revert compressed current count seen n.
  induction xs as [|x xs IH];
    intros compressed current count seen n Hlen Hc Hcur Hcount Hxs Hruns.
  - cbn [foldl]. rewrite app_nil_r. eauto 10.
  - apply Forall_cons in Hxs as [Hx Hxs]. cbn [foldl]. unfold deflateStep at 2.
    replace (seen ++ x :: xs) with ((seen ++ [x]) ++ xs)
      by (by rewrite <- app_assoc).
    destruct (Z.eqb_spec x current) as [->|Hne];
      [destruct (Z.ltb_spec count 255) as [Hlt|Hge]|]; cbn [andb].
    + apply (IH _ _ _ _ n); auto; [lia|].
      replace (Z.to_nat (count + 1)) with (Z.to_nat count + 1)%nat by lia.
      rewrite replicate_add, app_assoc, Hruns. reflexivity.
    + apply (IH _ _ _ _ (S n)); auto.
      * rewrite length_app, Hlen. cbn. lia.
      * apply Forall_app. split; [exact Hc|]. repeat constructor; lia.
      * lia.
      * rewrite (expandRuns_app _ _ n) by exact Hlen.
        cbn [expandRuns]. rewrite app_nil_r, <- app_assoc.
        rewrite app_assoc, Hruns. reflexivity.
    + apply (IH _ _ _ _ (S n)); auto.
      * rewrite length_app, Hlen. cbn. lia.
      * apply Forall_app. split; [exact Hc|]. repeat constructor; lia.
      * lia.
      * rewrite (expandRuns_app _ _ n) by exact Hlen.
        cbn [expandRuns]. rewrite app_nil_r, <- app_assoc.
        rewrite app_assoc, Hruns. reflexivity.
Qed.

(** X18: the run lengths of the fallback deflate stand for the data with
    its first byte replaced by 0.  For every array of bytes,
    [deflateWithJS] returns pairs [count, value] of bytes with
    [1 <= count], and reading the pairs back gives a 0 followed by all
    bytes of the data but the first; for the empty array it gives a
    single 0. *)
Theorem deflateWithJS_runs_drop_first_byte (data : list Z) :
  Forall (fun b => 0 <= b <= 255) data ->
  Forall (fun b => 0 <= b <= 255) (deflateWithJS data) /\
  (exists n : nat, length (deflateWithJS data) = (2 * S n)%nat) /\
  expandRuns (deflateWithJS data) = 0 :: drop 1 data.
Proof.
  intros Hb. unfold deflateWithJS.
  pose proof (deflateStep_runs (drop 1 data) [] 0 1 [] 0 eq_refl
                (Forall_nil_2 _) ltac:(lia) ltac:(lia)
                (Forall_drop _ 1 _ Hb) eq_refl)
    as (compressed & current & count & n & Hfold & Hlen & Hc & Hcur
        & Hcount & Hruns).
  rewrite Hfold.
  assert (Forall (fun b => 0 <= b <= 255) (compressed ++ [count; current]))
    as Hall by (apply Forall_app; split; [exact Hc|repeat constructor; lia]).
  assert (JPEG.to_uint8 <$> (compressed ++ [count; current])
          = compressed ++ [count; current]) as ->.
  { apply list_eq. intros i. rewrite list_lookup_fmap.
    destruct ((compressed ++ [count; current]) !! i) as [v|] eqn:Hv;
      [|reflexivity].
    cbn. f_equal. apply to_uint8_small.
    eapply Forall_lookup_1 in Hall; [|exact Hv]. exact Hall. }
  split; [exact Hall|]. split.
  - exists n. rewrite length_app, Hlen. cbn. lia.
  - rewrite (expandRuns_app _ _ n) by exact Hlen. cbn [expandRuns].
    rewrite app_nil_r. exact Hruns.
Qed.

Lemma deflateWithJS_runs_drop_first_byte_witness :
  expandRuns (deflateWithJS [7; 7; 7; 9]) = [0; 7; 7; 9].
Proof.
  refine (proj2 (proj2 (deflateWithJS_runs_drop_first_byte [7; 7; 7; 9] _))).
  repeat constructor; lia.
Defined.

End PNGDeflateFacts.

Module PNGStructureFacts.
Import PNGCodec JSFacts PNGFilteringFacts.

Lemma setUint32_decode (v : Z) :
  0 <= v < 2 ^ 32 ->
  exists b0 b1 b2 b3,
    setUint32 v = [b0; b1; b2; b3] /\
    Forall (fun b => 0 <= b <= 255) [b0; b1; b2; b3] /\
    ((b0 * 256 + b1) * 256 + b2) * 256 + b3 = v.
Proof.
  intros Hv. unfold setUint32. eexists _, _, _, _. split; [reflexivity|].
  rewrite !JPEGStreamFacts.land_255, !Z.shiftr_div_pow2 by lia.
  change (2 ^ 32) with 4294967296 in Hv.
  change (2 ^ 24) with 16777216. change (2 ^ 16) with 65536.
  change (2 ^ 8) with 256.
  split; [repeat constructor|]; Z.div_mod_to_equations; lia.
Qed.

Lemma fmap_to_uint8_bytes (l : list Z) :
  Forall (fun b => 0 <= b <= 255) l -> JPEG.to_uint8 <$> l = l.
Proof.
  induction 1 as [|b l Hb _ IH]; [reflexivity|].
  cbn [fmap list_fmap]. rewrite to_uint8_small by exact Hb. f_equal. exact IH.
Qed.

(** X19: the frame of the PNG stream.  The stream starts with the PNG
    signature; the four bytes at offset 16 and the four at offset 20 are
    the width and the height, high byte first; the compressed data
    follow the chunk headers unchanged; the four bytes after them, where
    a CRC belongs, are the constant [12 34 56 78] whatever the data; and
    the stream is 57 bytes longer than the data, 73 with a gamma
    chunk. *)
Theorem createPNGStructure_frame
    (compressedData : list Z) (width height colorType : Z) (gamma : option Z) :
  0 <= width < 2 ^ 32 -> 0 <= height < 2 ^ 32 ->
  Forall (fun b => 0 <= b <= 255) compressedData ->
  let png := createPNGStructure compressedData width height colorType gamma in
  let start := match gamma with Some _ => 57%nat | None => 41%nat end in
  take 8 png = [137; 80; 78; 71; 13; 10; 26; 10] /\
  (exists b0 b1 b2 b3,
     take 4 (drop 16 png) = [b0; b1; b2; b3] /\
     ((b0 * 256 + b1) * 256 + b2) * 256 + b3 = width) /\
  (exists b0 b1 b2 b3,
     take 4 (drop 20 png) = [b0; b1; b2; b3] /\
     ((b0 * 256 + b1) * 256 + b2) * 256 + b3 = height) /\
  take (length compressedData) (drop start png) = compressedData /\
  take 4 (drop (start + length compressedData) png)
  = [0x12; 0x34; 0x56; 0x78] /\
  length png = (start + length compressedData + 16)%nat.
Proof.
  intros Hw Hh Hbytes png start.
  destruct (setUint32_decode width Hw) as (w0 & w1 & w2 & w3 & Hwb & _ & Hwv).
  destruct (setUint32_decode height Hh) as (h0 & h1 & h2 & h3 & Hhb & _ & Hhv).
  unfold png, start, createPNGStructure, createIHDRChunk, createIDATChunk,
    createGAMAChunk, createIENDChunk, signature, crcPlaceholder.
  rewrite Hwb, Hhb, (fmap_to_uint8_bytes _ Hbytes).
  unfold setUint32.
  destruct gamma as [scaled|]; rewrite <- ?app_assoc;
    cbn [app take drop Nat.add];
    (split; [reflexivity|]); (split; [eauto 10|]); (split; [eauto 10|]);
    rewrite drop_0, take_app_length, drop_app_length; cbn [take];
    (split; [reflexivity|]); (split; [reflexivity|]);
    cbn [length]; rewrite length_app; cbn [length]; lia.
Qed.

Lemma createPNGStructure_frame_witness :
  exists b0 b1 b2 b3,
    take 4 (drop 16 (createPNGStructure [1; 2; 3] 640 480 6 None))
    = [b0; b1; b2; b3] /\
    ((b0 * 256 + b1) * 256 + b2) * 256 + b3 = 640.
Proof.
  refine (proj1 (proj2 (createPNGStructure_frame [1; 2; 3] 640 480 6 None
                          _ _ _)));
    [lia|lia|repeat constructor; lia].
Defined.

End PNGStructureFacts.

Module PNGPaletteFacts.
Import PNG PNGPalette.

Lemma squaredDistance_bound a b :
  byteColor a -> byteColor b -> 0 <= squaredDistance a b <= 195075.
Proof.
  destruct a as [[r g] b0], b as [[pr pg] pb]. cbn [squaredDistance byteColor].
  intros (? & ? & ?) (? & ? & ?). nia.
Qed.

Lemma squaredDistance_zero a b : squaredDistance a b = 0 -> b = a.
Proof.
  destruct a as [[r g] b0], b as [[pr pg] pb]. cbn [squaredDistance]. intros H.
  assert (r - pr = 0) by nia. assert (g - pg = 0) by nia.
  assert (b0 - pb = 0) by nia.
  repeat f_equal; lia.
Qed.

Lemma squaredDistance_self a : squaredDistance a a = 0.
Proof. destruct a as [[r g] b]. cbn [squaredDistance]. nia. Qed.

Section PaletteFacts.

Variable distance : pixel -> pixel -> JSNum.number.

(** The square root of the host on the integers that byte colours give:
    it is rounded, and still strictly increasing there, for two
    neighbouring roots differ by more than 1/900 and the numbers of the
    host below 512 lie less than 1e-13 apart. *)
Variable root : Z -> Q.
Hypothesis root_increasing :
  forall s t : Z, 0 <= s -> s < t -> t <= 195075 -> (root s < root t)%Q.
Hypothesis distance_root :
  forall a b : pixel, byteColor a -> byteColor b ->
    distance a b = JSNum.Fin (root (squaredDistance a b)).

Lemma lt_root (a b c : pixel) :
  byteColor a -> byteColor b -> byteColor c ->
  JSNum.lt (JSNum.Fin (root (squaredDistance a b)))
           (JSNum.Fin (root (squaredDistance a c)))
  = (squaredDistance a b <? squaredDistance a c).
Proof.
  intros Ha Hb Hc.
  pose proof (squaredDistance_bound a b Ha Hb).
  pose proof (squaredDistance_bound a c Ha Hc).
  cbn [JSNum.lt].
  destruct (Z.ltb_spec (squaredDistance a b) (squaredDistance a c)) as [Hlt|Hge].
  - apply negb_true_iff, not_true_is_false. intros Hle%Qle_bool_iff.
    assert (root (squaredDistance a b) < root (squaredDistance a c))%Q as Hr
      by (apply root_increasing; lia).
    apply Qlt_not_le in Hr. contradiction.
  - apply negb_false_iff, Qle_bool_iff.
    destruct (Z.eq_dec (squaredDistance a c) (squaredDistance a b)) as [->|Hne].
    + apply Qle_refl.
    + apply Qlt_le_weak, root_increasing; lia.
Qed.

(** The loop of [findClosestColor] holds the first palette colour of
    least distance, and that distance. *)
Lemma findClosestColor_loop (color : pixel) (palette : list pixel) :
  byteColor color -> Forall byteColor palette -> palette <> [] ->
  exists c,
    palette !! findClosestColor distance color palette = Some c /\
    (foldl (fun '(minDistance, closestIndex) '(i, paletteColor) =>
              let distance := distance color paletteColor in
              if JSNum.lt distance minDistance
              then (distance, i)
              else (minDistance, closestIndex))
           (JSNum.PosInf, 0%nat) (imap pair palette)).1
    = JSNum.Fin (root (squaredDistance color c)) /\
    (forall (j : nat) d, palette !! j = Some d ->
       squaredDistance color c <= squaredDistance color d) /\
    (forall (j : nat) d, palette !! j = Some d ->
       (j < findClosestColor distance color palette)%nat ->
       squaredDistance color c < squaredDistance color d).
Proof.
  intros Hcolor. unfold findClosestColor.
  induction palette as [|x pre IH] using rev_ind; [congruence|].
  intros [Hpre Hx]%Forall_app _.
  apply Forall_inv in Hx.
  rewrite imap_app, foldl_app. cbn [imap foldl]. rewrite Nat.add_0_r.
  pose proof (distance_root color x Hcolor Hx) as Hdx.
  destruct pre as [|y pre'].
  { cbn. rewrite Hdx. cbn. exists x. repeat split; auto.
    - intros [|j] d [= <-]; lia.
    - intros j d _ Hj. lia. }
  destruct IH as (c & Hc & Hmin & Hleast & Hfirst); [exact Hpre|discriminate|].
  set (pre := y :: pre') in *.
  destruct (foldl _ _ (imap pair pre)) as [minDistance closestIndex].
  cbn [fst snd] in *. subst minDistance.
  assert (closestIndex < length pre)%nat as Hlt
    by (eapply lookup_lt_Some; eauto).
  assert (byteColor c) as Hbc by (eapply Forall_lookup_1; eauto).
  rewrite Hdx, (lt_root color x c Hcolor Hx Hbc).
  destruct (Z.ltb_spec (squaredDistance color x) (squaredDistance color c))
    as [Hlx|Hlx]; cbn [fst snd].
  - exists x. split; [apply list_lookup_middle; reflexivity|].
    split; [reflexivity|]. split.
    + intros j d Hj. apply lookup_app_Some in Hj as [Hj|[_ Hj]].
      * specialize (Hleast j d Hj). lia.
      * apply list_lookup_singleton_Some in Hj as [_ <-]. lia.
    + intros j d Hj Hji. rewrite lookup_app_l in Hj by exact Hji.
      specialize (Hleast j d Hj). lia.
  - exists c. split; [rewrite lookup_app_l by exact Hlt; exact Hc|].
    split; [reflexivity|]. split.
    + intros j d Hj. apply lookup_app_Some in Hj as [Hj|[_ Hj]].
      * eauto.
      * apply list_lookup_singleton_Some in Hj as [_ <-]. lia.
    + intros j d Hj Hji. rewrite lookup_app_l in Hj by lia. eauto.
Qed.

(** X20: on colours made of bytes, where the rounded square root of the
    host orders the distances as their exact squares, [findClosestColor]
    returns the index of a palette colour at least distance from the
    colour, the lowest such index; so a colour that is in the palette is
    mapped to an entry equal to it. *)
Theorem findClosestColor_nearest_first (color : pixel) (palette : list pixel) :
  byteColor color -> Forall byteColor palette -> palette <> [] ->
  exists c,
    palette !! findClosestColor distance color palette = Some c /\
    (forall d, d ∈ palette -> squaredDistance color c <= squaredDistance color d) /\
    (forall (j : nat) d, palette !! j = Some d ->
       (j < findClosestColor distance color palette)%nat ->
       squaredDistance color c < squaredDistance color d) /\
    (color ∈ palette -> c = color).
Proof.
  intros Hcolor Hpalette Hne.
  destruct (findClosestColor_loop color palette Hcolor Hpalette Hne)
    as (c & Hc & _ & Hleast & Hfirst).
  exists c. split; [exact Hc|]. split; [|split; [exact Hfirst|]].
  - intros d (j & Hj)%list_elem_of_lookup_1. eauto.
  - intros (j & Hj)%list_elem_of_lookup_1.
    specialize (Hleast j color Hj). rewrite squaredDistance_self in Hleast.
    pose proof (squaredDistance_bound color c Hcolor
                  ltac:(eapply Forall_lookup_1; eauto)).
    apply squaredDistance_zero. lia.
Qed.

End PaletteFacts.

Lemma findClosestColor_nearest_first_witness :
  let distance := fun a b => JSNum.Fin (inject_Z (squaredDistance a b)) in
  exists c,
    [(0, 0, 0); (255, 255, 255); (200, 200, 200)]
      !! findClosestColor distance (200, 200, 200)
           [(0, 0, 0); (255, 255, 255); (200, 200, 200)] = Some c /\
    ((200, 200, 200) ∈ [(0, 0, 0); (255, 255, 255); (200, 200, 200)] ->
     c = (200, 200, 200)).
Proof.
  intros distance.
  destruct (findClosestColor_nearest_first distance inject_Z
              ltac:(intros s t _ Hst _; rewrite <- Zlt_Qlt; exact Hst)
              ltac:(reflexivity)
              (200, 200, 200)
              [(0, 0, 0); (255, 255, 255); (200, 200, 200)])
    as (c & Hc & _ & _ & Hself).
  - cbn; lia.
  - repeat constructor; cbn; lia.
  - discriminate.
  - exists c. split; [exact Hc|exact Hself].
Defined.

End PNGPaletteFacts.

Module AnalyzerContentFacts.
Import JSNum Analyzer AnalyzerContent.

Lemma totalVariance_zero_or_NaN (imageData : ImageData) :
  totalVariance imageData = Fin 0 \/ totalVariance imageData = NaN.
Proof.
  unfold totalVariance.
  destruct (blockStarts imageData) as [|b bs] using rev_ind; [by left|].
  right. rewrite foldl_app. reflexivity.
Qed.

Lemma complexity_not_above (imageData : ImageData) (bound : Q) :
  (0 <= bound)%Q -> gt (complexity imageData) bound = false.
Proof.
  intros Hb. unfold complexity.
  destruct (totalVariance_zero_or_NaN imageData) as [-> | ->];
    [|reflexivity].
  cbn [divide]. destruct (width imageData * height imageData =? 0);
    [reflexivity|].
  cbn [gt]. apply negb_false_iff, Qle_bool_iff.
  unfold Qdiv. rewrite Qmult_0_l. exact Hb.
Qed.

(** X24: the analyzer never finds a photograph.  Whatever the image and
    whatever the quality score, the analysis handed to
    [generateRecommendations] is that of a graphic, and the format it
    recommends is WebP for an image with an alpha sample below 255 and
    PNG for every other image: never JPEG, never AVIF. *)
Theorem recommend_never_photograph
    (qualityScore : ImageData -> number) (imageData : ImageData) :
  m_isPhotograph (merged qualityScore imageData) = false /\
  m_isGraphic (merged qualityScore imageData) = true /\
  recommendedFormat (recommend qualityScore imageData)
  = if hasAlpha (analyzePixels imageData) then "webp"%string
    else "png"%string.
Proof.
  unfold recommend, generateRecommendations, merged.
  cbn [m_isPhotograph m_isGraphic m_hasAlpha m_qualityScore recommendedFormat].
  rewrite complexity_not_above by (unfold Qle; cbn; lia).
  cbn [andb negb]. repeat split.
Qed.

End AnalyzerContentFacts.

Module JSNumFacts.
Import JSNum.

Lemma elem_of_range_from (start n step v : Z) :
  0 < step ->
  v ∈ range_from start n step <->
  start <= v < n /\ exists k, 0 <= k /\ v = start + step * k.
Proof.
  intros Hstep. unfold range_from. rewrite list_elem_of_fmap. split.
  - intros (k & -> & Hk%elem_of_seqZ). split; [|exists k; lia].
    assert (step * k <= n - start + step - 1 - step); [|nia].
    pose proof (Z.mul_div_le (n - start + step - 1) step Hstep). nia.
  - intros (Hv & k & Hk & ->). exists k. split; [reflexivity|].
    apply elem_of_seqZ.
    assert (k + 1 <= (n - start + step - 1) / step)
      by (apply Z.div_le_lower_bound; nia).
    lia.
Qed.

Lemma NoDup_range_from (start n step : Z) :
  0 < step -> NoDup (range_from start n step).
Proof.
  intros Hstep. unfold range_from. apply NoDup_fmap_2; [|apply NoDup_seqZ].
  intros k1 k2 Hk. nia.
Qed.

End JSNumFacts.

Module FileValidatorFacts.
Import FileValidator JSNumFacts JSFacts.

Lemma compareSignatures_spec (data signature : list Z) :
  compareSignatures data signature = true <->
  take (length signature) data = signature.
Proof.
  unfold compareSignatures.
  destruct (Nat.ltb_spec (length data) (length signature)) as [Hlt|Hge].
  - split; [discriminate|]. intros Heq.
    apply (f_equal length) in Heq. rewrite length_take in Heq. lia.
  - rewrite forallb_forall. split.
    + intros Hall. apply list_eq. intros i.
      destruct (decide (i < length signature)%nat) as [Hi|Hi].
      * rewrite lookup_take_lt by exact Hi.
        assert (In i (seq 0 (length signature))) as Hin
          by (apply in_seq; lia).
        apply Hall in Hin. by apply bool_decide_eq_true in Hin.
      * rewrite lookup_take_ge, (lookup_ge_None_2 signature) by lia.
        reflexivity.
    + intros Heq i Hi%in_seq. apply bool_decide_eq_true_2.
      rewrite <- (lookup_take_lt data (length signature) i) by lia.
      by rewrite Heq.
Qed.

Lemma head_take {A} (l : list A) (n : nat) : head (take (S n) l) = head l.
Proof. destruct l; reflexivity. Qed.

(** X25: how a signature is detected.  A format of the table is
    reported exactly when the data start with its signature, whatever
    the place of the format in the table; and every format reported
    starts with [image/], so that [performSecurityChecks] reports a
    non-image signature for no file. *)
Theorem detectFileSignature_prefix (data : list Z) :
  (forall format signature,
     (format, signature) ∈ signatures ->
     detectFileSignature data = Some format <->
     take (length signature) data = signature) /\
  (forall format, detectFileSignature data = Some format ->
     String.prefix "image/" format = true) /\
  (forall file, reportsNonImage file = false).
Proof.
  assert (forall d format, detectFileSignature d = Some format ->
            String.prefix "image/" format = true) as Himage.
  { intros d format. unfold detectFileSignature, signatures.
    cbn [List.find snd].
    repeat (destruct (compareSignatures d _);
            [cbn; by intros [= <-]|]).
    discriminate. }
  split; [|split; [apply Himage|]].
  - intros format signature Hin.
    apply list_elem_of_In in Hin. unfold signatures in Hin. cbn [In] in Hin.
    unfold detectFileSignature, signatures. cbn [List.find snd].
    repeat match goal with
           | |- context [compareSignatures data ?s] =>
               let H := fresh "Hsig" in
               let Hh := fresh "Hhead" in
               destruct (compareSignatures data s) eqn:H;
               [apply compareSignatures_spec in H;
                pose proof (f_equal head H) as Hh; cbn [length] in Hh, H;
                rewrite head_take in Hh; cbn [head] in Hh
               |apply not_true_iff_false in H;
                rewrite compareSignatures_spec in H; cbn [length] in H]
           end;
      destruct Hin as [Heq|[Heq|[Heq|[Heq|[Heq|[Heq|[]]]]]]];
      injection Heq as <- <-;
      cbn [fmap option_fmap option_map fst length];
      (split;
       [intros Hf; first [assumption | discriminate Hf]
       |intros Htake; first [reflexivity | contradiction |
          apply (f_equal head) in Htake; rewrite head_take in Htake;
          cbn [head] in Htake; congruence]]).
  - intros file. unfold reportsNonImage.
    destruct (detectFileSignature (take 16 file)) as [format|] eqn:Hd;
      [|reflexivity].
    by rewrite (Himage _ _ Hd).
Qed.

(** X26: the validator knows the streams of the codecs.  The first 16
    bytes of every stream [encodeJPEG] returns are detected as
    [image/jpeg], and those of every stream [createPNGStructure] returns
    as [image/png]. *)
Theorem detectFileSignature_of_codec_streams
    (processedData compressedData : list Z) (w h colorType : Z)
    (gamma : option Z) :
  detectFileSignature (take 16 (JPEG.encodeJPEG processedData w h))
  = Some "image/jpeg"%string /\
  detectFileSignature
    (take 16 (PNGCodec.createPNGStructure compressedData w h colorType gamma))
  = Some "image/png"%string.
Proof.
  split.
  - destruct (JPEGFacts.encodeJPEG_framed processedData w h) as [body ->].
    reflexivity.
  - reflexivity.
Qed.

(** X27: what the validator accepts.  An [ImageData] is valid exactly
    when the engine's own validation accepts it and its data are not
    empty; a data size that does not match the dimensions is a warning
    and no error. *)
Theorem validateImageData_valid_iff (imageData : ImageData) :
  (valid imageData = true <->
   Engine.validateInput imageData = None /\ data imageData <> []) /\
  (valid imageData = true <->
   1 <= width imageData <= 32767 /\ 1 <= height imageData <= 32767 /\
   data imageData <> []) /\
  (warnsSizeMismatch imageData = true <->
   Z.of_nat (length (data imageData))
   <> width imageData * height imageData * 4).
Proof.
  assert (valid imageData = true <->
          1 <= width imageData <= 32767 /\ 1 <= height imageData <= 32767 /\
          data imageData <> []) as Hvalid.
  { unfold valid, validateImageData_errors.
    destruct (Z.leb_spec (width imageData) 0),
             (Z.leb_spec (height imageData) 0),
             (Z.ltb_spec 32767 (width imageData)),
             (Z.ltb_spec 32767 (height imageData)),
             (data imageData) as [|b d];
      cbn; split; try discriminate; try lia; try (intros (_ & _ & []); done);
      try (intros _; repeat split; try lia; discriminate). }
  split; [|split; [exact Hvalid|]].
  - rewrite Hvalid, EngineStatsFacts.validateInput_accepts_iff. tauto.
  - unfold warnsSizeMismatch. rewrite negb_true_iff, Z.eqb_neq. reflexivity.
Qed.

(** X28: the validator and the analyzer agree on alpha.  For every
    array of samples, whether or not its length is a multiple of 4,
    [checkAlphaChannel] of the validator returns the [hasAlpha] flag that
    [analyzePixels] of the analyzer computes. *)
Theorem checkAlphaChannel_agrees_with_analyzer (imageData : ImageData) :
  checkAlphaChannel (data imageData)
  = Analyzer.hasAlpha (Analyzer.analyzePixels imageData).
Proof.
  unfold Analyzer.analyzePixels, checkAlphaChannel.
  rewrite AnalyzerFacts.hasAlpha_foldl. cbn [Analyzer.hasAlpha orb].
  set (d := data imageData).
  apply eq_true_iff_eq. rewrite !existsb_exists. split.
  - intros (i & Hi & Ha).
    apply list_elem_of_In, elem_of_range_from in Hi as (Hi & k & Hk & ->);
      [|lia].
    exists (4 * k). split; [|by replace (4 * k + 3) with (3 + 4 * k) by lia].
    apply list_elem_of_In, elem_of_range_step; [lia|]. split; [lia|eauto].
  - intros (i & Hi & Ha).
    apply list_elem_of_In, elem_of_range_step in Hi as (Hi & k & ->); [|lia].
    exists (4 * k + 3). split; [|exact Ha].
    apply list_elem_of_In, elem_of_range_from; [lia|].
    destruct (JS.get d (4 * k + 3)) as [a|] eqn:Hget; [|discriminate].
    assert (0 <= 4 * k + 3 < Z.of_nat (length d))
      by (apply get_Some_iff; eauto).
    split; [lia|]. exists k. lia.
Qed.

End FileValidatorFacts.

Module ProgressiveFacts.
Import JSNum Progressive JSNumFacts.

Lemma elem_of_passPixels (w h : Z) (pass : Pass) (x y : Z) :
  (x, y) ∈ passPixels w h pass <->
  y ∈ range_from (yStart pass) h (yStep pass) /\
  x ∈ range_from (xStart pass) w (xStep pass).
Proof.
  unfold passPixels. rewrite list_elem_of_bind. split.
  - intros (y' & (x' & Hxy & Hx)%list_elem_of_bind & Hy).
    apply list_elem_of_singleton in Hxy as [= -> ->]. auto.
  - intros [Hy Hx]. exists y. split; [|exact Hy].
    apply list_elem_of_bind. exists x. split; [|exact Hx].
    by apply list_elem_of_singleton.
Qed.

Lemma elem_of_passes (pass : Pass) :
  pass ∈ passes ->
  pass = mkPass 0 0 8 8 \/ pass = mkPass 4 0 8 8 \/ pass = mkPass 0 4 4 8 \/
  pass = mkPass 2 0 4 4 \/ pass = mkPass 0 2 2 4 \/ pass = mkPass 1 0 2 2 \/
  pass = mkPass 0 1 1 2.
Proof.
  unfold passes. intros Hin.
  repeat (apply elem_of_cons in Hin as [->|Hin]; [tauto|]).
  by apply elem_of_nil in Hin.
Qed.

Lemma passes_steps (pass : Pass) :
  pass ∈ passes -> 0 < xStep pass /\ 0 < yStep pass.
Proof.
  intros Hin%elem_of_passes.
  destruct Hin as [->|[->|[->|[->|[->|[->| ->]]]]]]; cbn; lia.
Qed.

Lemma NoDup_passPixels (w h : Z) (pass : Pass) :
  pass ∈ passes -> NoDup (passPixels w h pass).
Proof.
  intros [Hx Hy]%passes_steps. unfold passPixels.
  apply NoDup_bind; [| |by apply NoDup_range_from].
  - intros y1 y2 [x y] _ _ (x1 & H1 & _)%list_elem_of_bind
      (x2 & H2 & _)%list_elem_of_bind.
    apply list_elem_of_singleton in H1, H2. congruence.
  - intros y _. apply NoDup_bind; [| |by apply NoDup_range_from].
    + intros x1 x2 p _ _ H1%list_elem_of_singleton H2%list_elem_of_singleton.
      congruence.
    + intros x _. apply NoDup_singleton.
Qed.

Lemma length_bind_const {A B} (f : A -> list B) (n : nat) (l : list A) :
  (forall x, length (f x) = n) -> length (l ≫= f) = (length l * n)%nat.
Proof.
  intros Hf. induction l as [|x l IH]; [reflexivity|].
  cbn. rewrite length_app, Hf, IH. reflexivity.
Qed.

(** X29: interlacing visits every pixel once.  The order in which
    [encodeInterlacedPNG] copies the pixels holds no pixel twice and
    holds exactly the pixels [(x, y)] of the image, so that the seven
    passes together copy four samples for each of the [width * height]
    pixels. *)
Theorem encodeInterlacedPNG_every_pixel_once (imageData : ImageData) :
  let w := width imageData in
  let h := height imageData in
  NoDup (interlaceOrder w h) /\
  (forall x y, (x, y) ∈ interlaceOrder w h <-> 0 <= x < w /\ 0 <= y < h) /\
  encodeInterlacedPNG imageData
  = interlaceOrder w h ≫= pushPixel (data imageData) w /\
  (0 <= w -> 0 <= h ->
   Z.of_nat (length (encodeInterlacedPNG imageData)) = 4 * (w * h)).
Proof.
  intros w h.
  assert (forall x y, (x, y) ∈ interlaceOrder w h <->
                      0 <= x < w /\ 0 <= y < h) as Hcover.
  { intros x y. unfold interlaceOrder. rewrite list_elem_of_bind. split.
    - intros (pass & Hin & Hpass). apply elem_of_passPixels in Hin as [Hy Hx].
      destruct (passes_steps pass Hpass) as [Hxs Hys].
      apply elem_of_range_from in Hy as (Hy & _); [|exact Hys].
      apply elem_of_range_from in Hx as (Hx & _); [|exact Hxs].
      apply elem_of_passes in Hpass.
      destruct Hpass as [->|[->|[->|[->|[->|[->| ->]]]]]]; cbn in *; lia.
    - intros [Hx Hy].
      assert (y mod 2 = 1 \/
              (y mod 2 = 0 /\ x mod 2 = 1) \/
              (y mod 4 = 2 /\ x mod 2 = 0) \/
              (y mod 4 = 0 /\ x mod 4 = 2) \/
              (y mod 8 = 4 /\ x mod 4 = 0) \/
              (y mod 8 = 0 /\ x mod 8 = 4) \/
              (y mod 8 = 0 /\ x mod 8 = 0)) as Hcase
        by (Z.div_mod_to_equations; lia).
      destruct Hcase as [Hc|[Hc|[Hc|[Hc|[Hc|[Hc|Hc]]]]]].
      + exists (mkPass 0 1 1 2). split; [|unfold passes; repeat first [apply list_elem_of_here | apply list_elem_of_further]].
        apply elem_of_passPixels. cbn.
        split; apply elem_of_range_from; try lia.
        * split; [Z.div_mod_to_equations; lia|].
          exists (y / 2). Z.div_mod_to_equations; lia.
        * split; [lia|]. exists x. lia.
      + exists (mkPass 1 0 2 2). split; [|unfold passes; repeat first [apply list_elem_of_here | apply list_elem_of_further]].
        apply elem_of_passPixels. cbn.
        split; apply elem_of_range_from; try lia.
        * split; [lia|]. exists (y / 2). Z.div_mod_to_equations; lia.
        * split; [Z.div_mod_to_equations; lia|].
          exists (x / 2). Z.div_mod_to_equations; lia.
      + exists (mkPass 0 2 2 4). split; [|unfold passes; repeat first [apply list_elem_of_here | apply list_elem_of_further]].
        apply elem_of_passPixels. cbn.
        split; apply elem_of_range_from; try lia.
        * split; [Z.div_mod_to_equations; lia|].
          exists (y / 4). Z.div_mod_to_equations; lia.
        * split; [lia|]. exists (x / 2). Z.div_mod_to_equations; lia.
      + exists (mkPass 2 0 4 4). split; [|unfold passes; repeat first [apply list_elem_of_here | apply list_elem_of_further]].
        apply elem_of_passPixels. cbn.
        split; apply elem_of_range_from; try lia.
        * split; [lia|]. exists (y / 4). Z.div_mod_to_equations; lia.
        * split; [Z.div_mod_to_equations; lia|].
          exists (x / 4). Z.div_mod_to_equations; lia.
      + exists (mkPass 0 4 4 8). split; [|unfold passes; repeat first [apply list_elem_of_here | apply list_elem_of_further]].
        apply elem_of_passPixels. cbn.
        split; apply elem_of_range_from; try lia.
        * split; [Z.div_mod_to_equations; lia|].
          exists (y / 8). Z.div_mod_to_equations; lia.
        * split; [lia|]. exists (x / 4). Z.div_mod_to_equations; lia.
      + exists (mkPass 4 0 8 8). split; [|unfold passes; repeat first [apply list_elem_of_here | apply list_elem_of_further]].
        apply elem_of_passPixels. cbn.
        split; apply elem_of_range_from; try lia.
        * split; [lia|]. exists (y / 8). Z.div_mod_to_equations; lia.
        * split; [Z.div_mod_to_equations; lia|].
          exists (x / 8). Z.div_mod_to_equations; lia.
      + exists (mkPass 0 0 8 8). split; [|unfold passes; repeat first [apply list_elem_of_here | apply list_elem_of_further]].
        apply elem_of_passPixels. cbn.
        split; apply elem_of_range_from; try lia.
        * split; [lia|]. exists (y / 8). Z.div_mod_to_equations; lia.
        * split; [lia|]. exists (x / 8). Z.div_mod_to_equations; lia. }
  assert (NoDup (interlaceOrder w h)) as Hnodup.
  { unfold interlaceOrder. apply NoDup_bind.
    - intros p1 p2 [x y] Hp1 Hp2 [Hy1 Hx1]%elem_of_passPixels
        [Hy2 Hx2]%elem_of_passPixels.
      destruct (passes_steps p1 Hp1), (passes_steps p2 Hp2).
      apply elem_of_range_from in Hy1 as (_ & ky1 & _ & Hy1); [|lia].
      apply elem_of_range_from in Hx1 as (_ & kx1 & _ & Hx1); [|lia].
      apply elem_of_range_from in Hy2 as (_ & ky2 & _ & Hy2); [|lia].
      apply elem_of_range_from in Hx2 as (_ & kx2 & _ & Hx2); [|lia].
      apply elem_of_passes in Hp1, Hp2.
      destruct Hp1 as [->|[->|[->|[->|[->|[->| ->]]]]]];
        destruct Hp2 as [->|[->|[->|[->|[->|[->| ->]]]]]];
        cbn in *; first [reflexivity | exfalso; lia].
    - intros pass Hpass. by apply NoDup_passPixels.
    - unfold passes.
      repeat (apply NoDup_cons; split;
              [rewrite ?elem_of_cons, elem_of_nil; intros Hin;
               repeat (destruct Hin as [Hin|Hin]; [discriminate Hin|]);
               exact Hin|]).
      apply NoDup_nil_2. }
  split; [exact Hnodup|]. split; [exact Hcover|]. split; [reflexivity|].
  intros Hw Hh. unfold encodeInterlacedPNG. fold w h.
  rewrite (length_bind_const _ 4) by reflexivity.
  assert (interlaceOrder w h
          ≡ₚ (seqZ 0 h ≫= fun y => (fun x => (x, y)) <$> seqZ 0 w)) as Hperm.
  { apply NoDup_Permutation; [exact Hnodup| |].
    - apply NoDup_bind; [| |apply NoDup_seqZ].
      + intros y1 y2 [x y] _ _ (x1 & [= _ ->] & _)%list_elem_of_fmap
          (x2 & [= _ ->] & _)%list_elem_of_fmap. reflexivity.
      + intros y _. apply NoDup_fmap_2; [|apply NoDup_seqZ].
        intros x1 x2 [= ->]. reflexivity.
    - intros [x y]. rewrite Hcover, list_elem_of_bind. split.
      + intros [Hx Hy]. exists y. split; [|apply elem_of_seqZ; lia].
        apply list_elem_of_fmap. exists x. split; [reflexivity|].
        apply elem_of_seqZ. lia.
      + intros (y' & (x' & [= -> ->] & Hx%elem_of_seqZ)%list_elem_of_fmap
                & Hy%elem_of_seqZ). lia. }
  rewrite Hperm, (length_bind_const _ (Z.to_nat w)), length_seqZ
    by (intros y; by rewrite length_fmap, length_seqZ).
  nia.
Qed.

(** X30: the scans share out the 64 coefficients.  For a positive
    number of scans, the markers [encodeProgressiveJPEG] writes carry
    spectral bands that follow one another without gap or overlap: the
    first band starts at 0, the last ends at 63, and every other band
    starts right after the end of the band before it. *)
Theorem scanMarkers_bands_partition (scans : option Z) :
  let n := scansOf scans in
  1 <= n ->
  length (scanMarkers scans) = Z.to_nat n /\
  (forall s, 0 <= s < n ->
     exists first last,
       scanMarkers scans !! Z.to_nat s
       = Some [0xFF; 0xDA; 0x00; 0x0C; 0x03; 0x01; 0x00; 0x02; 0x11; 0x03;
               0x11; first; last; 0x00] /\
       first = spectralStart s n /\ last = spectralEnd s n /\
       first <= last + 1 /\
       (s = 0 -> first = 0) /\
       (s = n - 1 -> last = 63) /\
       (s < n - 1 -> spectralStart (s + 1) n = last + 1)).
Proof.
  intros n Hn. unfold scanMarkers. fold n.
  split; [by rewrite length_fmap, length_seqZ|].
  intros s Hs. exists (spectralStart s n), (spectralEnd s n). split.
  { rewrite list_lookup_fmap, lookup_seqZ_lt by lia.
    rewrite Z2Nat.id, Z.add_0_l by lia. reflexivity. }
  split; [reflexivity|]. split; [reflexivity|].
  unfold spectralStart, spectralEnd.
  assert (0 <= 64 / n) as Hf by (apply Z.div_pos; lia).
  assert (64 / n * n <= 64) as Hfn
    by (rewrite Z.mul_comm; apply Z.mul_div_le; lia).
  set (f := 64 / n) in *.
  destruct (Z.eqb_spec s 0), (Z.eqb_spec s (n - 1)), (Z.eqb_spec (s + 1) 0);
    repeat split; intros; try lia; nia.
Qed.

Lemma scanMarkers_bands_partition_witness :
  exists first last,
    scanMarkers None !! Z.to_nat 1
    = Some [0xFF; 0xDA; 0x00; 0x0C; 0x03; 0x01; 0x00; 0x02; 0x11; 0x03;
            0x11; first; last; 0x00] /\
    first = 21 /\ last = 41.
Proof.
  destruct (scanMarkers_bands_partition None) as [_ Hband]; [cbn; lia|].
  destruct (Hband 1) as (first & last & Hm & -> & -> & _); [cbn; lia|].
  eexists _, _. split; [exact Hm|]. split; reflexivity.
Defined.

End ProgressiveFacts.

Module AnalyzerCountFacts.
Import Analyzer JSFacts.

Lemma isGrayscale_foldl data acc (l : list Z) :
  isGrayscale (foldl (analyzePixel data) acc l) =
  isGrayscale acc
  && forallb (fun i => bool_decide (JS.get data i = JS.get data (i + 1))
                       && bool_decide (JS.get data (i + 1) = JS.get data (i + 2)))
             l.
Proof.
  revert acc. induction l as [|i l IH]; intros acc; cbn [foldl forallb].
  - by rewrite andb_true_r.
  - rewrite IH. unfold analyzePixel; cbn [isGrayscale].
    destruct (bool_decide (JS.get data i = JS.get data (i + 1))),
             (bool_decide (JS.get data (i + 1) = JS.get data (i + 2))),
             (isGrayscale acc); reflexivity.
Qed.

Lemma hasColor_foldl data acc (l : list Z) :
  hasColor (foldl (analyzePixel data) acc l) =
  hasColor acc
  || negb (forallb (fun i => bool_decide (JS.get data i = JS.get data (i + 1))
                       && bool_decide (JS.get data (i + 1) = JS.get data (i + 2)))
             l).
Proof.
  revert acc. induction l as [|i l IH]; intros acc; cbn [foldl forallb].
  - by rewrite orb_false_r.
  - rewrite IH. unfold analyzePixel; cbn [hasColor].
    destruct (bool_decide (JS.get data i = JS.get data (i + 1))),
             (bool_decide (JS.get data (i + 1) = JS.get data (i + 2))),
             (hasColor acc); reflexivity.
Qed.

(** X22: what the analyzer calls grayscale.  [isGrayscale] is set
    exactly when the red, green and blue samples of every pixel are the
    same, a sample missing at the end of the data being equal only to
    another missing one; and [hasColor] is its negation. *)
Theorem analyzePixels_grayscale_iff (imageData : ImageData) :
  let d := data imageData in
  (isGrayscale (analyzePixels imageData) = true <->
   forall k, 0 <= 4 * k < Z.of_nat (length d) ->
     JS.get d (4 * k) = JS.get d (4 * k + 1) /\
     JS.get d (4 * k + 1) = JS.get d (4 * k + 2)) /\
  hasColor (analyzePixels imageData)
  = negb (isGrayscale (analyzePixels imageData)).
Proof.
  intros d. unfold analyzePixels. fold d.
  rewrite isGrayscale_foldl, hasColor_foldl. cbn [isGrayscale hasColor andb orb].
  split; [|reflexivity].
  rewrite forallb_forall. split.
  - intros Hall k Hk.
    assert (In (4 * k) (JS.range_step (Z.of_nat (length d)) 4)) as Hin
      by (apply list_elem_of_In, elem_of_range_step; [lia|]; eauto).
    apply Hall, andb_true_iff in Hin as [H1 H2].
    apply bool_decide_eq_true in H1, H2. auto.
  - intros Hall i Hi.
    apply list_elem_of_In, elem_of_range_step in Hi as (Hi & k & ->); [|lia].
    destruct (Hall k Hi) as [H1 H2].
    apply andb_true_iff. split; by apply bool_decide_eq_true.
Qed.

Lemma alphaPixels_foldl data acc (l : list Z) :
  alphaPixels (foldl (analyzePixel data) acc l) =
  alphaPixels acc
  + Z.of_nat (length (filter (fun i => below255 (JS.get data (i + 3)) = true) l)).
Proof.
  revert acc. induction l as [|i l IH]; intros acc; cbn [foldl].
  - rewrite filter_nil. cbn. lia.
  - rewrite IH, filter_cons. unfold analyzePixel; cbn [alphaPixels].
    destruct (below255 (JS.get data (i + 3))); cbn.
    + destruct (decide (true = true)); [|done]. cbn [length]. lia.
    + destruct (decide (false = true)); [done|]. lia.
Qed.

Lemma size_union_le (X Y : gset (option Z * option Z * option Z)) :
  (size (X ∪ Y) <= size X + size Y)%nat.
Proof.
  rewrite size_union_alt.
  assert (size (Y ∖ X) <= size Y)%nat
    by (apply subseteq_size; intros x Hx; apply elem_of_difference in Hx;
        tauto).
  lia.
Qed.

Lemma uniqueColors_foldl_size data acc (l : list Z) :
  (size (uniqueColors (foldl (analyzePixel data) acc l))
   <= size (uniqueColors acc) + length l)%nat.
Proof.
  revert acc. induction l as [|i l IH]; intros acc; cbn [foldl length]; [lia|].
  etransitivity; [apply IH|]. unfold analyzePixel; cbn [uniqueColors].
  pose proof (size_union_le {[ (bucket (JS.get data i),
                                bucket (JS.get data (i + 1)),
                                bucket (JS.get data (i + 2))) ]}
                (uniqueColors acc)) as Hle.
  rewrite size_singleton in Hle. lia.
Qed.

Lemma length_range_step_4 (n : nat) :
  Z.of_nat (length (JS.range_step (Z.of_nat n) 4)) = (Z.of_nat n + 3) / 4.
Proof.
  unfold JS.range_step. rewrite length_fmap, length_seqZ.
  replace (Z.of_nat n + 4 - 1) with (Z.of_nat n + 3) by lia.
  apply Z2Nat.id. apply Z.div_pos; lia.
Qed.

(** X23: what the analyzer counts.  With [n] the number of pixels the
    loop of [analyzePixels] visits, one for every four samples and one
    more for a rest: the count of pixels with alpha is between 0 and
    [n] and is positive exactly when [hasAlpha] is set, and the number of
    unique colors is at most [n]. *)
Theorem analyzePixels_counts_bounded (imageData : ImageData) :
  let n := (Z.of_nat (length (data imageData)) + 3) / 4 in
  0 <= alphaPixels (analyzePixels imageData) <= n /\
  (hasAlpha (analyzePixels imageData) = true <->
   0 < alphaPixels (analyzePixels imageData)) /\
  (exists analysis,
     analyze imageData = Ok analysis /\
     0 <= uniqueColorCount analysis <= n).
Proof.
  intros n. unfold analyze, analyzePixels.
  rewrite alphaPixels_foldl, AnalyzerFacts.hasAlpha_foldl.
  cbn [alphaPixels hasAlpha orb].
  set (d := data imageData). set (l := JS.range_step (Z.of_nat (length d)) 4).
  assert (Z.of_nat (length l) = n) as Hl by apply length_range_step_4.
  split; [|split].
  - pose proof (length_filter (fun i => below255 (JS.get d (i + 3)) = true) l).
    lia.
  - rewrite existsb_exists. split.
    + intros (i & Hi%list_elem_of_In & Ha).
      assert (i ∈ filter (fun i => below255 (JS.get d (i + 3)) = true) l)
        as Hin by (apply list_elem_of_filter; auto).
      destruct (filter _ l); [by apply elem_of_nil in Hin|cbn; lia].
    + intros Hpos.
      destruct (filter (fun i => below255 (JS.get d (i + 3)) = true) l)
        as [|i rest] eqn:Hf; [cbn in Hpos; lia|].
      assert (i ∈ filter (fun i => below255 (JS.get d (i + 3)) = true) l)
        as Hin by (rewrite Hf; left).
      apply list_elem_of_filter in Hin as [Ha Hin].
      exists i. split; [by apply list_elem_of_In|exact Ha].
  - eexists. split; [reflexivity|]. cbn [uniqueColorCount].
    pose proof (uniqueColors_foldl_size d
                  {| hasAlpha := false; isGrayscale := true; hasColor := false;
                     uniqueColors := ∅; alphaPixels := 0 |} l) as Hsize.
    cbn [uniqueColors] in Hsize. rewrite size_empty in Hsize.
    unfold analyzePixels. fold d l. lia.
Qed.

End AnalyzerCountFacts.

Module PNGMedianCutFacts.
Import PNG PNGFacts.

(** X21: median cut never reduces a set of pixels.  When the pixels are
    no more than the colors asked for, [medianCut] returns them as they
    are; when they are more, no depth of recursion lets it return.  So
    whatever it returns is its input. *)
Theorem medianCut_returns_input_or_diverges
    (pixels : list pixel) (maxColors : Z) :
  (Z.of_nat (length pixels) <= maxColors ->
   forall fuel : nat, medianCut (S fuel) pixels maxColors = Some pixels) /\
  (maxColors < Z.of_nat (length pixels) ->
   forall fuel : nat, medianCut fuel pixels maxColors = None) /\
  (forall (fuel : nat) palette,
     medianCut fuel pixels maxColors = Some palette ->
     palette = pixels /\ Z.of_nat (length pixels) <= maxColors).
Proof.
  split; [intros Hle fuel; by apply medianCut_fits|].
  split; [intros Hgt fuel; by apply medianCut_never_splits|].
  intros fuel palette Hcut.
  destruct (Z.le_gt_cases (Z.of_nat (length pixels)) maxColors) as [Hle|Hgt].
  - destruct fuel as [|fuel]; [discriminate|].
    rewrite medianCut_fits in Hcut by exact Hle. by injection Hcut as <-.
  - rewrite medianCut_never_splits in Hcut by exact Hgt. discriminate.
Qed.

End PNGMedianCutFacts.
